(** * NiconicoLiveFD: the live control channel of yt_dlp/downloader/niconico.py

    A shallow embedding of [NiconicoLiveFD.real_download] and of its two
    closures [communicate_ws] (one web-socket session) and [ws_main] (the
    reconnect loop), followed by the properties of the control channel. *)

From Stdlib Require Import String Ascii List ZArith Bool Lia Arith DecimalString.
Import ListNotations.
Open Scope string_scope.
Local Set Warnings "-register-all".

(** ** Python values *)

(** The values [json.loads] can return.  A [str] is a [string], one [ascii]
    per character.  [JFloat m e] is the float nearest to [m * 10^e]. *)
Inductive json : Type :=
| JNull
| JBool (b : bool)
| JInt (n : Z)
| JFloat (m e : Z)
| JNaN
| JInfinity (negative : bool)
| JString (s : string)
| JList (items : list json)
| JDict (members : list (string * json)).

(** The float nearest to [m * 10^e] is zero when [m] is zero or the
    magnitude is at most half of the least subnormal, [2^-1075]. *)
Definition float_is_zero (m e : Z) : bool :=
  (m =? 0)%Z ||
  ((e <? 0)%Z && (Z.abs m * 2 ^ 1075 <=? 10 ^ (- e))%Z).

(** [bool(v)]: the truth value of a Python object. *)
Definition truthy (v : json) : bool :=
  match v with
  | JNull => false
  | JBool b => b
  | JInt n => negb (n =? 0)%Z
  | JFloat m e => negb (float_is_zero m e)
  | JNaN => true
  | JInfinity _ => true
  | JString s => negb (s =? "")
  | JList l => match l with [] => false | _ => true end
  | JDict d => match d with [] => false | _ => true end
  end.

(** [isinstance(v, dict)] and [isinstance(v, compat_str)]. *)
Definition isinstance_dict (v : json) : bool :=
  match v with JDict _ => true | _ => false end.

Definition isinstance_str (v : json) : bool :=
  match v with JString _ => true | _ => false end.

(** [v == s] for a [str] literal [s]: only an equal [str] compares equal. *)
Definition eq_str (v : json) (s : string) : bool :=
  match v with JString t => (t =? s) | _ => false end.

(** A dict is kept as the list of its items; a key occurs once. *)
Fixpoint dict_lookup (d : list (string * json)) (k : string) : option json :=
  match d with
  | [] => None
  | (k', v) :: d' => if (k' =? k) then Some v else dict_lookup d' k
  end.

(** ** Exceptions and results *)

Record exn : Type := Exn { exn_class : string; exn_message : string }.

(** The value of a Python expression that may raise. *)
Inductive result (A : Type) : Type :=
| Ok (a : A)
| Err (e : exn).
Arguments Ok {A} a.
Arguments Err {A} e.

(** [v.get(k)]: the value, or [None]; defined on dicts only. *)
Definition py_get (v : json) (k : string) : result json :=
  match v with
  | JDict d => Ok (match dict_lookup d k with Some x => x | None => JNull end)
  | _ => Err (Exn "AttributeError" "object has no attribute 'get'")
  end.

(** [v[k]] for a [str] key [k]: [KeyError] on a dict without the key,
    [TypeError] on anything that is not a dict. *)
Definition py_getitem (v : json) (k : string) : result json :=
  match v with
  | JDict d => match dict_lookup d k with
               | Some x => Ok x
               | None => Err (Exn "KeyError" k)
               end
  | _ => Err (Exn "TypeError" "not subscriptable by a str")
  end.

(** The exceptions [try_get] swallows. *)
Definition try_get_catches (e : exn) : bool :=
  existsb (String.eqb (exn_class e))
    ["AttributeError"; "KeyError"; "TypeError"; "IndexError"; "ValueError"].

(** Modelled from the spec: [try_get] of yt_dlp/utils.py, which is not among
    the sources.  It applies the getter, turns a lookup failure into [None]
    and returns the value only when it is of the expected type (here
    [compat_str]), [None] otherwise. *)
Definition try_get (src : json) (getter : json -> result json)
    (expected_type : json -> bool) : result json :=
  match getter src with
  | Ok v => if expected_type v then Ok v else Ok JNull
  | Err e => if try_get_catches e then Ok JNull else Err e
  end.

(** The getter [lambda x: x["body"]["code"]]. *)
Definition body_code (x : json) : result json :=
  match py_getitem x "body" with
  | Ok b => py_getitem b "code"
  | Err e => Err e
  end.

(** [a or b]: [a] when it is true, else [b]. *)
Definition py_or (a b : json) : json := if truthy a then a else b.

(** ** The [json] module, as far as the downloader uses it *)

Class JsonModule : Type := {
  json_loads : string -> result json;   (* Err: JSONDecodeError *)
  json_dumps : json -> string
}.

(** ** The world outside the downloader *)

(** A web socket is named by a number. *)
Definition sock : Type := nat.

(** What one call of [ws.recv()] finds: a text frame, or a failed
    transport. *)
Inductive arrival : Type :=
| Frame (text : string)
| Broken (e : exn).

(** The entries of [info_dict] the downloader reads, and [protocol], which
    it overwrites for the media downloader. *)
Module Info.
Record dict : Type := Dict {
  video_id : string;
  url : string;
  ws : sock;                     (* the socket the extractor left open *)
  origin : string;
  cookies : option string;
  live_quality : option string;
  live_latency : option string;
  protocol : string
}.
End Info.
Definition info_dict : Type := Info.dict.

(** What the program does to the outside, in the order it does it. *)
Inductive event : Type :=
| EvThreadStart
| EvDownload (filename : string) (info : info_dict)
| EvConnect (ws : sock) (url : string) (headers : list (string * string))
| EvConnectFailed (url : string) (headers : list (string * string)) (e : exn)
| EvSend (ws : sock) (frame : string)
| EvSendFailed (ws : sock) (frame : string) (e : exn)
| EvRecv (ws : sock) (frame : string)
| EvRecvFailed (ws : sock) (e : exn)
| EvClose (ws : sock)
| EvToScreen (message : string)
| EvWriteDebug (data : json)
| EvSleep (seconds : nat).

(** The state threaded through the control channel.  [inbox] holds what the
    next calls of [recv] find (none left: [recv] never returns); [send_faults]
    and [connect_faults] hold the fate of the next calls of [send] and of
    [WebSocket(...)] ([None], or none left: the call succeeds); [next_sock]
    names the next socket; [trace] is what has happened so far. *)
Record world : Type := World {
  inbox : list arrival;
  send_faults : list (option exn);
  connect_faults : list (option exn);
  next_sock : sock;
  trace : list event
}.

Definition emit (ev : event) (w : world) : world :=
  World (inbox w) (send_faults w) (connect_faults w) (next_sock w)
        (trace w ++ [ev]).

(** ** A monad for state, exceptions and waiting *)

Inductive run (A : Type) : Type :=
| Ret (a : A)          (* returned [a] *)
| Raise (e : exn)      (* raised [e] *)
| Blocked              (* waits in [recv] for ever *)
| OutOfFuel.           (* the bound on iterations is used up *)
Arguments Ret {A} a.
Arguments Raise {A} e.
Arguments Blocked {A}.
Arguments OutOfFuel {A}.

Definition M (A : Type) : Type := world -> run A * world.

Definition ret {A} (a : A) : M A := fun w => (Ret a, w).

Definition bind {A B} (c : M A) (k : A -> M B) : M B :=
  fun w =>
    match c w with
    | (Ret a, w') => k a w'
    | (Raise e, w') => (Raise e, w')
    | (Blocked, w') => (Blocked, w')
    | (OutOfFuel, w') => (OutOfFuel, w')
    end.

Declare Scope py_scope.
Delimit Scope py_scope with py.
Notation "x <- c ;; k" := (bind c (fun x => k))
  (at level 61, c at next level, right associativity) : py_scope.
Notation "c ;; k" := (bind c (fun _ => k))
  (at level 61, right associativity) : py_scope.
Open Scope py_scope.

(** The value of an expression, inside the monad. *)
Definition eval {A} (r : result A) : M A :=
  fun w => match r with Ok a => (Ret a, w) | Err e => (Raise e, w) end.

Definition log (ev : event) : M unit := fun w => (Ret tt, emit ev w).

(** [while True: body], where the body says [None] to go round again and
    [Some r] to [return r]. *)
Fixpoint while_true {R} (fuel : nat) (body : M (option R)) : M R :=
  match fuel with
  | O => fun w => (OutOfFuel, w)
  | S fuel' =>
      r <- body ;;
      match r with
      | Some v => ret v
      | None => while_true fuel' body
      end
  end.

(** *** The web socket *)

(** The fate of the next call: the fault at the head of the list, if any. *)
Definition next_fault (faults : list (option exn)) : option exn :=
  match faults with
  | Some e :: _ => Some e
  | _ => None
  end.

(** [WebSocket(url, headers)] *)
Definition WebSocket (url : string) (headers : list (string * string)) : M sock :=
  fun w =>
    match next_fault (connect_faults w) with
    | Some e =>
        (Raise e,
         World (inbox w) (send_faults w) (tl (connect_faults w)) (next_sock w)
               (trace w ++ [EvConnectFailed url headers e]))
    | None =>
        (Ret (next_sock w),
         World (inbox w) (send_faults w) (tl (connect_faults w))
               (S (next_sock w))
               (trace w ++ [EvConnect (next_sock w) url headers]))
    end.

(** [ws.send(frame)] *)
Definition ws_send (ws : sock) (frame : string) : M unit :=
  fun w =>
    match next_fault (send_faults w) with
    | Some e =>
        (Raise e,
         World (inbox w) (tl (send_faults w)) (connect_faults w) (next_sock w)
               (trace w ++ [EvSendFailed ws frame e]))
    | None =>
        (Ret tt,
         World (inbox w) (tl (send_faults w)) (connect_faults w) (next_sock w)
               (trace w ++ [EvSend ws frame]))
    end.

(** [ws.recv()] *)
Definition ws_recv (ws : sock) : M string :=
  fun w =>
    match inbox w with
    | Frame text :: rest =>
        (Ret text,
         World rest (send_faults w) (connect_faults w) (next_sock w)
               (trace w ++ [EvRecv ws text]))
    | Broken e :: rest =>
        (Raise e,
         World rest (send_faults w) (connect_faults w) (next_sock w)
               (trace w ++ [EvRecvFailed ws e]))
    | [] => (Blocked, w)
    end.

(** [with ws: body]: the socket is closed when the body returns or raises,
    and not while it waits. *)
Definition with_ {A} (ws : sock) (body : M A) : M A :=
  fun w =>
    match body w with
    | (Ret a, w') => (Ret a, emit (EvClose ws) w')
    | (Raise e, w') => (Raise e, emit (EvClose ws) w')
    | (Blocked, w') => (Blocked, w')
    | (OutOfFuel, w') => (OutOfFuel, w')
    end.

(** [self.to_screen(message)], [self.write_debug(data)], [time.sleep(n)] *)
Definition to_screen (message : string) : M unit := log (EvToScreen message).
Definition write_debug (data : json) : M unit := log (EvWriteDebug data).
Definition sleep (seconds : nat) : M unit := log (EvSleep seconds).

(** ** Text *)

(** The double quote, and a quoted word. *)
Definition dquote : string := String "034"%char "".
Definition quoted (s : string) : string := dquote ++ s ++ dquote.

(** [r'{"type":"pong"}'] and [r'{"type":"keepSeat"}'] *)
Definition pong_frame : string :=
  "{" ++ quoted "type" ++ ":" ++ quoted "pong" ++ "}".
Definition keepSeat_frame : string :=
  "{" ++ quoted "type" ++ ":" ++ quoted "keepSeat" ++ "}".

(** [str_or_none(v) or '']; [str_or_none], of yt_dlp/utils.py, gives
    [str(v)], and [None] for [None]. *)
Definition str_or_empty (v : option string) : string :=
  match v with Some s => s | None => "" end.

(** [d.get(k, default)] on an optional entry. *)
Definition get_default (v : option string) (default : string) : string :=
  match v with Some s => s | None => default end.

(** [recv[:100] + '...'] when [len(recv) > 100], else [recv]. *)
Definition preview (recv : string) : string :=
  if (100 <? String.length recv)%nat then substring 0 100 recv ++ "..." else recv.

(** ** The downloader *)

(** What [communicate_ws] returns: [True], or a [DownloadError] object. *)
Inductive ws_return : Type :=
| ReturnTrue
| ReturnDownloadError (message : json).

(** [ret is True] *)
Definition is_True (r : ws_return) : bool :=
  match r with ReturnTrue => true | ReturnDownloadError _ => false end.

Section NiconicoLiveFD.

Context {J : JsonModule}.

(** [info_dict], [self.ydl.params.get('verbose', False)],
    [std_headers['User-Agent']], whether [WebSocket] is there, and the
    result of [FFmpegFD.download]. *)
Variable info : info_dict.
Variable verbose : bool.
Variable user_agent : string.
Variable WebSocket_available : bool.
Variable ffmpeg_download : string -> info_dict -> result bool.

Definition video_id : string := Info.video_id info.
Definition ws_url : string := Info.url info.
Definition ws_extractor : sock := Info.ws info.
Definition ws_origin_host : string := Info.origin info.
Definition cookies : option string := Info.cookies info.
Definition live_quality : string := get_default (Info.live_quality info) "high".
Definition live_latency : string := get_default (Info.live_latency info) "high".

(** [new_info_dict]: a copy with ['protocol': 'live_ffmpeg']. *)
Definition new_info_dict : info_dict :=
  Info.Dict (Info.video_id info) (Info.url info) (Info.ws info)
            (Info.origin info) (Info.cookies info) (Info.live_quality info)
            (Info.live_latency info) "live_ffmpeg".

Definition ws_headers : list (string * string) :=
  [ ("Cookie", str_or_empty cookies);
    ("Origin", "https://" ++ ws_origin_host);
    ("Accept", "*/*");
    ("User-Agent", user_agent) ].

(** The object given to [json.dumps] before the session is resumed. *)
Definition startWatching : json :=
  JDict [
    ("type", JString "startWatching");
    ("data", JDict [
       ("stream", JDict [
          ("quality", JString live_quality);
          ("protocol", JString "hls+fmp4");
          ("latency", JString live_latency);
          ("chasePlay", JBool false) ]);
       ("room", JDict [
          ("protocol", JString "webSocket");
          ("commentable", JBool true) ]);
       ("reconnect", JBool true) ]) ].

(** Lines 72 to 88: what the loop does with the frame [recv] once it is
    decoded to [data].  [None] goes round again, [Some r] returns [r]. *)
Definition dispatch (ws : sock) (recv : string) (data : json)
    : M (option ws_return) :=
  if negb (truthy data) || negb (isinstance_dict data) then ret None
  else
    ty <- eval (py_get data "type") ;;
    if eq_str ty "ping" then
      ws_send ws pong_frame ;;
      ws_send ws keepSeat_frame ;;
      ret None
    else if eq_str ty "disconnect" then
      write_debug data ;;
      ret (Some ReturnTrue)
    else if eq_str ty "error" then
      write_debug data ;;
      message <- eval (try_get data body_code isinstance_str) ;;
      ret (Some (ReturnDownloadError (py_or message (JString recv))))
    else if verbose then
      to_screen ("[debug] Server said: " ++ preview recv) ;;
      ret None
    else ret None.

(** Lines 68 to 88: one pass through the body of [while True]. *)
Definition on_frame (ws : sock) : M (option ws_return) :=
  recv <- ws_recv ws ;;
  if (recv =? "") then ret None
  else
    data <- eval (json_loads recv) ;;
    dispatch ws recv data.

(** Lines 39 to 65: the socket of the session. *)
Definition open_ws (reconnect : bool) : M sock :=
  if reconnect then
    ws <- WebSocket ws_url ws_headers ;;
    (if verbose then to_screen "[debug] Sending startWatching request"
     else ret tt) ;;
    ws_send ws (json_dumps startWatching) ;;
    ret ws
  else ret ws_extractor.

(** Lines 66 to 88: the [with ws:] block and its loop. *)
Definition receive_loop (fuel : nat) (ws : sock) : M ws_return :=
  with_ ws (while_true fuel (on_frame ws)).

Definition communicate_ws (fuel : nat) (reconnect : bool) : M ws_return :=
  ws <- open_ws reconnect ;;
  receive_loop fuel ws.

Definition connection_error_message (e : exn) : string :=
  "[niconico:live] " ++ video_id
    ++ ": Connection error occured, reconnecting after 10 seconds: "
    ++ exn_message e.

(** [ws_main]: [sessions] bounds the passes of its loop that are followed,
    [fuel] the frames followed in one session.  The [finally] clause sets
    [reconnect] on every pass. *)
Fixpoint ws_main (sessions fuel : nat) (reconnect : bool) : M unit :=
  match sessions with
  | O => fun w => (OutOfFuel, w)
  | S sessions' =>
      fun w =>
        match communicate_ws fuel reconnect w with
        | (Ret r, w') =>
            if is_True r then (Ret tt, w')
            else ws_main sessions' fuel true w'
        | (Raise e, w') =>
            (to_screen (connection_error_message e) ;;
             sleep 10 ;;
             ws_main sessions' fuel true) w'
        | (Blocked, w') => (Blocked, w')
        | (OutOfFuel, w') => (OutOfFuel, w')
        end
  end.

(** The main thread of [real_download]; the thread it starts runs
    [ws_main] from [reconnect = False]. *)
Definition real_download (filename : string) : M bool :=
  if negb WebSocket_available then
    eval (Err (Exn "DownloadError"
      "Install websockets or websocket_client package via pip, or install websockat program"))
  else
    log EvThreadStart ;;
    log (EvDownload filename new_info_dict) ;;
    eval (ffmpeg_download filename new_info_dict).

Definition thread_target (sessions fuel : nat) : M unit :=
  ws_main sessions fuel false.

End NiconicoLiveFD.

(** ** A decoder and an encoder for the examples

    [PyJson] follows [json.loads] and [json.dumps] (default arguments) on
    texts and values whose characters are below 256.  Outside that range
    ([\u] escapes above [00ff]) the decoder rejects the text, the wording of
    its [JSONDecodeError] messages is its own, and a float is written as
    some decimal literal of its value rather than as its shortest one.  It
    supplies the [JsonModule] of the closed examples; the theorems hold for
    any [JsonModule]. *)
Module PyJson.

Definition code (c : ascii) : nat := nat_of_ascii c.
Definition chr_is (c : ascii) (n : nat) : bool := (code c =? n)%nat.

Definition is_ws (c : ascii) : bool :=
  chr_is c 32 || chr_is c 9 || chr_is c 10 || chr_is c 13.
Definition is_digit (c : ascii) : bool :=
  (48 <=? code c)%nat && (code c <=? 57)%nat.

Definition decode_error (what : string) : exn := Exn "JSONDecodeError" what.

Fixpoint skip_ws (s : string) : string :=
  match s with
  | String c rest => if is_ws c then skip_ws rest else s
  | EmptyString => s
  end.

(** [prefix_rest p s]: what follows [p] in [s], when [s] starts with [p]. *)
Fixpoint prefix_rest (p s : string) : option string :=
  match p, s with
  | EmptyString, _ => Some s
  | String a p', String b s' => if Ascii.eqb a b then prefix_rest p' s' else None
  | String _ _, EmptyString => None
  end.

Definition hex_value (c : ascii) : option nat :=
  let n := code c in
  if is_digit c then Some (n - 48)
  else if (97 <=? n)%nat && (n <=? 102)%nat then Some (n - 87)
  else if (65 <=? n)%nat && (n <=? 70)%nat then Some (n - 55)
  else None.

Definition hex4 (a b c d : ascii) : option nat :=
  match hex_value a, hex_value b, hex_value c, hex_value d with
  | Some x, Some y, Some z, Some t => Some (((x * 16 + y) * 16 + z) * 16 + t)
  | _, _, _, _ => None
  end.

(** The characters of a string literal after its opening quote. *)
Fixpoint scan_string (s acc : string) : result (string * string) :=
  match s with
  | EmptyString => Err (decode_error "Unterminated string")
  | String c rest =>
      if chr_is c 34 then Ok (acc, rest)
      else if chr_is c 92 then
        match rest with
        | EmptyString => Err (decode_error "Unterminated string")
        | String e rest' =>
            let plain (ch : nat) :=
              scan_string rest' (acc ++ String (ascii_of_nat ch) "") in
            if chr_is e 34 then plain 34
            else if chr_is e 92 then plain 92
            else if chr_is e 47 then plain 47
            else if chr_is e 98 then plain 8
            else if chr_is e 102 then plain 12
            else if chr_is e 110 then plain 10
            else if chr_is e 114 then plain 13
            else if chr_is e 116 then plain 9
            else if chr_is e 117 then
              match rest' with
              | String h1 (String h2 (String h3 (String h4 rest''))) =>
                  match hex4 h1 h2 h3 h4 with
                  | Some n =>
                      if (n <? 256)%nat
                      then scan_string rest'' (acc ++ String (ascii_of_nat n) "")
                      else Err (decode_error "character above 00ff")
                  | None => Err (decode_error "Invalid \uXXXX escape")
                  end
              | _ => Err (decode_error "Invalid \uXXXX escape")
              end
            else Err (decode_error "Invalid \escape")
        end
      else if (code c <? 32)%nat then
        Err (decode_error "Invalid control character")
      else scan_string rest (acc ++ String c "")
  end.

(** The longest run of digits at the head of [s], and what follows. *)
Fixpoint take_digits (s : string) : string * string :=
  match s with
  | String c rest =>
      if is_digit c
      then let (ds, r) := take_digits rest in (String c ds, r)
      else (EmptyString, s)
  | EmptyString => (EmptyString, EmptyString)
  end.

Fixpoint digits_value (ds : string) (acc : Z) : Z :=
  match ds with
  | String c rest => digits_value rest (acc * 10 + Z.of_nat (code c - 48))%Z
  | EmptyString => acc
  end.

(** The integer part: [0], or a digit from 1 to 9 and more digits. *)
Definition take_int (s : string) : option (string * string) :=
  match s with
  | String c rest =>
      if chr_is c 48 then Some (String c "", rest)
      else if is_digit c then Some (take_digits s)
      else None
  | EmptyString => None
  end.

(** [.digits], when it is there. *)
Definition take_frac (s : string) : option (string * string) :=
  match s with
  | String c rest =>
      if chr_is c 46 then
        match take_digits rest with
        | (EmptyString, _) => None
        | (ds, r) => Some (ds, r)
        end
      else None
  | EmptyString => None
  end.

(** [e], a sign and digits, when it is there: the exponent. *)
Definition take_exp (s : string) : option (Z * string) :=
  match s with
  | String c rest =>
      if chr_is c 101 || chr_is c 69 then
        let (negative, rest') :=
          match rest with
          | String sg r =>
              if chr_is sg 45 then (true, r)
              else if chr_is sg 43 then (false, r)
              else (false, rest)
          | EmptyString => (false, rest)
          end in
        match take_digits rest' with
        | (EmptyString, _) => None
        | (ds, r) =>
            let v := digits_value ds 0 in
            Some (if negative then (- v)%Z else v, r)
        end
      else None
  | EmptyString => None
  end.

Definition scan_number (s : string) : result (json * string) :=
  let (negative, body) :=
    match s with
    | String c rest => if chr_is c 45 then (true, rest) else (false, s)
    | EmptyString => (false, s)
    end in
  let sign (z : Z) := if negative then (- z)%Z else z in
  match take_int body with
  | None => Err (decode_error "Expecting value")
  | Some (ints, r1) =>
      match take_frac r1, take_exp r1 with
      | None, None => Ok (JInt (sign (digits_value ints 0)), r1)
      | None, Some (x, r2) => Ok (JFloat (sign (digits_value ints 0)) x, r2)
      | Some (fr, r2), _ =>
          let m := sign (digits_value fr (digits_value ints 0)) in
          let places := Z.of_nat (String.length fr) in
          match take_exp r2 with
          | Some (x, r3) => Ok (JFloat m (x - places), r3)
          | None => Ok (JFloat m (- places), r2)
          end
      end
  end.

(** [d[k] = v] on the list of items. *)
Fixpoint dict_set (d : list (string * json)) (k : string) (v : json)
    : list (string * json) :=
  match d with
  | [] => [(k, v)]
  | (k', v') :: d' =>
      if (k' =? k) then (k, v) :: d' else (k', v') :: dict_set d' k v
  end.

Definition expecting (what : string) : result (json * string) :=
  Err (decode_error ("Expecting " ++ what)).

(** One value at the head of [s], and what follows it.  [scan_members]
    starts after the opening quote of a key, [scan_items] at an item. *)
Fixpoint scan_once (fuel : nat) (s : string) : result (json * string) :=
  match fuel with
  | O => Err (decode_error "nesting too deep")
  | S fuel' =>
      match s with
      | EmptyString => expecting "value"
      | String c rest =>
          if chr_is c 34 then
            match scan_string rest "" with
            | Ok (str, r) => Ok (JString str, r)
            | Err e => Err e
            end
          else if chr_is c 123 then
            match skip_ws rest with
            | String c2 r2 =>
                if chr_is c2 125 then Ok (JDict [], r2)
                else if chr_is c2 34 then scan_members fuel' [] r2
                else expecting "property name enclosed in double quotes"
            | EmptyString => expecting "property name enclosed in double quotes"
            end
          else if chr_is c 91 then
            match skip_ws rest with
            | String c2 r2 =>
                if chr_is c2 93 then Ok (JList [], r2)
                else scan_items fuel' [] (String c2 r2)
            | EmptyString => expecting "value"
            end
          else
            match prefix_rest "null" s, prefix_rest "true" s,
                  prefix_rest "false" s with
            | Some r, _, _ => Ok (JNull, r)
            | _, Some r, _ => Ok (JBool true, r)
            | _, _, Some r => Ok (JBool false, r)
            | None, None, None =>
                match scan_number s with
                | Ok n => Ok n
                | Err e =>
                    match prefix_rest "NaN" s, prefix_rest "Infinity" s,
                          prefix_rest "-Infinity" s with
                    | Some r, _, _ => Ok (JNaN, r)
                    | _, Some r, _ => Ok (JInfinity false, r)
                    | _, _, Some r => Ok (JInfinity true, r)
                    | None, None, None => Err e
                    end
                end
            end
      end
  end
with scan_members (fuel : nat) (d : list (string * json)) (s : string)
    : result (json * string) :=
  match fuel with
  | O => Err (decode_error "nesting too deep")
  | S fuel' =>
      match scan_string s "" with
      | Err e => Err e
      | Ok (key, r) =>
          match skip_ws r with
          | String c r1 =>
              if chr_is c 58 then
                match scan_once fuel' (skip_ws r1) with
                | Err e => Err e
                | Ok (v, r2) =>
                    let d' := dict_set d key v in
                    match skip_ws r2 with
                    | String c2 r3 =>
                        if chr_is c2 125 then Ok (JDict d', r3)
                        else if chr_is c2 44 then
                          match skip_ws r3 with
                          | String c3 r4 =>
                              if chr_is c3 34 then scan_members fuel' d' r4
                              else expecting "property name enclosed in double quotes"
                          | EmptyString =>
                              expecting "property name enclosed in double quotes"
                          end
                        else expecting "',' delimiter"
                    | EmptyString => expecting "',' delimiter"
                    end
                end
              else expecting "':' delimiter"
          | EmptyString => expecting "':' delimiter"
          end
      end
  end
with scan_items (fuel : nat) (acc : list json) (s : string)
    : result (json * string) :=
  match fuel with
  | O => Err (decode_error "nesting too deep")
  | S fuel' =>
      match scan_once fuel' s with
      | Err e => Err e
      | Ok (v, r) =>
          match skip_ws r with
          | String c r1 =>
              if chr_is c 93 then Ok (JList (acc ++ [v]), r1)
              else if chr_is c 44 then scan_items fuel' (acc ++ [v]) (skip_ws r1)
              else expecting "',' delimiter"
          | EmptyString => expecting "',' delimiter"
          end
      end
  end.

(** [json.loads(s)]: one value, white space around it, nothing else. *)
Definition loads (s : string) : result json :=
  match scan_once (S (String.length s)) (skip_ws s) with
  | Err e => Err e
  | Ok (v, r) =>
      match skip_ws r with
      | EmptyString => Ok v
      | String _ _ => Err (decode_error "Extra data")
      end
  end.

(** *** The encoder *)

Definition hex_digit (n : nat) : ascii :=
  if (n <? 10)%nat then ascii_of_nat (48 + n) else ascii_of_nat (87 + n).

Definition encode_char (c : ascii) : string :=
  let n := code c in
  let esc (e : string) := String (ascii_of_nat 92) e in
  if chr_is c 34 then esc dquote
  else if chr_is c 92 then esc (String (ascii_of_nat 92) "")
  else if chr_is c 10 then esc "n"
  else if chr_is c 13 then esc "r"
  else if chr_is c 9 then esc "t"
  else if chr_is c 12 then esc "f"
  else if chr_is c 8 then esc "b"
  else if (n <? 32)%nat || (126 <? n)%nat then
    esc ("u00" ++ String (hex_digit (n / 16)) (String (hex_digit (n mod 16)) ""))
  else String c "".

Fixpoint encode_chars (s : string) : string :=
  match s with
  | String c rest => encode_char c ++ encode_chars rest
  | EmptyString => EmptyString
  end.

Definition encode_str (s : string) : string :=
  dquote ++ encode_chars s ++ dquote.

Definition decimal (n : Z) : string := NilZero.string_of_int (Z.to_int n).

(** [json.dumps(v)]: items separated by [", "], a key from its value by
    [": "]. *)
Fixpoint dumps (v : json) : string :=
  match v with
  | JNull => "null"
  | JBool b => if b then "true" else "false"
  | JInt n => decimal n
  | JFloat m e => decimal m ++ "e" ++ decimal e
  | JNaN => "NaN"
  | JInfinity negative => if negative then "-Infinity" else "Infinity"
  | JString s => encode_str s
  | JList items =>
      "[" ++
      (fix go (l : list json) : string :=
         match l with
         | [] => ""
         | [x] => dumps x
         | x :: l' => dumps x ++ ", " ++ go l'
         end) items
      ++ "]"
  | JDict members =>
      "{" ++
      (fix go (l : list (string * json)) : string :=
         match l with
         | [] => ""
         | [(k, x)] => encode_str k ++ ": " ++ dumps x
         | (k, x) :: l' => encode_str k ++ ": " ++ dumps x ++ ", " ++ go l'
         end) members
      ++ "}"
  end.

#[export] Instance python_json : JsonModule :=
  {| json_loads := loads; json_dumps := dumps |}.

End PyJson.

(** ** Vocabulary of the properties *)

(** *** Worlds after a step *)

(** The world just after [ws.recv()] has returned the frame [recv], with
    [rest] still to come. *)
Definition after_recv (ws : sock) (recv : string) (rest : list arrival)
    (w : world) : world :=
  World rest (send_faults w) (connect_faults w) (next_sock w)
        (trace w ++ [EvRecv ws recv]).

(** The world after [ws.send(frame)] has gone through, or has failed. *)
Definition sent (ws : sock) (frame : string) (w : world) : world :=
  World (inbox w) (tl (send_faults w)) (connect_faults w) (next_sock w)
        (trace w ++ [EvSend ws frame]).

Definition send_failed (ws : sock) (frame : string) (e : exn) (w : world)
    : world :=
  World (inbox w) (tl (send_faults w)) (connect_faults w) (next_sock w)
        (trace w ++ [EvSendFailed ws frame e]).

(** The world after [WebSocket(url, headers)] has made the connection. *)
Definition connected (url : string) (headers : list (string * string))
    (w : world) : world :=
  World (inbox w) (send_faults w) (tl (connect_faults w)) (S (next_sock w))
        (trace w ++ [EvConnect (next_sock w) url headers]).

(** A world in which nothing has happened yet. *)
Definition fresh_world (inbox : list arrival)
    (send_faults connect_faults : list (option exn)) (first_sock : sock)
    : world :=
  World inbox send_faults connect_faults first_sock [].

(** *** Events and traces *)

(** What a computation adds to the trace of the world it starts in. *)
Definition events_of {A : Type} (c : M A) (w : world) : list event :=
  skipn (List.length (trace w)) (trace (snd (c w))).

(** [emits P c]: wherever [c] starts, the trace it leaves is the one it
    found and then events that satisfy [P]. *)
Definition emits {A : Type} (P : list event -> Prop) (c : M A) : Prop :=
  forall w, exists evs, trace (snd (c w)) = (trace w ++ evs)%list /\ P evs.

(** The computation came to an end: it returned or raised. *)
Definition finished {A : Type} (r : run A) : bool :=
  match r with
  | Ret _ | Raise _ => true
  | Blocked | OutOfFuel => false
  end.

Definition count_if (p : event -> bool) (t : list event) : nat :=
  List.length (List.filter p t).

Definition is_download (ev : event) : bool :=
  match ev with EvDownload _ _ => true | _ => false end.

Definition is_connect (ev : event) : bool :=
  match ev with EvConnect _ _ _ => true | _ => false end.

Definition is_close (ev : event) : bool :=
  match ev with EvClose _ => true | _ => false end.

Definition is_sleep (ev : event) : bool :=
  match ev with EvSleep _ => true | _ => false end.

(** An event that opens no socket and closes none. *)
Definition inert (ev : event) : bool := negb (is_connect ev) && negb (is_close ev).

(** The sends, done or failed, of the frame [frame]. *)
Definition is_send_of (frame : string) (ev : event) : bool :=
  match ev with
  | EvSend _ f => (f =? frame)
  | EvSendFailed _ f _ => (f =? frame)
  | _ => false
  end.

(** The failed sends of the frame [frame]. *)
Definition is_failed_send_of (frame : string) (ev : event) : bool :=
  match ev with
  | EvSendFailed _ f _ => (f =? frame)
  | _ => false
  end.

(** [s] starts with [p]. *)
Fixpoint starts_with (p s : string) : bool :=
  match p, s with
  | EmptyString, _ => true
  | String a p', String b s' => Ascii.eqb a b && starts_with p' s'
  | String _ _, EmptyString => false
  end.

(** The lines [to_screen] prints for frames it only shows. *)
Definition is_server_said (ev : event) : bool :=
  match ev with
  | EvToScreen message => starts_with "[debug] Server said: " message
  | _ => false
  end.

(** The events a pass of the loop on the socket [ws] can add: its [recv],
    the two answers to a ping, and what it prints. *)
Definition loop_event (ws : sock) (ev : event) : bool :=
  match ev with
  | EvRecv s _ | EvRecvFailed s _ => (s =? ws)%nat
  | EvSend s f | EvSendFailed s f _ =>
      (s =? ws)%nat && ((f =? pong_frame) || (f =? keepSeat_frame))
  | EvWriteDebug _ | EvToScreen _ => true
  | _ => false
  end.

(** *** Frames that are only shown *)

(** A dict that is not empty and whose ['type'] is none of the three the
    session acts on. *)
Definition other_object (data : json) : bool :=
  match data with
  | JDict (item :: d) =>
      match dict_lookup (item :: d) "type" with
      | Some ty =>
          negb (eq_str ty "ping") && negb (eq_str ty "disconnect")
          && negb (eq_str ty "error")
      | None => true
      end
  | _ => false
  end.

(** The next thing in the inbox is a frame the session only shows: not
    empty, decoded to an [other_object], with [verbose] set. *)
Definition shows {J : JsonModule} (verbose : bool) (w : world) : bool :=
  verbose &&
  match inbox w with
  | Frame recv :: _ =>
      negb (recv =? "") &&
      match json_loads recv with
      | Ok data => other_object data
      | Err _ => false
      end
  | _ => false
  end.

(** *** Sockets and threads *)

(** The sockets open after the events [t], from the sockets [live]. *)
Fixpoint live_after (live : list sock) (t : list event) : list sock :=
  match t with
  | [] => live
  | EvConnect s _ _ :: t' => live_after (live ++ [s]) t'
  | EvClose s :: t' =>
      live_after (List.filter (fun x => negb (x =? s)%nat) live) t'
  | _ :: t' => live_after live t'
  end.

(** The greatest number of sockets open at once along [t]. *)
Fixpoint peak_open (live : list sock) (t : list event) : nat :=
  match t with
  | [] => List.length live
  | ev :: t' =>
      Nat.max (List.length live) (peak_open (live_after live [ev]) t')
  end.

(** The ways two threads' events can fall into one sequence. *)
Inductive interleave {A : Type} : list A -> list A -> list A -> Prop :=
| interleave_nil : interleave [] [] []
| interleave_left a l r t : interleave l r t -> interleave (a :: l) r (a :: t)
| interleave_right a l r t : interleave l r t -> interleave l (a :: r) (a :: t).

(** *** What is left of the script of the world *)

(** What the world still holds for the program: arrivals and faults. *)
Definition pending (w : world) : nat :=
  List.length (inbox w) + List.length (send_faults w)
  + List.length (connect_faults w).

(** [w'] holds no more than [w] of anything. *)
Definition no_more (w w' : world) : Prop :=
  List.length (inbox w') <= List.length (inbox w) /\
  List.length (send_faults w') <= List.length (send_faults w) /\
  List.length (connect_faults w') <= List.length (connect_faults w).

(** [tame c]: [c] adds nothing to the script and is no loop. *)
Definition tame {A : Type} (c : M A) : Prop :=
  forall w, no_more w (snd (c w)) /\ fst (c w) <> OutOfFuel.

(** *** Where a session stands

    [comes_to body n w m w']: the loop [while True: body], entered in the
    world [w] with [n] passes allowed, is about to start a pass in the world
    [w'] with [m] passes allowed. *)
Inductive comes_to {R : Type} (body : M (option R))
    : nat -> world -> nat -> world -> Prop :=
| comes_here n w : comes_to body n w n w
| comes_later n w w1 m w' :
    body w = (Ret None, w1) ->
    comes_to body n w1 m w' ->
    comes_to body (S n) w m w'.

Section Sessions.

Context {J : JsonModule}.
Variable info : info_dict.
Variable verbose : bool.
Variable user_agent : string.

(** In the session [communicate_ws(reconnect)] entered in the world [w0], on
    the socket [ws], a pass of the loop starts in the world [w] and receives
    the frame [recv], not empty, which [json.loads] decodes to [data]. *)
Definition receives (fuel : nat) (reconnect : bool) (w0 : world) (ws : sock)
    (m : nat) (w : world) (recv : string) (rest : list arrival) (data : json)
    : Prop :=
  exists w1,
    open_ws info verbose user_agent reconnect w0 = (Ret ws, w1) /\
    comes_to (on_frame verbose ws) fuel w1 (S m) w /\
    inbox w = Frame recv :: rest /\
    recv <> "" /\
    json_loads recv = Ok data.

(** The same, for a frame [json.loads] raises [e] on. *)
Definition receives_undecodable (fuel : nat) (reconnect : bool) (w0 : world)
    (ws : sock) (m : nat) (w : world) (recv : string) (rest : list arrival)
    (e : exn) : Prop :=
  exists w1,
    open_ws info verbose user_agent reconnect w0 = (Ret ws, w1) /\
    comes_to (on_frame verbose ws) fuel w1 (S m) w /\
    inbox w = Frame recv :: rest /\
    recv <> "" /\
    json_loads recv = Err e.

(** The world in which [ws_main] goes on after a session that raised [e]. *)
Definition after_handler (e : exn) (w : world) : world :=
  emit (EvSleep 10) (emit (EvToScreen (connection_error_message info e)) w).

(** What [open_ws(True)] adds to the trace when the connection is made. *)
Definition fresh_open_events (w : world) : list event :=
  [EvConnect (next_sock w) (ws_url info) (ws_headers info user_agent)]
  ++ (if verbose then [EvToScreen "[debug] Sending startWatching request"]
      else [])
  ++ [match next_fault (send_faults w) with
      | None => EvSend (next_sock w) (json_dumps (startWatching info))
      | Some e => EvSendFailed (next_sock w) (json_dumps (startWatching info)) e
      end].

End Sessions.

(** ** Frames and worlds of the examples *)

Definition member (k v : string) : string := quoted k ++ ":" ++ v.

Definition ping_text : string := "{" ++ member "type" (quoted "ping") ++ "}".
Definition ping_data : json := JDict [("type", JString "ping")].

Definition disconnect_text : string :=
  "{" ++ member "type" (quoted "disconnect") ++ "}".
Definition disconnect_data : json := JDict [("type", JString "disconnect")].

Definition stream_text : string :=
  "{" ++ member "type" (quoted "stream") ++ "}".

Definition error_text (code : string) : string :=
  "{" ++ member "type" (quoted "error") ++ ","
      ++ member "body" ("{" ++ member "code" code ++ "}") ++ "}".
Definition error_data (code : json) : json :=
  JDict [("type", JString "error"); ("body", JDict [("code", code)])].

Definition error_without_code_text : string :=
  "{" ++ member "type" (quoted "error") ++ ","
      ++ member "body" "{}" ++ "}".
Definition error_without_code_data : json :=
  JDict [("type", JString "error"); ("body", JDict [])].

(** An error frame whose code is a number, longer than 100 characters. *)
Definition padding : string := String.concat "" (repeat "x" 120).

Definition long_error_text : string :=
  "{" ++ member "type" (quoted "error") ++ ","
      ++ member "body" ("{" ++ member "code" "404" ++ "}") ++ ","
      ++ member "pad" (quoted padding) ++ "}".
Definition long_error_data : json :=
  JDict [("type", JString "error");
         ("body", JDict [("code", JInt 404)]);
         ("pad", JString padding)].

Definition connection_reset : exn := Exn "ConnectionResetError" "reset by peer".

Definition decode_failure : exn :=
  PyJson.decode_error "Expecting property name enclosed in double quotes".

(** The extractor's socket is 0; new sockets count from 1. *)
Definition sample_info : info_dict :=
  Info.Dict "lv1" "wss://a.live2.nicovideo.jp/wsapi" 0 "live.nicovideo.jp"
            (Some "user_session=abc") None (Some "low") "niconico_live".

Definition agent : string := "Mozilla/5.0".

Definition sample_world (inbox : list arrival) : world :=
  fresh_world inbox [] [] 1.

(** A ping and then a disconnect; the world after the ping is answered. *)
Definition ping_then_disconnect : world :=
  sample_world [Frame ping_text; Frame disconnect_text].

Definition after_ping : world :=
  World [Frame disconnect_text] [] [] 1
        [EvRecv 0 ping_text; EvSend 0 pong_frame; EvSend 0 keepSeat_frame].

(** A ping whose answer cannot be sent. *)
Definition ping_unanswerable : world :=
  fresh_world [Frame ping_text] [Some connection_reset] [] 1.

(** A frame that is no JSON, and then a disconnect. *)
Definition garbage_then_disconnect : world :=
  sample_world [Frame "{"; Frame disconnect_text].

(** A frame that is JSON but no object, and then a disconnect. *)
Definition number_then_disconnect : world :=
  sample_world [Frame "0"; Frame disconnect_text].

(** An error frame and then, on the next socket, a disconnect. *)
Definition error_then_disconnect : world :=
  sample_world [Frame (error_text (quoted "CONNECT_ERROR")); Frame disconnect_text].

(** A broken transport and then, on the next socket, a disconnect. *)
Definition broken_then_disconnect : world :=
  sample_world [Broken connection_reset; Frame disconnect_text].

(** A broken transport, then a socket on which the start frame cannot be
    sent, then a socket that works. *)
Definition start_send_fails : world :=
  fresh_world [Broken connection_reset] [Some connection_reset] [] 1.

(** ** Further vocabulary of the control channel *)

(** An arrival the loop passes over: an empty frame, or a frame decoded to
    a value that is false or is no dict. *)
Definition silent {J : JsonModule} (recv : string) : bool :=
  (recv =? "") ||
  match json_loads recv with
  | Ok data => negb (truthy data) || negb (isinstance_dict data)
  | Err _ => false
  end.

(** The socket an event sends or receives on. *)
Definition used_socket (ev : event) : option sock :=
  match ev with
  | EvSend s _ | EvSendFailed s _ _ | EvRecv s _ | EvRecvFailed s _ => Some s
  | _ => None
  end.

(** Along [t], from the open sockets [live], every send and every receive
    is on a socket that is open at that time. *)
Fixpoint well_used (live : list sock) (t : list event) : Prop :=
  match t with
  | [] => True
  | ev :: t' =>
      match used_socket ev with
      | Some s => In s live
      | None => True
      end /\ well_used (live_after live [ev]) t'
  end.

(** The connections [ev] makes or tries go to [url] with [headers]. *)
Definition connects_to (url : string) (headers : list (string * string))
    (ev : event) : Prop :=
  match ev with
  | EvConnect _ u h | EvConnectFailed u h _ => u = url /\ h = headers
  | _ => True
  end.

(** What [ev] sends or tries to send is one of the frames [allowed]. *)
Definition says_only (allowed : list string) (ev : event) : Prop :=
  match ev with
  | EvSend _ frame | EvSendFailed _ frame _ => In frame allowed
  | _ => True
  end.

(** An event after which the session raises: a connection, a send or a
    receive that failed, or the arrival of a frame that is not empty and
    that [json.loads] rejects. *)
Definition failure {J : JsonModule} (ev : event) : bool :=
  match ev with
  | EvConnectFailed _ _ _ | EvSendFailed _ _ _ | EvRecvFailed _ _ => true
  | EvRecv _ recv =>
      negb (recv =? "")
      && match json_loads recv with Ok _ => false | Err _ => true end
  | _ => false
  end.

(** [c] only adds to the trace, and [Q] holds of its outcome and of what it
    adds, from every world. *)
Definition achieves {A} (c : M A) (Q : run A -> list event -> Prop) : Prop :=
  forall w, exists evs,
    trace (snd (c w)) = (trace w ++ evs)%list /\ Q (fst (c w)) evs.

(** Of a session or a part of one: it does not sleep, and it holds a
    failure exactly when it raises, and then one. *)
Definition settled {J : JsonModule} {A} (r : run A) (evs : list event)
    : Prop :=
  count_if is_sleep evs = 0 /\
  count_if failure evs = match r with Raise _ => 1 | _ => 0 end.

(** Of the supervisor: as many sleeps as failures, each of ten seconds. *)
Definition accounted {J : JsonModule} {A} (r : run A) (evs : list event)
    : Prop :=
  count_if is_sleep evs = count_if failure evs /\
  Forall (fun ev => is_sleep ev = true -> ev = EvSleep 10) evs.

(** * yt_dlp/update.py *)

(** ** Strings and tuples of Python *)

(** [s.split(sep)] for a separator of one character: the pieces between its
    occurrences, one piece when there is none. *)
Fixpoint split_on (sep : ascii) (s : string) : list string :=
  match s with
  | EmptyString => [EmptyString]
  | String c rest =>
      if Ascii.eqb c sep then EmptyString :: split_on sep rest
      else
        match split_on sep rest with
        | piece :: pieces => String c piece :: pieces
        | [] => [String c EmptyString]
        end
  end.

(** The characters below 256 at which [str.splitlines] breaks a line. *)
Definition is_line_break (c : ascii) : bool :=
  let n := nat_of_ascii c in
  (n =? 10)%nat || (n =? 13)%nat || (n =? 11)%nat || (n =? 12)%nat
  || (n =? 28)%nat || (n =? 29)%nat || (n =? 30)%nat || (n =? 133)%nat.

(** [s.splitlines()]: the lines without their breaks; a carriage return and
    the line feed after it are one break; no empty line after a last
    break. *)
Fixpoint splitlines_from (line : string) (s : string) : list string :=
  match s with
  | EmptyString =>
      match line with
      | EmptyString => []
      | _ => [line]
      end
  | String c rest =>
      if is_line_break c then
        line ::
        match rest with
        | String c' rest' =>
            if (nat_of_ascii c =? 13)%nat && (nat_of_ascii c' =? 10)%nat
            then splitlines_from EmptyString rest'
            else splitlines_from EmptyString rest
        | EmptyString => []
        end
      else splitlines_from (line ++ String c EmptyString) rest
  end.

Definition splitlines (s : string) : list string :=
  splitlines_from EmptyString s.

(** [needle in hay] for two strings. *)
Fixpoint contains (needle hay : string) : bool :=
  starts_with needle hay ||
  match hay with
  | EmptyString => false
  | String _ rest => contains needle rest
  end.

(** ['%d' % n] *)
Definition str_of_nat (n : nat) : string :=
  NilZero.string_of_uint (Nat.to_uint n).

(** [a >= b] on tuples of integers: the first place where they differ
    decides; a tuple is greater than its proper prefixes. *)
Fixpoint tuple_ge (a b : list Z) : bool :=
  match a, b with
  | _, [] => true
  | [], _ :: _ => false
  | x :: a', y :: b' =>
      if (x =? y)%Z then tuple_ge a' b' else (y <? x)%Z
  end.

(** [for x in v]: the items of a list, the keys of a dict, the characters
    of a string; nothing else here can be iterated. *)
Definition py_iter (v : json) : result (list json) :=
  match v with
  | JList items => Ok items
  | JDict members => Ok (map (fun kv => JString (fst kv)) members)
  | JString s =>
      Ok (map (fun c => JString (String c EmptyString)) (list_ascii_of_string s))
  | _ => Err (Exn "TypeError" "object is not iterable")
  end.

(** [a == b] for two values that are strings or [None]. *)
Definition option_string_eqb (a b : option string) : bool :=
  match a, b with
  | Some x, Some y => (x =? y)
  | None, None => true
  | _, _ => false
  end.
Declare Scope option_string_scope.
Delimit Scope option_string_scope with option_string.
Infix "=?" := option_string_eqb (at level 70) : option_string_scope.

(** ** The updater *)

Declare Scope update_scope.
Delimit Scope update_scope with update.

Module Update.

(** What the updater needs of the interpreter and of the program. *)
Record platform : Type := Platform {
  loader_is_zipimporter : bool;  (* isinstance(globals().get('__loader__'), zipimporter) *)
  frozen : bool;                 (* hasattr(sys, 'frozen') *)
  python_version : nat * nat;    (* sys.version_info[:2] *)
  getwindowsversion : result nat;  (* sys.getwindowsversion()[0] *)
  executable : string;           (* sys.executable *)
  argv0 : string;                (* sys.argv[0] *)
  version : string;              (* __version__ *)
  variant : string
}.

(** Library functions the updater calls: [int], the class test of an
    [except] clause, [hashlib.sha256(b).hexdigest()], [compat_realpath] and
    [os.path.dirname]. *)
Record library : Type := Library {
  int : string -> result Z;
  isinstance_exn : exn -> string -> bool;
  sha256_hexdigest : string -> string;
  compat_realpath : string -> string;
  dirname : string -> string
}.

(** The outcome of each call to the outside, by the number of calls made
    before it. *)
Record outside : Type := Outside {
  opener_read : nat -> string -> result string;  (* _opener.open(url).read() *)
  os_access_W : nat -> string -> bool;
  os_path_exists : nat -> string -> bool;
  os_remove : nat -> string -> option exn;
  os_rename : nat -> string -> string -> option exn;
  write_file : nat -> string -> string -> option exn;
  file_sha256 : nat -> string -> result string;
  popen : nat -> string -> option exn
}.

(** What the updater does, in order; [done] tells whether the call went
    through. *)
Inductive event : Type :=
| ToScreen (message : string)
| ReportError (message : string) (tb : option string)
| ReportWarning (message : string)
| Fetch (url : string) (got : result string)
| Access (path : string) (allowed : bool)
| PathExists (path : string) (there : bool)
| Remove (path : string) (done : bool)
| Rename (src dst : string) (done : bool)
| Write (path content : string) (done : bool)
| HashFile (path : string) (got : result string)
| Popen (command : string) (done : bool).

Record state : Type := State { calls : nat; log : list event }.

Definition U (A : Type) : Type := state -> result A * state.

Definition ret {A} (a : A) : U A := fun st => (Ok a, st).
Definition raise {A} (e : exn) : U A := fun st => (Err e, st).

Definition bind {A B} (c : U A) (k : A -> U B) : U B :=
  fun st =>
    match c st with
    | (Ok a, st') => k a st'
    | (Err e, st') => (Err e, st')
    end.

(** [try: c  except: handler], the handler seeing every exception. *)
Definition try_ {A} (c : U A) (handler : exn -> U A) : U A :=
  fun st =>
    match c st with
    | (Ok a, st') => (Ok a, st')
    | (Err e, st') => handler e st'
    end.

Definition eval {A} (r : result A) : U A := fun st => (r, st).

Definition note (ev : event) : U unit :=
  fun st => (Ok tt, State (calls st) (log st ++ [ev])).

(** A call to the outside: it counts, and it is noted. *)
Definition call {A} (r : nat -> A) (ev : A -> event) : U A :=
  fun st =>
    let a := r (calls st) in
    (Ok a, State (S (calls st)) (log st ++ [ev a])).

Definition fallible (r : nat -> option exn) (ev : bool -> event) : U unit :=
  fun st =>
    match r (calls st) with
    | None => (Ok tt, State (S (calls st)) (log st ++ [ev true]))
    | Some e => (Err e, State (S (calls st)) (log st ++ [ev false]))
    end.

Notation "x <- c ;; k" := (bind c (fun x => k))
  (at level 61, c at next level, right associativity) : update_scope.
Notation "c ;; k" := (bind c (fun _ => k))
  (at level 61, right associativity) : update_scope.
Local Open Scope update_scope.

(** What [run_update] returns: [None], or [True] to end the program. *)
Inductive returned : Type := ReturnedNone | ReturnedTrue.

(** Where a block of [run_update] leaves off: it goes on with a value, or
    the function returns. *)
Inductive flow (A : Type) : Type :=
| Go (a : A)
| Return (r : returned).
Arguments Go {A} a.
Arguments Return {A} r.

Definition and_then {A B} (c : U (flow A)) (k : A -> U (flow B))
    : U (flow B) :=
  x <- c ;;
  match x with
  | Go a => k a
  | Return r => ret (Return r)
  end.

(** The end of the function: falling off it returns [None]. *)
Definition finish (c : U (flow unit)) : U returned :=
  x <- c ;;
  match x with
  | Go _ => ret ReturnedNone
  | Return r => ret r
  end.

(** [if s:] for a string that may be [None]. *)
Definition some_text (s : option string) : bool :=
  match s with
  | Some (String _ _) => true
  | _ => false
  end.

Notation "x <~ c ;; k" := (and_then c (fun x => k))
  (at level 61, c at next level, right associativity) : update_scope.

(** [version_labels] *)
Definition version_labels : list (string * string) :=
  [ ("zip_3", ""); ("exe_red", "-red.exe"); ("exe_white", "-white.exe") ].

Fixpoint labels_lookup (table : list (string * string)) (key : string)
    : result string :=
  match table with
  | [] => Err (Exn "KeyError" key)
  | (k, v) :: table' => if (k =? key) then Ok v else labels_lookup table' key
  end.

Section Code.

Context {J : JsonModule}.
Variable P : platform.
Variable L : library.
Variable O : outside.

(** The methods of [ydl]. *)
Definition to_screen (message : string) : U unit := note (ToScreen message).
Definition ydl_report_error (message : string) (tb : option string) : U unit :=
  note (ReportError message tb).
Definition report_warning (message : string) : U unit :=
  note (ReportWarning message).

(** [ydl._opener.open(url).read()], decoded or not. *)
Definition fetch (url : string) : U string :=
  r <- call (fun n => opener_read O n url) (Fetch url) ;;
  eval r.

(** Lines 77 to 80. *)
Definition report_error (msg : string) (network expected : bool)
    (delim : string) : U unit :=
  let msg :=
    if network
    then msg ++ delim
         ++ " Visit  https://github.com/ytdl-patched/ytdl-patched/releases/latest"
    else msg in
  ydl_report_error msg (if network || expected then Some "" else None).

(** Lines 82 to 89. *)
Definition calc_sha256sum (path : string) : U string :=
  r <- call (fun n => file_sha256 O n path) (HashFile path) ;;
  eval r.

(** Lines 65 to 67: the first release whose ['prerelease'] is true. *)
Fixpoint first_prerelease (releases : list json) : result (option json) :=
  match releases with
  | [] => Ok None
  | release :: rest =>
      match py_get release "prerelease" with
      | Err e => Err e
      | Ok p =>
          if truthy p then Ok (Some release) else first_prerelease rest
      end
  end.

Definition JSON_URL (page_num : nat) : string :=
  "https://api.github.com/repos/ytdl-patched/ytdl-patched/releases?page="
  ++ str_of_nat page_num.

(** Lines 62 to 68, for the pages still to try. *)
Fixpoint get_version_info_from (pages : list nat) : U json :=
  match pages with
  | [] => raise (Exn "Exception" "can't find pre-release.")
  | page_num :: pages' =>
      text <- fetch (JSON_URL page_num) ;;
      releases <- eval (json_loads text) ;;
      items <- eval (py_iter releases) ;;
      found <- eval (first_prerelease items) ;;
      match found with
      | Some release => ret release
      | None => get_version_info_from pages'
      end
  end.

(** [range(1, 4)] *)
Definition get_version_info : U json := get_version_info_from [1; 2; 3].

(** [tuple(map(int, parts))] *)
Fixpoint ints (parts : list string) : result (list Z) :=
  match parts with
  | [] => Ok []
  | p :: parts' =>
      match int L p with
      | Err e => Err e
      | Ok n =>
          match ints parts' with
          | Err e => Err e
          | Ok ns => Ok (n :: ns)
          end
      end
  end.

(** Lines 117 and 118. *)
Definition version_tuple (version_str : string) : result (list Z) :=
  ints (split_on "." version_str).

(** [version_tuple] of a value that need not be a string. *)
Definition version_tuple_of (v : json) : result (list Z) :=
  match v with
  | JString s => version_tuple s
  | _ => Err (Exn "AttributeError" "object has no attribute 'split'")
  end.

(** The first item of [items] that [test] accepts, as [next(..., default)]
    finds it; a test that raises ends the search. *)
Fixpoint first_where (test : json -> result bool) (items : list json)
    : result (option json) :=
  match items with
  | [] => Ok None
  | i :: items' =>
      match test i with
      | Err e => Err e
      | Ok true => Ok (Some i)
      | Ok false => first_where test items'
      end
  end.

(** [i['name'] == name] *)
Definition name_is (name : string) (i : json) : result bool :=
  match py_getitem i "name" with
  | Ok v => Ok (eq_str v name)
  | Err e => Err e
  end.

(** [i['name'] in ('SHA2-256SUMS')]: the right side is a string. *)
Definition name_in_sums (i : json) : result bool :=
  match py_getitem i "name" with
  | Ok (JString s) => Ok (contains s "SHA2-256SUMS")
  | Ok _ => Err (Exn "TypeError" "'in <string>' requires string as left operand")
  | Err e => Err e
  end.

Definition assets (version_info : json) : result (list json) :=
  match py_getitem version_info "assets" with
  | Ok v => py_iter v
  | Err e => Err e
  end.

(** Lines 133 to 135. *)
Definition get_bin_info (version_info : json) (bin_or_exe version : string)
    : result json :=
  match labels_lookup version_labels (bin_or_exe ++ "_" ++ version) with
  | Err e => Err e
  | Ok label =>
      match assets version_info with
      | Err e => Err e
      | Ok items =>
          match first_where (name_is ("youtube-dl" ++ label)) items with
          | Err e => Err e
          | Ok (Some i) => Ok i
          | Ok None => Ok (JDict [])
          end
      end
  end.

(** Lines 145 and 146: the second piece of the first line whose first
    piece is [name]. *)
Fixpoint sums_lookup (lines : list string) (name : string)
    : result (option string) :=
  match lines with
  | [] => Ok None
  | line :: lines' =>
      match split_on ":" line with
      | first :: pieces =>
          if (first =? name) then
            match pieces with
            | second :: _ => Ok (Some second)
            | [] => Err (Exn "IndexError" "list index out of range")
            end
          else sums_lookup lines' name
      | [] => sums_lookup lines' name
      end
  end.

(** [opener.open(url)] for a value that need not be a string. *)
Definition open_url (url : json) : U string :=
  match url with
  | JString s => fetch s
  | _ => raise (Exn "AttributeError" "not a URL or a Request")
  end.

(** Lines 137 to 146. *)
Definition get_sha256sum (version_info : json) (bin_or_exe version : string)
    : U (option string) :=
  label <- eval (labels_lookup version_labels (bin_or_exe ++ "_" ++ version)) ;;
  items <- eval (assets version_info) ;;
  found <- eval (first_where name_in_sums items) ;;
  urlh <- eval (py_get (match found with Some i => i | None => JDict [] end)
                       "browser_download_url") ;;
  if negb (truthy urlh) then ret None
  else
    hash_data <- open_url urlh ;;
    eval (sums_lookup (splitlines hash_data) ("youtube-dl" ++ label)).

(** [except (IOError, OSError): return report_error(msg)] around a block:
    other exceptions go on up. *)
Definition except_OSError {A} (c : U (flow A)) (handler : U (flow A))
    : U (flow A) :=
  try_ c (fun e => if isinstance_exn L e "OSError" then handler else raise e).

(** [except (IOError, OSError, StopIteration)] *)
Definition except_OSError_StopIteration {A} (c : U (flow A))
    (handler : U (flow A)) : U (flow A) :=
  try_ c (fun e =>
            if isinstance_exn L e "OSError" || isinstance_exn L e "StopIteration"
            then handler else raise e).

(** [return report_error(...)] *)
Definition return_error {A} (msg : string) (network expected : bool)
    (delim : string) : U (flow A) :=
  report_error msg network expected delim ;;
  ret (Return ReturnedNone).

(** Lines 91 to 101: why the program cannot update itself, if it cannot. *)
Definition install_error : U (option string) :=
  if loader_is_zipimporter P then
    let (major, minor) := python_version P in
    if (major <? 3)%nat || ((major =? 3)%nat && (minor <? 6)%nat) then
      ret (Some ("This is the last release of yt-dlp for Python version "
                 ++ str_of_nat major ++ "." ++ str_of_nat minor
                 ++ "! Please update to Python 3.6 or above"))
    else ret None
  else if frozen P then
    major <- eval (getwindowsversion P) ;;
    if (major <? 6)%nat then
      ret (Some "This is the last release of yt-dlp for your version of Windows. Please update to Windows Vista or above")
    else ret None
  else
    ret (Some "It looks like you installed yt-dlp with a package manager, pip, setup.py or a tarball. Please use that to update").

(** Line 108. *)
Definition filename : string :=
  compat_realpath L (if frozen P then executable P else argv0 P).

(** What the later lines use of the earlier ones. *)
Record context : Type := Context_ {
  version_info : json;
  version_id : string
}.

(** Lines 91 to 125: up to the message that an update begins. *)
Definition preamble : U (flow context) :=
  err <- install_error ;;
  match err with
  | Some msg => return_error msg false true ";"
  | None =>
      current <- calc_sha256sum filename ;;
      to_screen ("Current Build Hash " ++ current) ;;
      info <- try_ (info <- get_version_info ;; ret (Some info))
                   (fun e => if isinstance_exn L e "Exception"
                             then ret None else raise e) ;;
      match info with
      | None =>
          return_error "can't obtain versions info. Please try again later "
                       true false "or"
      | Some info =>
          name <- eval (py_getitem info "name") ;;
          mine <- eval (version_tuple (version P)) ;;
          theirs <- eval (version_tuple_of name) ;;
          if tuple_ge mine theirs then
            to_screen ("ytdl-patched is up to date (" ++ version P ++ ")") ;;
            ret (Return ReturnedNone)
          else
            match name with
            | JString id =>
                to_screen ("Updating to version " ++ id ++ " ...") ;;
                ret (Go (Context_ info id))
            | _ => raise (Exn "TypeError" "can only concatenate str")
            end
      end
  end.

(** Lines 164 to 169 and 212 to 217: the body of the [try] that downloads. *)
Definition download (c : context) (bin_or_exe version : string)
    : U (flow string) :=
  asset <- eval (get_bin_info (version_info c) bin_or_exe version) ;;
  url <- eval (py_get asset "browser_download_url") ;;
  if negb (truthy url) then return_error "unable to fetch updates" true false ";"
  else
    newcontent <- open_url url ;;
    ret (Go newcontent).

(** Lines 152 to 207: the program is an executable. *)
Definition install_exe (c : context) : U (flow unit) :=
  let exe := filename in
  let directory := dirname L exe in
  allowed <- call (fun n => os_access_W O n directory) (Access directory) ;;
  if negb allowed then
    return_error ("no write permissions on " ++ directory) false true ";"
  else
    _ <~ except_OSError
           (there <- call (fun n => os_path_exists O n (filename ++ ".old"))
                          (PathExists (filename ++ ".old")) ;;
            (if there
             then fallible (fun n => os_remove O n (filename ++ ".old"))
                           (Remove (filename ++ ".old"))
             else ret tt) ;;
            ret (Go tt))
           (return_error "unable to remove the old version" false false ";") ;;
    newcontent <~ except_OSError_StopIteration
           (download c "exe" (variant P))
           (return_error "unable to download latest version" true false ";") ;;
    _ <~ except_OSError
           (fallible (fun n => write_file O n (exe ++ ".new") newcontent)
                     (Write (exe ++ ".new") newcontent) ;;
            ret (Go tt))
           (return_error "unable to write the new version" false false ";") ;;
    expected_sum <- get_sha256sum (version_info c) "exe" (variant P) ;;
    _ <~ (if negb (some_text expected_sum) then
            report_warning "no hash information found for the release" ;;
            ret (Go tt)
          else
            actual <- calc_sha256sum (exe ++ ".new") ;;
            if negb (Some actual =? expected_sum)%option_string then
              report_error "unable to verify the new executable" true false ";" ;;
              except_OSError
                (fallible (fun n => os_remove O n (exe ++ ".new"))
                          (Remove (exe ++ ".new")) ;;
                 ret (Go tt))
                (return_error "unable to remove corrupt download" false false ";")
            else ret (Go tt)) ;;
    _ <~ except_OSError
           (fallible (fun n => os_rename O n exe (exe ++ ".old"))
                     (Rename exe (exe ++ ".old")) ;;
            ret (Go tt))
           (return_error "unable to move current version" false false ";") ;;
    _ <~ except_OSError
           (fallible (fun n => os_rename O n (exe ++ ".new") exe)
                     (Rename (exe ++ ".new") exe) ;;
            ret (Go tt))
           (report_error "unable to overwrite current version" false false ";" ;;
            fallible (fun n => os_rename O n (exe ++ ".old") exe)
                     (Rename (exe ++ ".old") exe) ;;
            ret (Return ReturnedNone)) ;;
    except_OSError
      (let command :=
         "ping 127.0.0.1 -n 5 -w 1000 & del /F " ++ quoted (exe ++ ".old") in
       fallible (fun n => popen O n command) (Popen command) ;;
       to_screen ("Updated ytdl-patched to version " ++ version_id c) ;;
       ret (Return ReturnedTrue))
      (report_error "unable to delete old version" false false ";" ;;
       ret (Go tt)).

(** Lines 210 to 229: the program is a zip file. *)
Definition install_zip (c : context) : U (flow unit) :=
  newcontent <~ except_OSError_StopIteration
         (download c "zip" "3")
         (return_error "unable to download latest version" true false ";") ;;
  expected_sum <- get_sha256sum (version_info c) "zip" "3" ;;
  if some_text expected_sum
     && negb (Some (sha256_hexdigest L newcontent) =? expected_sum)%option_string
  then return_error "unable to verify the new zip" true false ";"
  else
    except_OSError
      (fallible (fun n => write_file O n filename newcontent)
                (Write filename newcontent) ;;
       ret (Go tt))
      (return_error "unable to overwrite current version" false false ";").

(** Lines 148 to 231: the installation, once a newer version is known. *)
Definition install (c : context) : U (flow unit) :=
  allowed <- call (fun n => os_access_W O n filename) (Access filename) ;;
  if negb allowed then
    return_error ("no write permissions on " ++ filename) false true ";"
  else
    _ <~ (if frozen P then install_exe c
          else if loader_is_zipimporter P then install_zip c
          else ret (Go tt)) ;;
    to_screen ("Updated ytdl-patched to version " ++ version_id c
               ++ "; Restart ytdl-patched to use the new version") ;;
    ret (Go tt).

(** Lines 71 to 231. *)
Definition run_update : U returned :=
  finish (c <~ preamble ;; install c).

End Code.

End Update.

(** ** Vocabulary of the updater *)

Section UpdaterVocabulary.

Import Update.

Context {J : JsonModule}.
Variable P : platform.
Variable L : library.
Variable O : outside.


(** [c] only adds to the log, and [Q] holds of its outcome and of what it
    adds, from every state. *)
Definition does {A} (c : U A) (Q : result A -> list event -> Prop) : Prop :=
  forall st, exists evs,
    log (snd (c st)) = (log st ++ evs)%list /\ Q (fst (c st)) evs.

(** Line 64 and the head of line 65: the releases a page gives, from what
    reading it gave. *)
Definition releases_of (got : result string) : result (list json) :=
  match got with
  | Err e => Err e
  | Ok text =>
      match json_loads text with
      | Err e => Err e
      | Ok releases => py_iter releases
      end
  end.

(** Lines 64 to 67 for one page. *)
Definition page_outcome (got : result string) : result (option json) :=
  match releases_of got with
  | Err e => Err e
  | Ok items => first_prerelease items
  end.



(** The events that change files or start a process. *)
Definition modifies (ev : event) : Prop :=
  match ev with
  | Remove _ _ | Rename _ _ _ | Write _ _ _ | Popen _ _ => True
  | _ => False
  end.

(** The message of line 125. *)
Definition announces (id : string) : event :=
  ToScreen ("Updating to version " ++ id ++ " ...").

End UpdaterVocabulary.

(** ** A sums file as it is written *)

Definition newline : string := String "010"%char EmptyString.

(** A string without a colon and without a line break. *)
Definition plain (s : string) : bool :=
  forallb (fun c => negb (is_line_break c) && negb (Ascii.eqb c ":"))
          (list_ascii_of_string s).

(** One line [name:hash] for each entry. *)
Fixpoint sums_text (entries : list (string * string)) : string :=
  match entries with
  | [] => EmptyString
  | (name, hash) :: entries' =>
      name ++ ":" ++ hash ++ newline ++ sums_text entries'
  end.

(** The hash of the first entry for [name]. *)
Fixpoint first_entry (entries : list (string * string)) (name : string)
    : option string :=
  match entries with
  | [] => None
  | (n, h) :: entries' => if (n =? name) then Some h else first_entry entries' name
  end.

(** ** Vocabulary of the installation *)

Section InstallVocabulary.

Import Update.

Variable exe : string.

(** The events that neither rename a file nor start a process. *)
Definition calm (ev : event) : Prop :=
  match ev with
  | Rename _ _ _ | Popen _ _ => False
  | _ => True
  end.

(** Along [t], which comes after the event [prev], every renaming of the
    new file onto [exe] comes directly after a renaming of [exe] to its
    [.old] name that went through. *)
Fixpoint backed_up (prev : option event) (t : list event) : Prop :=
  match t with
  | [] => True
  | ev :: t' =>
      (forall done, ev = Rename (exe ++ ".new") exe done ->
                    prev = Some (Rename exe (exe ++ ".old") true))
      /\ backed_up (Some ev) t'
  end.

(** The last four events of an update that asks the program to end. *)
Definition swap (id : string) : list event :=
  [ Rename exe (exe ++ ".old") true;
    Rename (exe ++ ".new") exe true;
    Popen ("ping 127.0.0.1 -n 5 -w 1000 & del /F " ++ quoted (exe ++ ".old")) true;
    ToScreen ("Updated ytdl-patched to version " ++ id) ].

(** [ev] is not the removal, done, of the new file. *)
Definition no_removal (ev : event) : Prop :=
  ev <> Remove (exe ++ ".new") true.

(** Along [t], every removal of the new file that went through is directly
    followed by a renaming of [exe] to its [.old] name, done or not. *)
Fixpoint goes_on (t : list event) : Prop :=
  match t with
  | [] => True
  | ev :: t' =>
      (ev = Remove (exe ++ ".new") true ->
       exists done rest, t' = Rename exe (exe ++ ".old") done :: rest)
      /\ goes_on t'
  end.

(** [ev] touches nothing but [exe], its [.old] and [.new] names and, to
    ask whether it can be written, [directory]. *)
Definition touches_only (directory : string) (ev : event) : Prop :=
  match ev with
  | Access path _ => path = exe \/ path = directory
  | PathExists path _ => path = exe ++ ".old"
  | HashFile path _ => path = exe \/ path = exe ++ ".new"
  | Remove path _ => path = exe ++ ".old" \/ path = exe ++ ".new"
  | Rename src dst _ =>
      (src = exe /\ dst = exe ++ ".old")
      \/ (src = exe ++ ".new" /\ dst = exe)
      \/ (src = exe ++ ".old" /\ dst = exe)
  | Write path _ _ => path = exe \/ path = exe ++ ".new"
  | Popen command _ =>
      command = "ping 127.0.0.1 -n 5 -w 1000 & del /F " ++ quoted (exe ++ ".old")
  | ToScreen _ | ReportError _ _ | ReportWarning _ | Fetch _ _ => True
  end.

(** The block went on or returned [None], or raised: it did not return
    [True]. *)
Definition not_True {A} (r : result (flow A)) : Prop :=
  r <> Ok (Return ReturnedTrue).

(** What was fetched for the sums allows [content] under [name]: no sums
    were fetched, or the sums fetched give no hash for [name], or the hash
    of [content]. *)
Definition allowed_by (sha256 : string -> string) (name content : string)
    (sums : list event) : Prop :=
  match sums with
  | [] => True
  | [Fetch _ (Ok hash_data)] =>
      exists s, sums_lookup (splitlines hash_data) name = Ok s /\
                (some_text s = true -> s = Some (sha256 content))
  | _ => False
  end.

End InstallVocabulary.

(** ** What holds of the blocks of the updater *)

Section UpdateBlocks.

Import Update.

Variable P : platform.
Variable L : library.

(** The events that change nothing. *)
Definition quiet (ev : event) : Prop := ~ modifies ev.

(** Of the lines up to the announcement: they change nothing, they do not
    return [True], and when they go on, the announcement of the version is
    their last event. *)
Definition begins_well (r : result (flow context)) (evs : list event)
    : Prop :=
  Forall quiet evs /\
  not_True r /\
  forall c, r = Ok (Go c) ->
            exists evs', evs = (evs' ++ [announces (version_id c)])%list.

(** Of a block that installs an executable and of what follows it: the
    executable is backed up before it is replaced, and [True] is returned
    only at the end of a swap. *)
Definition swaps_well (c : context) (r : result (flow unit))
    (evs : list event) : Prop :=
  (forall prev, backed_up (filename P L) prev evs) /\
  (r = Ok (Return ReturnedTrue) ->
   exists pre, evs = (pre ++ swap (filename P L) (version_id c))%list).

(** Of the whole update, [True] standing for the value that ends the
    program: besides, nothing is changed before the version is announced,
    and the swap that ends the program is of an executable and of the
    version announced. *)
Definition updates_well {A} (True_ : A) (r : result A) (evs : list event)
    : Prop :=
  (forall prev, backed_up (filename P L) prev evs) /\
  ((Forall quiet evs /\ r <> Ok True_) \/
   exists id pre post,
     evs = (pre ++ announces id :: post)%list /\
     Forall quiet pre /\
     (r = Ok True_ ->
      frozen P = true /\
      exists mid, post = (mid ++ swap (filename P L) id)%list)).

End UpdateBlocks.

(** ** Examples for the updater *)

(** [int] on decimal digits. *)
Fixpoint int_digits (acc : Z) (s : string) : result Z :=
  match s with
  | EmptyString => Ok acc
  | String c s' =>
      let n := nat_of_ascii c in
      if ((48 <=? n) && (n <=? 57))%nat
      then int_digits (10 * acc + Z.of_nat (n - 48)) s'
      else Err (Exn "ValueError" "invalid literal for int() with base 10")
  end.

Definition decimal_int (s : string) : result Z :=
  match s with
  | EmptyString => Err (Exn "ValueError" "invalid literal for int() with base 10")
  | _ => int_digits 0 s
  end.

(** Every exception is an [Exception]; [IOError] is [OSError], and the
    errors of the network are among its subclasses. *)
Definition is_a (e : exn) (class : string) : bool :=
  (exn_class e =? class) || (class =? "Exception")
  || ((class =? "OSError")
      && existsb (String.eqb (exn_class e)) ["IOError"; "URLError"; "HTTPError"]).

(** A digest that only marks what it digests. *)
Definition marked (bytes : string) : string := "sha256 of " ++ bytes.

Definition sample_library : Update.library :=
  Update.Library decimal_int is_a marked (fun path => path)
                 (fun _ => "C:/tools").

Definition exe_url : string := "https://example.org/youtube-dl-red.exe".
Definition zip_url : string := "https://example.org/youtube-dl".
Definition sums_url : string := "https://example.org/SHA2-256SUMS".

(** The pre-release 2021.06.01, with an executable, a zip file and their
    sums. *)
Definition new_release : json :=
  JDict [("name", JString "2021.06.01"); ("prerelease", JBool true);
         ("assets",
          JList
            [ JDict [("name", JString "youtube-dl-red.exe");
                     ("browser_download_url", JString exe_url)];
              JDict [("name", JString "youtube-dl");
                     ("browser_download_url", JString zip_url)];
              JDict [("name", JString "SHA2-256SUMS");
                     ("browser_download_url", JString sums_url)] ])].

(** One page of releases: a release, then the pre-release. *)
Definition releases_page : json :=
  JList
    [ JDict [("name", JString "2021.05.20"); ("prerelease", JBool false)];
      new_release ].

Definition new_context : Update.context :=
  Update.Context_ new_release "2021.06.01".

Definition sample_sums : list (string * string) :=
  [ ("youtube-dl", marked "new zip");
    ("youtube-dl-red.exe", marked "new exe") ].

(** An outside where everything goes through. *)
Definition kind_outside : Update.outside :=
  Update.Outside
    (fun _ url =>
       if (url =? Update.JSON_URL 1) then Ok (PyJson.dumps releases_page)
       else if (url =? exe_url) then Ok "new exe"
       else if (url =? zip_url) then Ok "new zip"
       else if (url =? sums_url) then Ok (sums_text sample_sums)
       else Err (Exn "HTTPError" "HTTP Error 404: Not Found"))
    (fun _ _ => true)
    (fun _ _ => false)
    (fun _ _ => None)
    (fun _ _ _ => None)
    (fun _ _ _ => None)
    (fun _ path =>
       if (path =? "C:/tools/ytdl-patched.exe.new") then Ok (marked "new exe")
       else Ok (marked path))
    (fun _ _ => None).

(** The same outside, but the new executable on the disk is not what its
    sum says. *)
Definition corrupting_outside : Update.outside :=
  Update.Outside
    (Update.opener_read kind_outside)
    (fun _ _ => true)
    (fun _ _ => false)
    (fun _ _ => None)
    (fun _ _ _ => None)
    (fun _ _ _ => None)
    (fun _ path => Ok (marked path))
    (fun _ _ => None).

Definition exe_platform : Update.platform :=
  Update.Platform false true (3, 8)%nat (Ok 10%nat)
                  "C:/tools/ytdl-patched.exe" "ytdl-patched"
                  "2021.05.01" "red".

Definition zip_platform : Update.platform :=
  Update.Platform true false (3, 8)%nat
                  (Err (Exn "AttributeError" "getwindowsversion"))
                  "/usr/bin/python3" "/usr/local/bin/ytdl-patched"
                  "2021.05.01" "red".


Definition at_start : Update.state := Update.State 0 [].

(** * youtube_dl/extractor/fc2.py *)

Declare Scope fc2_scope.
Delimit Scope fc2_scope with fc2.

Module FC2.

(** [sanitized_Request(url, data)]; [data] is the form as it is before
    [urlencode_postdata], and [None] for a request without one. *)
Record request : Type := Request {
  request_url : string;
  request_data : option (list (string * string))
}.

(** What an extractor does, in order: the pages it asks for with
    [_download_webpage], and the warnings it reports itself. *)
Inductive event : Type :=
| Download (req : request) (note : string) (got : result string)
| ReportWarning (message : string).

Record state : Type := State { calls : nat; log : list event }.

Definition F (A : Type) : Type := state -> result A * state.

Definition ret {A} (a : A) : F A := fun st => (Ok a, st).

Definition bind {A B} (c : F A) (k : A -> F B) : F B :=
  fun st =>
    match c st with
    | (Ok a, st') => k a st'
    | (Err e, st') => (Err e, st')
    end.

Notation "x <- c ;; k" := (bind c (fun x => k))
  (at level 61, c at next level, right associativity) : fc2_scope.
Notation "c ;; k" := (bind c (fun _ => k))
  (at level 61, right associativity) : fc2_scope.
Local Open Scope fc2_scope.

(** [a or b] for two values that are strings or [None]. *)
Definition name_or (a b : option string) : option string :=
  match a with
  | Some (String _ _) => a
  | _ => b
  end.

Section Code.

(** [self._get_login_info()] *)
Variable login_info : option string * option string.

(** What each call of [_download_webpage] gives, by the number of calls
    made before it; a failure is raised, [fatal] being left as it is. *)
Variable pages_of_the_site : nat -> request -> result string.

(** The two searches of [FC2UserIE]: group 1 of the first match of the
    pattern of line 207, if any, and group 1 of every match of the pattern
    of line 208.  What [_search_regex] prints when it finds nothing is not
    in the log. *)
Variable member_name : string -> option string.
Variable video_urls : string -> list string.

(** [self.url_result] and [self.playlist_result] *)
Variable entry : Type.
Variable playlist : Type.
Variable url_result : string -> entry.
Variable playlist_result : list entry -> string -> option string -> playlist.

Definition _download_webpage (req : request) (note : string) : F string :=
  fun st =>
    let got := pages_of_the_site (calls st) req in
    (got, State (S (calls st)) (log st ++ [Download req note got])).

Definition report_warning (message : string) : F unit :=
  fun st => (Ok tt, State (calls st) (log st ++ [ReportWarning message])).

Definition login_request (username password : string) : request :=
  Request "https://secure.id.fc2.com/index.php?mode=login&switch_language=en"
          (Some [ ("email", username); ("password", password);
                  ("done", "video"); ("Submit", " Login ") ]).

Definition login_redir : request :=
  Request "http://secure.id.fc2.com/?login=done" None.

(** [FC2BaseIE._login], lines 24 to 51. *)
Definition _login : F bool :=
  match login_info with
  | (Some username, Some password) =>
      login_results <- _download_webpage (login_request username password)
                                         "Logging in" ;;
      if negb (contains "login=done" login_results) then
        report_warning "unable to log in: bad username or password" ;;
        ret false
      else
        _download_webpage login_redir "Login redirect" ;;
        ret true
  | _ => ret false
  end.

Section FC2UserIE.

(** The groups [extra] and [id] of the match of [_VALID_URL], lines 196 to
    198. *)
Variable extra : string.
Variable user_id : string.

Definition page_request (page : nat) : request :=
  Request ("https://video.fc2.com/" ++ extra ++ "account/" ++ user_id
           ++ "/content?page=" ++ str_of_nat page) None.

Definition page_note (page : nat) : string :=
  "Downloading page " ++ str_of_nat page.

(** Lines 203 to 213: the loop from [page] on, for [fuel] pages at most,
    and the result; [None] when the pages go on beyond [fuel]. *)
Fixpoint pages_from (fuel page : nat) (results : list entry)
    (uploader_name : option string) : F (option playlist) :=
  match fuel with
  | 0 => ret None
  | S fuel' =>
      webpage <- _download_webpage (page_request page) (page_note page) ;;
      let uploader_name := name_or uploader_name (member_name webpage) in
      let videos := map url_result (video_urls webpage) in
      match videos with
      | [] => ret (Some (playlist_result results user_id uploader_name))
      | _ :: _ => pages_from fuel' (S page) (results ++ videos) uploader_name
      end
  end.

(** [FC2UserIE._real_extract], lines 195 to 213. *)
Definition _real_extract (fuel : nat) : F (option playlist) :=
  _login ;;
  pages_from fuel 1 [] None.

(** The downloads of the pages from [page] on, with what they gave: the
    address and the note of each are written out. *)
Fixpoint downloads (page : nat) (gots : list (result string)) : list event :=
  match gots with
  | [] => []
  | got :: gots' =>
      Download
        (Request ("https://video.fc2.com/" ++ extra ++ "account/" ++ user_id
                  ++ "/content?page=" ++ str_of_nat page) None)
        ("Downloading page " ++ str_of_nat page) got
      :: downloads (S page) gots'
  end.

(** The uploader name after the pages [webpages]: the first name found
    that is not empty. *)
Definition name_after (uploader_name : option string)
    (webpages : list string) : option string :=
  fold_left (fun name webpage =>
               match name with
               | Some (String _ _) => name
               | Some EmptyString | None => member_name webpage
               end)
            webpages uploader_name.

End FC2UserIE.

End Code.

End FC2.

(** * Properties *)

(** ** One pass of the receive loop *)

Section OneFrame.

Context {J : JsonModule}.
Variable verbose : bool.

Lemma bind_ret_l {A B} (c : M A) (k : A -> M B) (w w' : world) (a : A) :
  c w = (Ret a, w') -> bind c k w = k a w'.
Proof. intros H. unfold bind. rewrite H. reflexivity. Qed.

Lemma bind_raise_l {A B} (c : M A) (k : A -> M B) (w w' : world) (e : exn) :
  c w = (Raise e, w') -> bind c k w = (Raise e, w').
Proof. intros H. unfold bind. rewrite H. reflexivity. Qed.

Lemma ws_recv_frame ws w recv rest :
  inbox w = Frame recv :: rest ->
  ws_recv ws w = (Ret recv, after_recv ws recv rest w).
Proof. intros H. unfold ws_recv. rewrite H. reflexivity. Qed.

Lemma on_frame_decoded ws w recv rest data :
  inbox w = Frame recv :: rest ->
  recv <> "" ->
  json_loads recv = Ok data ->
  on_frame verbose ws w = dispatch verbose ws recv data (after_recv ws recv rest w).
Proof.
  intros Hin Hne Hdata. unfold on_frame.
  rewrite (bind_ret_l _ _ _ _ _ (ws_recv_frame ws w recv rest Hin)).
  apply String.eqb_neq in Hne. rewrite Hne.
  unfold bind at 1, eval at 1. rewrite Hdata. reflexivity.
Qed.

Lemma on_frame_undecodable ws w recv rest e :
  inbox w = Frame recv :: rest ->
  recv <> "" ->
  json_loads recv = Err e ->
  on_frame verbose ws w = (Raise e, after_recv ws recv rest w).
Proof.
  intros Hin Hne Hdata. unfold on_frame.
  rewrite (bind_ret_l _ _ _ _ _ (ws_recv_frame ws w recv rest Hin)).
  apply String.eqb_neq in Hne. rewrite Hne.
  unfold bind at 1, eval at 1. rewrite Hdata. reflexivity.
Qed.

Lemma dispatch_typed ws recv d ty w :
  d <> [] ->
  dict_lookup d "type" = Some ty ->
  dispatch verbose ws recv (JDict d) w =
    (if eq_str ty "ping" then
       ws_send ws pong_frame ;; ws_send ws keepSeat_frame ;; ret None
     else if eq_str ty "disconnect" then
       write_debug (JDict d) ;; ret (Some ReturnTrue)
     else if eq_str ty "error" then
       write_debug (JDict d) ;;
       code <- eval (try_get (JDict d) body_code isinstance_str) ;;
       ret (Some (ReturnDownloadError (py_or code (JString recv))))
     else if verbose then
       to_screen ("[debug] Server said: " ++ preview recv) ;; ret None
     else ret None) w.
Proof.
  intros Hne Hty. unfold dispatch.
  destruct d as [|item d]; [congruence|]. cbn [truthy isinstance_dict negb orb].
  unfold bind at 1, eval at 1, py_get. rewrite Hty. reflexivity.
Qed.

Lemma while_true_S {R} (n : nat) (body : M (option R)) (w : world) :
  while_true (S n) body w =
    match body w with
    | (Ret (Some v), w') => (Ret v, w')
    | (Ret None, w') => while_true n body w'
    | (Raise e, w') => (Raise e, w')
    | (Blocked, w') => (Blocked, w')
    | (OutOfFuel, w') => (OutOfFuel, w')
    end.
Proof.
  cbn [while_true]. unfold bind.
  destruct (body w) as [[[v|]|e| |] w']; reflexivity.
Qed.

Lemma while_true_comes_to {R} (body : M (option R)) n w m w' :
  comes_to body n w m w' -> while_true n body w = while_true m body w'.
Proof.
  induction 1 as [|n w w1 m w' Hbody _ IH]; [reflexivity|].
  rewrite while_true_S, Hbody. exact IH.
Qed.

Lemma comes_to_snoc {R} (body : M (option R)) n w m w1 w2 :
  comes_to body n w (S m) w1 ->
  body w1 = (Ret None, w2) ->
  comes_to body n w m w2.
Proof.
  intros H. remember (S m) as k eqn:Hk. revert m Hk.
  induction H as [n w|n w wa k w' Hbody _ IH]; intros m Hk Hstep; subst.
  - eapply comes_later; [exact Hstep | apply comes_here].
  - eapply comes_later; [exact Hbody | apply IH; [reflexivity | exact Hstep]].
Qed.

End OneFrame.

(** ** Sessions and the reconnect loop *)

Section Supervisor.

Context {J : JsonModule}.
Variable info : info_dict.
Variable verbose : bool.
Variable user_agent : string.

Local Abbreviation open_ws' := (open_ws info verbose user_agent).
Local Abbreviation communicate_ws' := (communicate_ws info verbose user_agent).
Local Abbreviation ws_main' := (ws_main info verbose user_agent).
Local Abbreviation body := (on_frame verbose).

(** A session that has come to a pass is decided by that pass and the
    passes after it. *)
Lemma communicate_ws_at fuel reconnect w0 ws w1 m w :
  open_ws' reconnect w0 = (Ret ws, w1) ->
  comes_to (body ws) fuel w1 m w ->
  communicate_ws' fuel reconnect w0 = receive_loop verbose m ws w.
Proof.
  intros Hopen Hpass. unfold communicate_ws.
  rewrite (bind_ret_l _ _ _ _ _ Hopen).
  unfold receive_loop, with_.
  rewrite (while_true_comes_to _ _ _ _ _ Hpass). reflexivity.
Qed.

Lemma receive_loop_returns m ws w r w' :
  body ws w = (Ret (Some r), w') ->
  receive_loop verbose (S m) ws w = (Ret r, emit (EvClose ws) w').
Proof.
  intros H. unfold receive_loop, with_. rewrite while_true_S, H. reflexivity.
Qed.

Lemma receive_loop_raises m ws w e w' :
  body ws w = (Raise e, w') ->
  receive_loop verbose (S m) ws w = (Raise e, emit (EvClose ws) w').
Proof.
  intros H. unfold receive_loop, with_. rewrite while_true_S, H. reflexivity.
Qed.

Lemma ws_main_stops sessions fuel reconnect w w' :
  communicate_ws' fuel reconnect w = (Ret ReturnTrue, w') ->
  ws_main' (S sessions) fuel reconnect w = (Ret tt, w').
Proof. intros H. cbn [ws_main]. rewrite H. reflexivity. Qed.

(** After a session that returns a [DownloadError], [ws_main] goes straight
    to the next session; after one that raises, the message and the sleep
    come first.  Either way the next session has [reconnect = True]. *)
Lemma ws_main_after_error sessions fuel reconnect w message w' :
  communicate_ws' fuel reconnect w = (Ret (ReturnDownloadError message), w') ->
  ws_main' (S sessions) fuel reconnect w = ws_main' sessions fuel true w'.
Proof. intros H. cbn [ws_main]. rewrite H. reflexivity. Qed.

Lemma ws_main_after_raise sessions fuel reconnect w e w' :
  communicate_ws' fuel reconnect w = (Raise e, w') ->
  ws_main' (S sessions) fuel reconnect w =
    ws_main' sessions fuel true (after_handler info e w').
Proof. intros H. cbn [ws_main]. rewrite H. reflexivity. Qed.

(** Nothing raised in a session gets past [ws_main]. *)
Lemma ws_main_never_raises sessions fuel reconnect w e :
  fst (ws_main' sessions fuel reconnect w) <> Raise e.
Proof.
  revert reconnect w.
  induction sessions as [|n IH]; intros reconnect w; [discriminate|].
  cbn [ws_main].
  destruct (communicate_ws' fuel reconnect w) as [[r|e'| |] w'] eqn:Hc.
  - destruct (is_True r); [discriminate | apply IH].
  - unfold bind, to_screen, sleep, log. apply IH.
  - discriminate.
  - discriminate.
Qed.

Lemma body_code_error_is_caught (x : json) (e : exn) :
  body_code x = Err e -> try_get_catches e = true.
Proof.
  unfold body_code, py_getitem. intros H.
  destruct x as [| | | | | | | |d];
    try (injection H as <-; reflexivity).
  destruct (dict_lookup d "body") as [b|];
    [|injection H as <-; reflexivity].
  destruct b as [| | | | | | | |d'];
    try (injection H as <-; reflexivity).
  destruct (dict_lookup d' "code");
    [discriminate | injection H as <-; reflexivity].
Qed.

Lemma lookup_some_nonempty (d : list (string * json)) k v :
  dict_lookup d k = Some v -> d <> [].
Proof. destruct d; [discriminate | discriminate]. Qed.

(** What a session returns or raises from the pass that receives [recv]. *)
Lemma session_returns_at fuel reconnect w0 ws m w recv rest data r w' :
  receives info verbose user_agent fuel reconnect w0 ws m w recv rest data ->
  dispatch verbose ws recv data (after_recv ws recv rest w) = (Ret (Some r), w') ->
  communicate_ws' fuel reconnect w0 = (Ret r, emit (EvClose ws) w').
Proof.
  intros (w1 & Hopen & Hpass & Hin & Hne & Hdata) Hd.
  rewrite (communicate_ws_at _ _ _ _ _ _ _ Hopen Hpass).
  apply receive_loop_returns.
  rewrite (on_frame_decoded _ _ _ _ _ _ Hin Hne Hdata). exact Hd.
Qed.

Lemma session_raises_at fuel reconnect w0 ws m w recv rest data e w' :
  receives info verbose user_agent fuel reconnect w0 ws m w recv rest data ->
  dispatch verbose ws recv data (after_recv ws recv rest w) = (Raise e, w') ->
  communicate_ws' fuel reconnect w0 = (Raise e, emit (EvClose ws) w').
Proof.
  intros (w1 & Hopen & Hpass & Hin & Hne & Hdata) Hd.
  rewrite (communicate_ws_at _ _ _ _ _ _ _ Hopen Hpass).
  apply receive_loop_raises.
  rewrite (on_frame_decoded _ _ _ _ _ _ Hin Hne Hdata). exact Hd.
Qed.

(** C4.  In any session, at any pass of its loop, a frame that decodes to an
    object whose type is "disconnect" makes [communicate_ws] return [True]
    (after [write_debug] and the closing of the socket), and [ws_main]
    returns there: the world it leaves is the one the session left, with no
    message, no sleep and no new connection after it. *)
Theorem disconnect_stops_supervisor
    sessions fuel reconnect w0 ws m w recv rest d :
  receives info verbose user_agent fuel reconnect w0 ws m w recv rest (JDict d) ->
  dict_lookup d "type" = Some (JString "disconnect") ->
  let final :=
    emit (EvClose ws) (emit (EvWriteDebug (JDict d)) (after_recv ws recv rest w)) in
  communicate_ws' fuel reconnect w0 = (Ret ReturnTrue, final) /\
  ws_main' (S sessions) fuel reconnect w0 = (Ret tt, final).
Proof.
  intros Hrecv Hty final.
  assert (Hc : communicate_ws' fuel reconnect w0 = (Ret ReturnTrue, final)).
  { eapply session_returns_at; [exact Hrecv|].
    rewrite (dispatch_typed _ _ _ _ _ _ (lookup_some_nonempty _ _ _ Hty) Hty).
    reflexivity. }
  split; [exact Hc | apply ws_main_stops; exact Hc].
Qed.

Lemma error_frame_returns fuel reconnect w0 ws m w recv rest d code :
  receives info verbose user_agent fuel reconnect w0 ws m w recv rest (JDict d) ->
  dict_lookup d "type" = Some (JString "error") ->
  try_get (JDict d) body_code isinstance_str = Ok code ->
  communicate_ws' fuel reconnect w0 =
    (Ret (ReturnDownloadError (py_or code (JString recv))),
     emit (EvClose ws) (emit (EvWriteDebug (JDict d)) (after_recv ws recv rest w))).
Proof.
  intros Hrecv Hty Hcode.
  eapply session_returns_at; [exact Hrecv|].
  rewrite (dispatch_typed _ _ _ _ _ _ (lookup_some_nonempty _ _ _ Hty) Hty).
  cbn [eq_str String.eqb Ascii.eqb Bool.eqb].
  unfold bind, write_debug, log, eval. rewrite Hcode. reflexivity.
Qed.

(** C5, as the code has it.  In any session, at any pass, a frame that
    decodes to an object whose type is "error" makes [communicate_ws] return
    a [DownloadError]: its message is [body.code] when that is a string that
    is not empty, and the text of the frame as received when [body.code] is
    the empty string or cannot be looked up. *)
Theorem error_frame_detail fuel reconnect w0 ws m w recv rest d :
  receives info verbose user_agent fuel reconnect w0 ws m w recv rest (JDict d) ->
  dict_lookup d "type" = Some (JString "error") ->
  let final :=
    emit (EvClose ws) (emit (EvWriteDebug (JDict d)) (after_recv ws recv rest w)) in
  (forall X, body_code (JDict d) = Ok (JString X) -> X <> "" ->
     communicate_ws' fuel reconnect w0 =
       (Ret (ReturnDownloadError (JString X)), final)) /\
  (body_code (JDict d) = Ok (JString "") ->
     communicate_ws' fuel reconnect w0 =
       (Ret (ReturnDownloadError (JString recv)), final)) /\
  (forall e, body_code (JDict d) = Err e ->
     communicate_ws' fuel reconnect w0 =
       (Ret (ReturnDownloadError (JString recv)), final)).
Proof.
  intros Hrecv Hty final. repeat split.
  - intros X HX Hne.
    rewrite (error_frame_returns _ _ _ _ _ _ _ _ _ (JString X) Hrecv Hty).
    + unfold py_or. cbn [truthy].
      apply String.eqb_neq in Hne. rewrite Hne. reflexivity.
    + unfold try_get. rewrite HX. reflexivity.
  - intros HX.
    rewrite (error_frame_returns _ _ _ _ _ _ _ _ _ (JString "") Hrecv Hty).
    + reflexivity.
    + unfold try_get. rewrite HX. reflexivity.
  - intros e He.
    rewrite (error_frame_returns _ _ _ _ _ _ _ _ _ JNull Hrecv Hty).
    + reflexivity.
    + unfold try_get. rewrite He, (body_code_error_is_caught _ _ He).
      reflexivity.
Qed.

(** C9.  In any session, at any pass, an "error" frame whose [body.code] is
    there but is not a string makes [communicate_ws] return a
    [DownloadError] whose message is the frame as received, whole: [recv]
    is cut to its preview only on the branch that shows a frame, so the
    message is as long as the frame, also beyond 100 characters. *)
Theorem error_code_not_a_string_falls_back
    fuel reconnect w0 ws m w recv rest d code :
  receives info verbose user_agent fuel reconnect w0 ws m w recv rest (JDict d) ->
  dict_lookup d "type" = Some (JString "error") ->
  body_code (JDict d) = Ok code ->
  isinstance_str code = false ->
  exists detail,
    communicate_ws' fuel reconnect w0 =
      (Ret (ReturnDownloadError (JString detail)),
       emit (EvClose ws)
         (emit (EvWriteDebug (JDict d)) (after_recv ws recv rest w))) /\
    detail = recv /\
    String.length detail = String.length recv.
Proof.
  intros Hrecv Hty Hcode Hstr. exists recv. repeat split.
  rewrite (error_frame_returns _ _ _ _ _ _ _ _ _ JNull Hrecv Hty).
  - reflexivity.
  - unfold try_get. rewrite Hcode, Hstr. reflexivity.
Qed.

Lemma ws_send_ok ws frame w :
  next_fault (send_faults w) = None ->
  ws_send ws frame w = (Ret tt, sent ws frame w).
Proof. intros H. unfold ws_send. rewrite H. reflexivity. Qed.

Lemma ws_send_fails ws frame w e :
  next_fault (send_faults w) = Some e ->
  ws_send ws frame w = (Raise e, send_failed ws frame e w).
Proof. intros H. unfold ws_send. rewrite H. reflexivity. Qed.

(** C6.  In any session, at any pass, a frame that decodes to an object whose
    type is "ping" is answered by one send of the text [{"type":"pong"}] and
    then one send of the text [{"type":"keepSeat"}], and nothing else,
    before the loop goes to its next [recv]; if either send fails the
    session ends by that exception, its socket closed, and [ws_main] handles
    it as a connection error.  The two texts are written out here,
    character by character, the double quote being the character 034. *)
Theorem ping_is_answered sessions fuel reconnect w0 ws m w recv rest d :
  receives info verbose user_agent fuel reconnect w0 ws m w recv rest (JDict d) ->
  dict_lookup d "type" = Some (JString "ping") ->
  let pong :=
    "{" ++ String "034"%char ("type" ++ String "034"%char (":" ++
           String "034"%char ("pong" ++ String "034"%char "}"))) in
  let keepSeat :=
    "{" ++ String "034"%char ("type" ++ String "034"%char (":" ++
           String "034"%char ("keepSeat" ++ String "034"%char "}"))) in
  let w1 := after_recv ws recv rest w in
  (next_fault (send_faults w) = None ->
   next_fault (tl (send_faults w)) = None ->
   let w' := sent ws keepSeat (sent ws pong w1) in
   body ws w = (Ret None, w') /\
   trace w' =
     (trace w ++ [EvRecv ws recv; EvSend ws pong; EvSend ws keepSeat])%list /\
   communicate_ws' fuel reconnect w0 = receive_loop verbose m ws w') /\
  (forall e,
   next_fault (send_faults w) = Some e ->
   let w' := send_failed ws pong e w1 in
   trace w' = (trace w ++ [EvRecv ws recv; EvSendFailed ws pong e])%list /\
   communicate_ws' fuel reconnect w0 = (Raise e, emit (EvClose ws) w') /\
   ws_main' (S sessions) fuel reconnect w0 =
     ws_main' sessions fuel true (after_handler info e (emit (EvClose ws) w'))) /\
  (forall e,
   next_fault (send_faults w) = None ->
   next_fault (tl (send_faults w)) = Some e ->
   let w' := send_failed ws keepSeat e (sent ws pong w1) in
   trace w' =
     (trace w ++ [EvRecv ws recv; EvSend ws pong; EvSendFailed ws keepSeat e])%list /\
   communicate_ws' fuel reconnect w0 = (Raise e, emit (EvClose ws) w') /\
   ws_main' (S sessions) fuel reconnect w0 =
     ws_main' sessions fuel true (after_handler info e (emit (EvClose ws) w'))).
Proof.
  intros Hrecv Hty pong keepSeat w1.
  assert (Hpong : pong = pong_frame) by reflexivity.
  assert (HkeepSeat : keepSeat = keepSeat_frame) by reflexivity.
  clearbody pong keepSeat. subst pong keepSeat.
  pose proof (dispatch_typed verbose ws recv d _ w1
                (lookup_some_nonempty _ _ _ Hty) Hty) as Hd.
  cbn [eq_str String.eqb Ascii.eqb Bool.eqb] in Hd.
  assert (Hboth : next_fault (send_faults w) = None ->
                  next_fault (tl (send_faults w)) = None ->
                  dispatch verbose ws recv (JDict d) w1 =
                    (Ret None, sent ws keepSeat_frame (sent ws pong_frame w1))).
  { intros H1 H2. rewrite Hd.
    rewrite (bind_ret_l _ _ _ _ _ (ws_send_ok ws pong_frame w1 H1)).
    rewrite (bind_ret_l _ _ _ _ _
               (ws_send_ok ws keepSeat_frame (sent ws pong_frame w1) H2)).
    reflexivity. }
  assert (Hfirst : forall e, next_fault (send_faults w) = Some e ->
                   dispatch verbose ws recv (JDict d) w1 =
                     (Raise e, send_failed ws pong_frame e w1)).
  { intros e H1. rewrite Hd.
    apply bind_raise_l. exact (ws_send_fails ws pong_frame w1 e H1). }
  assert (Hsecond : forall e, next_fault (send_faults w) = None ->
                    next_fault (tl (send_faults w)) = Some e ->
                    dispatch verbose ws recv (JDict d) w1 =
                      (Raise e, send_failed ws keepSeat_frame e
                                  (sent ws pong_frame w1))).
  { intros e H1 H2. rewrite Hd.
    rewrite (bind_ret_l _ _ _ _ _ (ws_send_ok ws pong_frame w1 H1)).
    apply bind_raise_l.
    exact (ws_send_fails ws keepSeat_frame (sent ws pong_frame w1) e H2). }
  split; [|split].
  - intros H1 H2 w'.
    destruct Hrecv as (wa & Hopen & Hpass & Hin & Hne & Hdata).
    assert (Hpass' : body ws w = (Ret None, w')).
    { rewrite (on_frame_decoded _ _ _ _ _ _ Hin Hne Hdata).
      exact (Hboth H1 H2). }
    split; [exact Hpass'|]. split.
    + cbn. rewrite <- !app_assoc. reflexivity.
    + apply (communicate_ws_at _ _ _ _ wa); [exact Hopen|].
      eapply comes_to_snoc; [exact Hpass | exact Hpass'].
  - intros e H1 w'.
    assert (Hc : communicate_ws' fuel reconnect w0 = (Raise e, emit (EvClose ws) w')).
    { eapply session_raises_at; [exact Hrecv | exact (Hfirst e H1)]. }
    split; [cbn; rewrite <- !app_assoc; reflexivity|].
    split; [exact Hc | apply ws_main_after_raise; exact Hc].
  - intros e H1 H2 w'.
    assert (Hc : communicate_ws' fuel reconnect w0 = (Raise e, emit (EvClose ws) w')).
    { eapply session_raises_at; [exact Hrecv | exact (Hsecond e H1 H2)]. }
    split; [cbn; rewrite <- !app_assoc; reflexivity|].
    split; [exact Hc | apply ws_main_after_raise; exact Hc].
Qed.

Lemma dispatch_skips ws recv data w :
  truthy data = false \/ isinstance_dict data = false ->
  dispatch verbose ws recv data w = (Ret None, w).
Proof.
  intros [H|H]; unfold dispatch; rewrite H; cbn [negb orb].
  - reflexivity.
  - rewrite orb_true_r. reflexivity.
Qed.

(** C1, as the code has it.  In any session, at any pass: an empty frame,
    and a frame that decodes to a value that is false or is not a dict, are
    passed over, with nothing done but the [recv], and the loop goes to its
    next [recv]; a frame that is not empty and that [json.loads] cannot
    decode ends the session by the [JSONDecodeError], its socket closed, and
    [ws_main] handles that as a connection error (its message, a sleep of
    ten seconds, a fresh session).  No exception of a session gets out of
    [ws_main]: a session
    ends by [return True], after which [ws_main] returns, by the return of a
    [DownloadError], after which [ws_main] goes to the next session, or by
    an exception, after which [ws_main] goes to the next session through its
    handler. *)
Theorem frames_skipped_or_session_ended
    sessions fuel reconnect w0 ws m w recv rest :
  (forall data,
     receives info verbose user_agent fuel reconnect w0 ws m w recv rest data ->
     truthy data = false \/ isinstance_dict data = false ->
     body ws w = (Ret None, after_recv ws recv rest w) /\
     communicate_ws' fuel reconnect w0 =
       receive_loop verbose m ws (after_recv ws recv rest w)) /\
  (forall w1,
     open_ws' reconnect w0 = (Ret ws, w1) ->
     comes_to (body ws) fuel w1 (S m) w ->
     inbox w = Frame "" :: rest ->
     body ws w = (Ret None, after_recv ws "" rest w) /\
     communicate_ws' fuel reconnect w0 =
       receive_loop verbose m ws (after_recv ws "" rest w)) /\
  (forall e,
     receives_undecodable info verbose user_agent fuel reconnect w0 ws m w
       recv rest e ->
     recv <> "" /\
     let closed := emit (EvClose ws) (after_recv ws recv rest w) in
     let message :=
       "[niconico:live] " ++ Info.video_id info
       ++ ": Connection error occured, reconnecting after 10 seconds: "
       ++ exn_message e in
     communicate_ws' fuel reconnect w0 = (Raise e, closed) /\
     ws_main' (S sessions) fuel reconnect w0 =
       ws_main' sessions fuel true
         (emit (EvSleep 10) (emit (EvToScreen message) closed))) /\
  (forall e, fst (ws_main' sessions fuel reconnect w0) <> Raise e) /\
  (forall out w',
     communicate_ws' fuel reconnect w0 = (out, w') ->
     finished out = true ->
     (out = Ret ReturnTrue /\
      ws_main' (S sessions) fuel reconnect w0 = (Ret tt, w')) \/
     (exists message,
        out = Ret (ReturnDownloadError message) /\
        ws_main' (S sessions) fuel reconnect w0 =
          ws_main' sessions fuel true w') \/
     (exists e,
        out = Raise e /\
        ws_main' (S sessions) fuel reconnect w0 =
          ws_main' sessions fuel true (after_handler info e w'))).
Proof.
  split; [|split; [|split; [|split]]].
  - intros data (wa & Hopen & Hpass & Hin & Hne & Hdata) Hskip.
    assert (Hpass' : body ws w = (Ret None, after_recv ws recv rest w)).
    { rewrite (on_frame_decoded _ _ _ _ _ _ Hin Hne Hdata).
      apply dispatch_skips, Hskip. }
    split; [exact Hpass'|].
    apply (communicate_ws_at _ _ _ _ wa); [exact Hopen|].
    eapply comes_to_snoc; [exact Hpass | exact Hpass'].
  - intros w1 Hopen Hpass Hin.
    assert (Hpass' : body ws w = (Ret None, after_recv ws "" rest w)).
    { unfold on_frame.
      rewrite (bind_ret_l _ _ _ _ _ (ws_recv_frame ws w "" rest Hin)).
      reflexivity. }
    split; [exact Hpass'|].
    apply (communicate_ws_at _ _ _ _ w1); [exact Hopen|].
    eapply comes_to_snoc; [exact Hpass | exact Hpass'].
  - intros e (wa & Hopen & Hpass & Hin & Hne & Hdata).
    split; [exact Hne|]. intros closed message.
    assert (Hc : communicate_ws' fuel reconnect w0 = (Raise e, closed)).
    { rewrite (communicate_ws_at _ _ _ _ _ _ _ Hopen Hpass).
      apply receive_loop_raises.
      apply (on_frame_undecodable _ _ _ _ _ _ Hin Hne Hdata). }
    split; [exact Hc|].
    exact (ws_main_after_raise sessions fuel reconnect w0 e closed Hc).
  - intros e. apply ws_main_never_raises.
  - intros out w' Hout Hfinished.
    destruct out as [[|message]|e| |]; try discriminate.
    + left. split; [reflexivity | now apply ws_main_stops].
    + right. left. exists message.
      split; [reflexivity | now apply (ws_main_after_error _ _ _ _ message)].
    + right. right. exists e.
      split; [reflexivity | now apply ws_main_after_raise].
Qed.

End Supervisor.

(** ** What is shown of a frame *)

Section Shown.

Context {J : JsonModule}.
Variable verbose : bool.

Lemma count_if_snoc p t ev :
  count_if p (t ++ [ev]) = count_if p t + (if p ev then 1 else 0).
Proof.
  unfold count_if. rewrite filter_app, length_app. cbn.
  destruct (p ev); reflexivity.
Qed.

Lemma substring_length_le n s : String.length (substring 0 n s) <= n.
Proof.
  revert s. induction n as [|n IH]; intros [|c s]; cbn; try lia.
  specialize (IH s). lia.
Qed.

Lemma append_length s1 s2 :
  String.length (s1 ++ s2) = String.length s1 + String.length s2.
Proof. induction s1 as [|c s1 IH]; cbn; [reflexivity | now rewrite IH]. Qed.

Lemma preview_bounded recv : String.length (preview recv) <= 103.
Proof.
  unfold preview. destruct (Nat.ltb_spec 100 (String.length recv)) as [H|H].
  - rewrite append_length. pose proof (substring_length_le 100 recv). cbn. lia.
  - lia.
Qed.

Lemma ws_send_count p ws frame w :
  (forall e, p (EvSendFailed ws frame e) = false) ->
  p (EvSend ws frame) = false ->
  count_if p (trace (snd (ws_send ws frame w))) = count_if p (trace w).
Proof.
  intros Hf Hs. unfold ws_send.
  destruct (next_fault (send_faults w)); cbn [snd trace];
    rewrite count_if_snoc, ?Hf, ?Hs; lia.
Qed.

Lemma server_said_is_counted (text : string) :
  is_server_said (EvToScreen ("[debug] Server said: " ++ text)) = true.
Proof. reflexivity. Qed.

Lemma dispatch_count ws recv data w :
  count_if is_server_said (trace (snd (dispatch verbose ws recv data w))) =
  count_if is_server_said (trace w)
  + (if verbose && other_object data then 1 else 0).
Proof.
  unfold dispatch.
  destruct data as [|b|n|mm ee| |neg|s|l|d];
    try (rewrite orb_true_r, andb_false_r; cbn; lia).
  destruct d as [|item d]; [rewrite andb_false_r; cbn; lia|].
  cbn [truthy isinstance_dict negb orb other_object].
  unfold bind at 1, eval at 1, py_get.
  destruct (dict_lookup (item :: d) "type") as [ty|].
  - destruct (eq_str ty "ping") eqn:Hping.
    { rewrite andb_false_r. unfold bind.
      destruct (ws_send ws pong_frame w) as [[[]|e| |] wa] eqn:H1;
        pose proof (ws_send_count is_server_said ws pong_frame w
                      (fun _ => eq_refl) eq_refl) as C1;
        rewrite H1 in C1; cbn [snd] in C1; cbn [snd]; try lia.
      destruct (ws_send ws keepSeat_frame wa) as [[[]|e| |] wb] eqn:H2;
        pose proof (ws_send_count is_server_said ws keepSeat_frame wa
                      (fun _ => eq_refl) eq_refl) as C2;
        rewrite H2 in C2; cbn [snd] in C2; cbn [snd ret]; lia. }
    destruct (eq_str ty "disconnect") eqn:Hdis.
    { rewrite andb_false_r. unfold bind, write_debug, log, ret, emit.
      cbn [snd trace]. rewrite count_if_snoc. cbn. lia. }
    destruct (eq_str ty "error") eqn:Herr.
    { rewrite andb_false_r. unfold bind, write_debug, log, eval, ret, emit.
      destruct (try_get _ _ _); cbn [snd trace]; rewrite count_if_snoc;
        cbn; lia. }
    cbn [negb andb]. rewrite andb_true_r.
    destruct verbose; unfold bind, to_screen, log, ret, emit; cbn [snd trace];
      rewrite ?count_if_snoc, ?server_said_is_counted; cbn; lia.
  - cbn [eq_str]. rewrite andb_true_r.
    destruct verbose; unfold bind, to_screen, log, ret, emit; cbn [snd trace];
      rewrite ?count_if_snoc, ?server_said_is_counted; cbn; lia.
Qed.

(** C10.  A frame that decodes to a value that is false (the empty object
    too) or is not a dict is passed over and nothing is printed, whatever
    [verbose] is: the pass does its [recv] and nothing else.  A pass prints a
    "Server said" line exactly when [verbose] is set and its frame decodes
    to a dict that is not empty and whose type is none of "ping",
    "disconnect" and "error"; the line carries the preview of the frame, of
    103 characters at most. *)
Theorem only_other_objects_are_shown (ws : sock) (w : world) :
  (forall recv rest data,
     inbox w = Frame recv :: rest -> recv <> "" ->
     json_loads recv = Ok data ->
     truthy data = false \/ isinstance_dict data = false ->
     on_frame verbose ws w = (Ret None, after_recv ws recv rest w)) /\
  count_if is_server_said (trace (snd (on_frame verbose ws w))) =
    count_if is_server_said (trace w) + (if shows verbose w then 1 else 0) /\
  (shows verbose w = true ->
   exists recv rest,
     inbox w = Frame recv :: rest /\
     on_frame verbose ws w =
       (Ret None,
        emit (EvToScreen ("[debug] Server said: " ++ preview recv))
             (after_recv ws recv rest w)) /\
     String.length (preview recv) <= 103).
Proof.
  split; [|split].
  - intros recv rest data Hin Hne Hdata Hskip.
    rewrite (on_frame_decoded _ _ _ _ _ _ Hin Hne Hdata).
    destruct Hskip as [H|H]; unfold dispatch; rewrite H;
      [|rewrite orb_true_r]; reflexivity.
  - unfold shows.
    destruct (inbox w) as [|[recv|e] rest] eqn:Hin.
    + unfold on_frame, bind, ws_recv. rewrite Hin, andb_false_r. cbn. lia.
    + destruct (String.eqb_spec recv "") as [->|Hne].
      * unfold on_frame.
        rewrite (bind_ret_l _ _ _ _ _ (ws_recv_frame ws w "" rest Hin)).
        rewrite andb_false_r. cbn [String.eqb ret snd after_recv trace].
        rewrite count_if_snoc. cbn. lia.
      * cbn [negb andb].
        destruct (json_loads recv) as [data|e] eqn:Hdata.
        -- rewrite (on_frame_decoded _ _ _ _ _ _ Hin Hne Hdata).
           rewrite dispatch_count. cbn [after_recv trace].
           rewrite count_if_snoc. cbn. lia.
        -- rewrite (on_frame_undecodable _ _ _ _ _ _ Hin Hne Hdata).
           rewrite andb_false_r. cbn [snd after_recv trace].
           rewrite count_if_snoc. cbn. lia.
    + unfold on_frame, bind, ws_recv. rewrite Hin, andb_false_r.
      cbn [snd trace]. rewrite count_if_snoc. cbn. lia.
  - unfold shows. intros H.
    apply andb_true_iff in H as [Hv H].
    destruct (inbox w) as [|[recv|e] rest] eqn:Hin; try discriminate.
    apply andb_true_iff in H as [Hne H].
    apply negb_true_iff, String.eqb_neq in Hne.
    destruct (json_loads recv) as [data|e] eqn:Hdata; [|discriminate].
    exists recv, rest. split; [reflexivity|]. split; [|apply preview_bounded].
    rewrite (on_frame_decoded _ _ _ _ _ _ Hin Hne Hdata).
    destruct data as [| | | | | | | |[|item d]]; try discriminate.
    unfold dispatch. cbn [truthy isinstance_dict negb orb].
    unfold bind at 1, eval at 1, py_get. cbn [other_object] in H.
    destruct (dict_lookup (item :: d) "type") as [ty|].
    + apply andb_true_iff in H as [H H3]. apply andb_true_iff in H as [H1 H2].
      apply negb_true_iff in H1, H2, H3. rewrite H1, H2, H3, Hv. reflexivity.
    + cbn [eq_str]. rewrite Hv. reflexivity.
Qed.

End Shown.

(** ** What a computation adds to the trace *)

Section Footprint.

(** A property of event sequences that the empty one has and that
    concatenation keeps. *)
Variable P : list event -> Prop.
Hypothesis P_nil : P [].
Hypothesis P_app : forall a b, P a -> P b -> P (a ++ b)%list.

Lemma emits_events_of {A} (c : M A) (w : world) :
  emits P c -> P (events_of c w).
Proof.
  intros H. destruct (H w) as (evs & Ht & HP). unfold events_of.
  rewrite Ht, skipn_app, skipn_all, Nat.sub_diag. exact HP.
Qed.

Lemma emits_ret {A} (a : A) : emits P (ret a).
Proof. intros w. exists []. rewrite app_nil_r. split; [reflexivity | exact P_nil]. Qed.

Lemma emits_eval {A} (r : result A) : emits P (eval r).
Proof.
  intros w. exists []. rewrite app_nil_r. split; [|exact P_nil].
  destruct r; reflexivity.
Qed.

Lemma emits_stop {A} (r : run A) : emits P (fun w => (r, w)).
Proof. intros w. exists []. rewrite app_nil_r. split; [reflexivity | exact P_nil]. Qed.

Lemma emits_bind {A B} (c : M A) (k : A -> M B) :
  emits P c -> (forall a, emits P (k a)) -> emits P (bind c k).
Proof.
  intros Hc Hk w. unfold bind.
  destruct (Hc w) as (e1 & Ht1 & HP1).
  destruct (c w) as [[a|e| |] w1] eqn:Hcw; cbn [snd] in Ht1.
  - destruct (Hk a w1) as (e2 & Ht2 & HP2). exists (e1 ++ e2)%list.
    rewrite Ht2, Ht1, app_assoc. split; [reflexivity | apply P_app; assumption].
  - exists e1. split; assumption.
  - exists e1. split; assumption.
  - exists e1. split; assumption.
Qed.

Lemma emits_log (ev : event) : P [ev] -> emits P (log ev).
Proof. intros H w. exists [ev]. split; [reflexivity | exact H]. Qed.

Lemma emits_ws_send ws frame :
  P [EvSend ws frame] -> (forall e, P [EvSendFailed ws frame e]) ->
  emits P (ws_send ws frame).
Proof.
  intros Hs Hf w. unfold ws_send.
  destruct (next_fault (send_faults w)) as [e|].
  - exists [EvSendFailed ws frame e]. split; [reflexivity | apply Hf].
  - exists [EvSend ws frame]. split; [reflexivity | exact Hs].
Qed.

Lemma emits_WebSocket url headers :
  (forall s, P [EvConnect s url headers]) ->
  (forall e, P [EvConnectFailed url headers e]) ->
  emits P (WebSocket url headers).
Proof.
  intros Hc Hf w. unfold WebSocket.
  destruct (next_fault (connect_faults w)) as [e|].
  - exists [EvConnectFailed url headers e]. split; [reflexivity | apply Hf].
  - exists [EvConnect (next_sock w) url headers]. split; [reflexivity | apply Hc].
Qed.

Lemma emits_ws_recv ws :
  (forall frame, P [EvRecv ws frame]) -> (forall e, P [EvRecvFailed ws e]) ->
  emits P (ws_recv ws).
Proof.
  intros Hr Hf w. unfold ws_recv.
  destruct (inbox w) as [|[text|e] rest].
  - exists []. rewrite app_nil_r. split; [reflexivity | exact P_nil].
  - exists [EvRecv ws text]. split; [reflexivity | apply Hr].
  - exists [EvRecvFailed ws e]. split; [reflexivity | apply Hf].
Qed.

Lemma emits_with {A} ws (c : M A) :
  P [EvClose ws] -> emits P c -> emits P (with_ ws c).
Proof.
  intros Hclose Hc w. unfold with_.
  destruct (Hc w) as (e1 & Ht1 & HP1).
  destruct (c w) as [[a|e| |] w1]; cbn [snd] in Ht1.
  - exists (e1 ++ [EvClose ws])%list. cbn [snd emit trace].
    rewrite Ht1, app_assoc. split; [reflexivity | apply P_app; assumption].
  - exists (e1 ++ [EvClose ws])%list. cbn [snd emit trace].
    rewrite Ht1, app_assoc. split; [reflexivity | apply P_app; assumption].
  - exists e1. split; assumption.
  - exists e1. split; assumption.
Qed.

Lemma emits_while_true {R} (fuel : nat) (body : M (option R)) :
  emits P body -> emits P (while_true fuel body).
Proof.
  intros Hbody. induction fuel as [|n IH]; cbn [while_true].
  - apply emits_stop.
  - apply emits_bind; [exact Hbody|].
    intros [v|]; [apply emits_ret | exact IH].
Qed.

End Footprint.

Section FootprintOfTheDownloader.

Context {J : JsonModule}.
Variable info : info_dict.
Variable verbose : bool.
Variable user_agent : string.

Variable P : list event -> Prop.
Hypothesis P_nil : P [].
Hypothesis P_app : forall a b, P a -> P b -> P (a ++ b)%list.
Hypothesis P_loop : forall ws ev, loop_event ws ev = true -> P [ev].
Hypothesis P_close : forall ws, P [EvClose ws].
Hypothesis P_sleep : forall n, P [EvSleep n].
Hypothesis P_open : emits P (open_ws info verbose user_agent true).

Lemma emits_on_frame ws : emits P (on_frame verbose ws).
Proof using P_nil P_app P_loop.
  clear P_open P_close P_sleep.
  assert (Hsend : forall f, f = pong_frame \/ f = keepSeat_frame ->
                  emits P (ws_send ws f)).
  { intros f Hf. apply emits_ws_send; [|intros e]; apply (P_loop ws);
      cbn; rewrite Nat.eqb_refl; destruct Hf as [-> | ->]; reflexivity. }
  assert (Hlog : forall ev, loop_event ws ev = true -> emits P (log ev)).
  { intros ev Hev. apply emits_log, (P_loop ws), Hev. }
  unfold on_frame. apply emits_bind; try assumption.
  { apply emits_ws_recv; try assumption; intros x; apply (P_loop ws);
      cbn; apply Nat.eqb_refl. }
  intros recv. destruct (recv =? ""); [now apply emits_ret|].
  apply emits_bind; try assumption; [now apply emits_eval|].
  intros data. unfold dispatch.
  destruct (negb (truthy data) || negb (isinstance_dict data));
    [now apply emits_ret|].
  apply emits_bind; try assumption; [now apply emits_eval|].
  intros ty.
  destruct (eq_str ty "ping").
  { apply emits_bind; try assumption; [apply Hsend; now left|]. intros _.
    apply emits_bind; try assumption; [apply Hsend; now right|]. intros _.
    now apply emits_ret. }
  destruct (eq_str ty "disconnect").
  { apply emits_bind; try assumption; [now apply Hlog|]. intros _.
    now apply emits_ret. }
  destruct (eq_str ty "error").
  { apply emits_bind; try assumption; [now apply Hlog|]. intros _.
    apply emits_bind; try assumption; [now apply emits_eval|]. intros code.
    now apply emits_ret. }
  destruct verbose; [|now apply emits_ret].
  apply emits_bind; try assumption; [now apply Hlog|]. intros _.
  now apply emits_ret.
Qed.

Lemma emits_receive_loop fuel ws : emits P (receive_loop verbose fuel ws).
Proof using P_nil P_app P_loop P_close.
  unfold receive_loop.
  apply emits_with; try assumption; [apply P_close|].
  apply emits_while_true; try assumption. apply emits_on_frame.
Qed.

Lemma emits_communicate_ws fuel reconnect :
  emits P (communicate_ws info verbose user_agent fuel reconnect).
Proof.
  unfold communicate_ws. apply emits_bind; try assumption.
  - destruct reconnect; [exact P_open | now apply emits_ret].
  - intros ws. apply emits_receive_loop.
Qed.

Lemma emits_ws_main sessions fuel reconnect :
  emits P (ws_main info verbose user_agent sessions fuel reconnect).
Proof.
  revert reconnect. induction sessions as [|n IH]; intros reconnect.
  - now apply emits_stop.
  - intros w. cbn [ws_main].
    destruct (emits_communicate_ws fuel reconnect w) as (e1 & Ht1 & HP1).
    destruct (communicate_ws info verbose user_agent fuel reconnect w)
      as [[r|e| |] w1]; cbn [snd] in Ht1.
    + destruct (is_True r).
      * exists e1. split; assumption.
      * destruct (IH true w1) as (e2 & Ht2 & HP2). exists (e1 ++ e2)%list.
        rewrite Ht2, Ht1, app_assoc. split; [reflexivity | now apply P_app].
    + unfold bind, to_screen, sleep, log.
      destruct (IH true
                  (emit (EvSleep 10)
                     (emit (EvToScreen (connection_error_message info e)) w1)))
        as (e2 & Ht2 & HP2).
      exists (e1 ++ ([EvToScreen (connection_error_message info e)]
                     ++ [EvSleep 10] ++ e2))%list.
      rewrite Ht2. cbn [emit trace]. rewrite Ht1, <- !app_assoc.
      split; [reflexivity|].
      apply P_app; [exact HP1|]. apply P_app; [now apply (P_loop 0)|].
      apply P_app; [apply P_sleep | exact HP2].
    + exists e1. split; assumption.
    + exists e1. split; assumption.
Qed.

End FootprintOfTheDownloader.

(** ** The media download *)

Section MediaDelegate.

Context {J : JsonModule}.
Variable info : info_dict.
Variable verbose : bool.
Variable user_agent : string.

Lemma count_if_app p (a b : list event) :
  count_if p (a ++ b) = count_if p a + count_if p b.
Proof. unfold count_if. now rewrite filter_app, length_app. Qed.

Lemma count_if_interleave p (l r t : list event) :
  interleave l r t -> count_if p t = count_if p l + count_if p r.
Proof.
  induction 1 as [|a l r t _ IH|a l r t _ IH]; [reflexivity| |];
    unfold count_if in *; cbn [filter]; destruct (p a); cbn [List.length]; lia.
Qed.

(** No event of [ws_main] is a call of the media downloader. *)
Lemma ws_main_never_downloads sessions fuel reconnect w :
  count_if is_download
    (events_of (ws_main info verbose user_agent sessions fuel reconnect) w) = 0.
Proof.
  apply (emits_events_of (fun evs => count_if is_download evs = 0)).
  apply emits_ws_main.
  - reflexivity.
  - intros a b Ha Hb. rewrite count_if_app. lia.
  - intros ws [] H; try discriminate; reflexivity.
  - reflexivity.
  - reflexivity.
  - unfold open_ws.
    assert (Happ : forall a b : list event,
              count_if is_download a = 0 -> count_if is_download b = 0 ->
              count_if is_download (a ++ b) = 0).
    { intros a b Ha Hb. rewrite count_if_app. lia. }
    apply emits_bind; [exact Happ | now apply emits_WebSocket|]. intros ws.
    apply emits_bind; [exact Happ | |].
    { destruct verbose; [now apply emits_log | now apply emits_ret]. }
    intros _. apply emits_bind; [exact Happ | now apply emits_ws_send|].
    intros _. now apply emits_ret.
Qed.

Lemma real_download_events ffmpeg_download filename w :
  events_of (real_download info true ffmpeg_download filename) w =
    [EvThreadStart; EvDownload filename (new_info_dict info)].
Proof.
  unfold events_of, real_download, bind, log, eval. cbn [negb].
  destruct (ffmpeg_download filename (new_info_dict info));
    cbn [snd emit trace]; rewrite <- app_assoc, skipn_app, skipn_all,
    Nat.sub_diag; reflexivity.
Qed.

(** A transport that breaks at every [recv] makes [ws_main] open one new
    socket per session. *)
Lemma reconnects_each_session e fuel n :
  forall w,
    inbox w = repeat (Broken e) n ->
    send_faults w = [] -> connect_faults w = [] ->
    exists evs,
      trace (snd (ws_main info verbose user_agent n (S fuel) true w))
        = (trace w ++ evs)%list /\
      count_if is_connect evs = n.
Proof.
  induction n as [|n IH]; intros [inb sf cf ns tr] Hin Hsf Hcf;
    cbn [inbox send_faults connect_faults trace] in *; subst.
  - exists []. rewrite app_nil_r. split; reflexivity.
  - cbn [ws_main repeat].
    unfold communicate_ws, open_ws, receive_loop, with_, bind at 1 2 3 4,
      WebSocket, to_screen, log, ws_send, ret, emit.
    cbn [next_fault connect_faults send_faults inbox trace next_sock tl].
    destruct verbose; cbn [next_fault connect_faults send_faults inbox trace
                           next_sock tl];
      rewrite while_true_S; unfold on_frame, bind at 1, ws_recv;
      cbn [inbox send_faults connect_faults trace next_sock];
      unfold bind, to_screen, sleep, log, emit;
      cbn [inbox send_faults connect_faults trace next_sock];
      match goal with
      | |- context [ws_main _ _ _ n (S fuel) true ?w'] =>
          destruct (IH w' eq_refl eq_refl eq_refl) as (evs & Ht & Hn);
          rewrite Ht; cbn [trace]
      end;
      rewrite <- !app_assoc; eexists; (split; [reflexivity|]);
      rewrite !count_if_app, Hn; reflexivity.
Qed.

(** C7.  With [WebSocket] there, [real_download] starts the thread and calls
    the media downloader once; [ws_main], which the thread runs, never calls
    it.  So however the events of the two threads fall together, and for
    however many sessions and reconnects the thread is followed, the media
    downloader is called exactly once; and for every [n] there are runs of
    the thread with exactly [n] reconnects. *)
Theorem media_download_called_once
    (ffmpeg_download : string -> info_dict -> result bool) (filename : string) :
  (forall WebSocket_available wm wb sessions fuel t,
     WebSocket_available = true ->
     interleave
       (events_of (real_download info WebSocket_available ffmpeg_download filename) wm)
       (events_of (thread_target info verbose user_agent sessions fuel) wb) t ->
     count_if is_download t = 1 /\
     count_if is_download
       (events_of (thread_target info verbose user_agent sessions fuel) wb) = 0) /\
  (forall n, exists wb sessions fuel,
     count_if is_connect
       (events_of (thread_target info verbose user_agent sessions fuel) wb) = n).
Proof.
  split.
  - intros avail wm wb sessions fuel t -> Ht.
    pose proof (ws_main_never_downloads sessions fuel false wb) as Hbg.
    split; [|exact Hbg].
    rewrite (count_if_interleave _ _ _ _ Ht), real_download_events.
    unfold thread_target. rewrite Hbg. reflexivity.
  - intros n.
    exists (fresh_world (repeat (Broken connection_reset) (S n)) [] [] 1),
           (S n), 1.
    unfold thread_target, events_of, fresh_world. cbn [ws_main repeat trace List.length skipn].
    unfold communicate_ws, open_ws, receive_loop, with_, bind at 1 2, ret.
    rewrite while_true_S. unfold on_frame, bind at 1, ws_recv.
    cbn [inbox send_faults connect_faults trace next_sock].
    unfold bind, to_screen, sleep, log, emit.
    cbn [inbox send_faults connect_faults trace next_sock].
    match goal with
    | |- context [ws_main _ _ _ n 1 true ?w'] =>
        destruct (reconnects_each_session connection_reset 0 n w'
                    eq_refl eq_refl eq_refl) as (evs & Ht & Hn);
        rewrite Ht; cbn [trace]
    end.
    rewrite !count_if_app, Hn. reflexivity.
Qed.

End MediaDelegate.

(** ** The session-start frame *)

Section SessionStart.

Context {J : JsonModule}.
Variable info : info_dict.
Variable verbose : bool.
Variable user_agent : string.

Local Abbreviation start_frame := (json_dumps (startWatching info)).

Lemma events_of_snoc {A} (c : M A) (w : world) (evs : list event) :
  trace (snd (c w)) = (trace w ++ evs)%list -> events_of c w = evs.
Proof.
  intros H. unfold events_of.
  now rewrite H, skipn_app, skipn_all, Nat.sub_diag.
Qed.

Lemma open_ws_fresh_events w :
  next_fault (connect_faults w) = None ->
  events_of (open_ws info verbose user_agent true) w = fresh_open_events info verbose user_agent w.
Proof.
  intros Hc. apply events_of_snoc.
  unfold open_ws, fresh_open_events, bind at 1, WebSocket. rewrite Hc.
  unfold bind, to_screen, log, ws_send, ret, emit.
  destruct verbose; cbn [send_faults trace next_sock];
    destruct (next_fault (send_faults w)); cbn [snd trace];
    rewrite <- ?app_assoc; reflexivity.
Qed.

(** Every connection made is followed by one send of the start frame. *)
Lemma open_ws_balanced :
  emits (fun evs => count_if (is_send_of start_frame) evs = count_if is_connect evs)
        (open_ws info verbose user_agent true).
Proof.
  intros w. unfold open_ws, bind at 1, WebSocket.
  destruct (next_fault (connect_faults w)) as [e|].
  - eexists. split; [reflexivity | reflexivity].
  - unfold bind, to_screen, log, ws_send, ret, emit.
    destruct verbose; cbn [send_faults trace next_sock];
      destruct (next_fault (send_faults w)); cbn [snd trace];
      rewrite <- ?app_assoc; (eexists; split; [reflexivity|]);
      unfold count_if; cbn [filter is_send_of is_connect app];
      rewrite String.eqb_refl; reflexivity.
Qed.

Lemma loop_event_not_start ws ev :
  start_frame <> pong_frame -> start_frame <> keepSeat_frame ->
  loop_event ws ev = true ->
  is_send_of start_frame ev = false /\ is_connect ev = false.
Proof.
  intros Hp Hk H.
  assert (Hf : forall f, (f =? pong_frame) || (f =? keepSeat_frame) = true ->
               (f =? start_frame) = false).
  { intros f Hf. apply String.eqb_neq. intros ->.
    apply orb_true_iff in Hf as [Hf|Hf]; apply String.eqb_eq in Hf; congruence. }
  destruct ev; cbn in *; try discriminate; split; try reflexivity;
    apply andb_true_iff in H as [_ H]; apply Hf, H.
Qed.

(** C3.  With [reconnect = False] (the first pass of [ws_main])
    [communicate_ws] takes the socket of the extractor as it is and sends no
    start frame on it in the whole session.  With [reconnect = True], when
    the connection is made, it sends on the new socket, before the first
    [recv], one frame: [json.dumps] of the startWatching object, written
    out below, whose quality is [info_dict['live_quality']] and whose
    latency is [info_dict['live_latency']], each "high" when [info_dict] has
    no such key.  Over any run of the thread there are as many sends of the
    start frame as connections made. *)
Theorem session_start_once_per_fresh_open :
  start_frame <> pong_frame -> start_frame <> keepSeat_frame ->
  (forall w, open_ws info verbose user_agent false w = (Ret (Info.ws info), w)) /\
  (forall fuel w,
     count_if (is_send_of start_frame)
       (events_of (communicate_ws info verbose user_agent fuel false) w) = 0) /\
  (forall w,
     next_fault (connect_faults w) = None ->
     events_of (open_ws info verbose user_agent true) w = fresh_open_events info verbose user_agent w /\
     count_if (is_send_of start_frame) (fresh_open_events info verbose user_agent w) = 1) /\
  (forall sessions fuel w,
     let evs := events_of (thread_target info verbose user_agent sessions fuel) w in
     count_if (is_send_of start_frame) evs = count_if is_connect evs) /\
  startWatching info =
    JDict [
      ("type", JString "startWatching");
      ("data", JDict [
         ("stream", JDict [
            ("quality",
             JString match Info.live_quality info with
                     | Some quality => quality
                     | None => "high"
                     end);
            ("protocol", JString "hls+fmp4");
            ("latency",
             JString match Info.live_latency info with
                     | Some latency => latency
                     | None => "high"
                     end);
            ("chasePlay", JBool false) ]);
         ("room", JDict [
            ("protocol", JString "webSocket");
            ("commentable", JBool true) ]);
         ("reconnect", JBool true) ]) ].
Proof.
  intros Hp Hk.
  assert (Happ0 : forall a b : list event,
            count_if (is_send_of start_frame) a = 0 ->
            count_if (is_send_of start_frame) b = 0 ->
            count_if (is_send_of start_frame) (a ++ b) = 0).
  { intros a b Ha Hb. rewrite count_if_app. lia. }
  assert (Hloop : forall ws ev, loop_event ws ev = true ->
            count_if (is_send_of start_frame) [ev] = 0).
  { intros ws ev H. destruct (loop_event_not_start ws ev Hp Hk H) as [H1 _].
    unfold count_if. cbn [filter]. rewrite H1. reflexivity. }
  split; [reflexivity|]. split; [|split; [|split; [|reflexivity]]].
  - intros fuel w.
    apply (emits_events_of
             (fun evs => count_if (is_send_of start_frame) evs = 0)).
    unfold communicate_ws.
    apply emits_bind; [exact Happ0 | now apply emits_ret|]. intros ws.
    apply (emits_receive_loop verbose _ eq_refl Happ0 Hloop).
    reflexivity.
  - intros w Hc. split; [apply open_ws_fresh_events, Hc|].
    unfold fresh_open_events, count_if.
    destruct verbose; destruct (next_fault (send_faults w));
      cbn [filter is_send_of app]; rewrite String.eqb_refl; reflexivity.
  - intros sessions fuel w evs. subst evs. unfold thread_target.
    apply (emits_events_of
             (fun evs => count_if (is_send_of start_frame) evs
                         = count_if is_connect evs)).
    apply emits_ws_main.
    + reflexivity.
    + intros a b Ha Hb. rewrite !count_if_app. lia.
    + intros ws ev H. destruct (loop_event_not_start ws ev Hp Hk H) as [H1 H2].
      unfold count_if. cbn [filter]. rewrite H1, H2. reflexivity.
    + reflexivity.
    + reflexivity.
    + apply open_ws_balanced.
Qed.

End SessionStart.

(** ** Sockets open at once *)

Section OpenSockets.

Context {J : JsonModule}.
Variable info : info_dict.
Variable verbose : bool.
Variable user_agent : string.

Local Abbreviation start_frame := (json_dumps (startWatching info)).

Lemma live_after_app live a b :
  live_after live (a ++ b) = live_after (live_after live a) b.
Proof.
  revert live. induction a as [|ev a IH]; intros live; [reflexivity|].
  destruct ev; cbn [app live_after]; apply IH.
Qed.

Lemma live_after_cons live ev t :
  live_after live (ev :: t) = live_after (live_after live [ev]) t.
Proof. apply (live_after_app live [ev] t). Qed.

Lemma peak_open_app live a b :
  peak_open live (a ++ b) =
    Nat.max (peak_open live a) (peak_open (live_after live a) b).
Proof.
  revert live. induction a as [|ev a IH]; intros live.
  - cbn [app peak_open live_after]. destruct b; cbn [peak_open]; lia.
  - cbn [app peak_open]. rewrite IH, (live_after_cons live ev a). lia.
Qed.

Lemma inert_live_after live evs :
  Forall (fun ev => inert ev = true) evs -> live_after live evs = live.
Proof.
  induction 1 as [|ev evs Hev _ IH]; [reflexivity|].
  destruct ev; cbn [live_after]; try exact IH; discriminate.
Qed.

Lemma inert_peak_open live evs :
  Forall (fun ev => inert ev = true) evs -> peak_open live evs = List.length live.
Proof.
  induction 1 as [|ev evs Hev Hevs IH]; [reflexivity|].
  cbn [peak_open]. rewrite (inert_live_after live [ev]) by (constructor; auto).
  rewrite IH. lia.
Qed.

Lemma loop_event_inert ws ev : loop_event ws ev = true -> inert ev = true.
Proof. destruct ev; cbn; intros H; try reflexivity; discriminate. Qed.

Lemma loop_is_inert fuel ws :
  emits (Forall (fun ev => inert ev = true))
        (while_true fuel (on_frame verbose ws)).
Proof.
  apply emits_while_true.
  - apply Forall_nil.
  - intros a b Ha Hb. apply Forall_app. split; assumption.
  - apply emits_on_frame.
    + apply Forall_nil.
    + intros a b Ha Hb. apply Forall_app. split; assumption.
    + intros ws' ev H. apply Forall_cons; [|apply Forall_nil].
      apply (loop_event_inert ws' ev H).
Qed.

(** A session from its [with] on: inert events, and the closing of the
    socket if the session comes to an end. *)
Lemma receive_loop_shape fuel ws w :
  exists evs,
    Forall (fun ev => inert ev = true) evs /\
    trace (snd (receive_loop verbose fuel ws w)) =
      (trace w ++ evs
       ++ (if finished (fst (receive_loop verbose fuel ws w))
           then [EvClose ws] else []))%list.
Proof.
  unfold receive_loop, with_.
  destruct (loop_is_inert fuel ws w) as (evs & Ht & Hin). exists evs.
  split; [exact Hin|].
  destruct (while_true fuel (on_frame verbose ws) w) as [[r|e| |] w'];
    cbn [snd fst finished emit trace] in *; rewrite Ht, ?app_nil_r, ?app_assoc;
    reflexivity.
Qed.

Lemma count_if_app_zero p (a b : list event) :
  count_if p (a ++ b) = 0 -> count_if p a = 0 /\ count_if p b = 0.
Proof. unfold count_if. rewrite filter_app, length_app. lia. Qed.

(** The sockets open along a session from its [with] on, the socket [ws]
    being the one open when it starts. *)
Lemma receive_loop_one_socket fuel ws w :
  exists evs,
    trace (snd (receive_loop verbose fuel ws w)) = (trace w ++ evs)%list /\
    peak_open [ws] evs <= 1 /\
    (finished (fst (receive_loop verbose fuel ws w)) = true ->
     live_after [ws] evs = []).
Proof.
  destruct (receive_loop_shape fuel ws w) as (evs & Hin & Ht).
  eexists. split; [exact Ht|].
  rewrite peak_open_app, live_after_app, (inert_peak_open _ _ Hin),
    (inert_live_after _ _ Hin).
  destruct (finished (fst (receive_loop verbose fuel ws w))).
  - cbn. rewrite Nat.eqb_refl. cbn. split; [lia | reflexivity].
  - cbn. split; [lia | discriminate].
Qed.

Lemma WebSocket_ok url headers w :
  next_fault (connect_faults w) = None ->
  WebSocket url headers w = (Ret (next_sock w), connected url headers w).
Proof. intros H. unfold WebSocket. rewrite H. reflexivity. Qed.

Lemma announce_step (w : world) :
  exists said w',
    (if verbose then to_screen "[debug] Sending startWatching request"
     else ret tt) w = (Ret tt, w') /\
    trace w' = (trace w ++ said)%list /\
    send_faults w' = send_faults w /\
    inbox w' = inbox w /\
    connect_faults w' = connect_faults w /\
    Forall (fun ev => inert ev = true) said.
Proof.
  destruct verbose.
  - exists [EvToScreen "[debug] Sending startWatching request"]. eexists.
    split; [reflexivity|]. repeat split. repeat constructor.
  - exists [], w. split; [reflexivity|]. rewrite app_nil_r.
    repeat split. constructor.
Qed.

(** The sockets open along one session.  [live] is what is open when the
    session starts: the extractor's socket in the first, none afterwards. *)
Lemma communicate_ws_one_socket fuel reconnect w :
  let c := communicate_ws info verbose user_agent fuel reconnect in
  let live := if reconnect then [] else [Info.ws info] in
  exists evs,
    trace (snd (c w)) = (trace w ++ evs)%list /\
    (count_if (is_failed_send_of start_frame) evs = 0 ->
     peak_open live evs <= 1 /\
     (finished (fst (c w)) = true -> live_after live evs = [])).
Proof.
  intros c live. subst c live. unfold communicate_ws.
  destruct reconnect.
  - unfold open_ws.
    destruct (next_fault (connect_faults w)) as [e|] eqn:Hconn.
    + unfold bind at 1 2, WebSocket. rewrite Hconn.
      eexists. split; [reflexivity|]. intros _. cbn. split; [lia | reflexivity].
    + set (url := ws_url info). set (headers := ws_headers info user_agent).
      set (s := next_sock w).
      destruct (announce_step (connected url headers w))
        as (said & w2 & Hann & Hsaid & Hfaults & _ & _ & Hinert).
      assert (Hopen : forall k : sock -> M ws_return,
                bind (ws <- WebSocket url headers ;;
                      (if verbose
                       then to_screen "[debug] Sending startWatching request"
                       else ret tt) ;;
                      ws_send ws start_frame ;; ret ws) k w =
                bind (ws_send s start_frame ;; ret s) k w2).
      { intros k. unfold bind at 1 2.
        rewrite (WebSocket_ok url headers w Hconn).
        unfold bind at 1 2. rewrite Hann. reflexivity. }
      rewrite Hopen. clear Hopen.
      destruct (next_fault (send_faults w2)) as [e|] eqn:Hsend.
      * assert (Hfail : forall k : sock -> M ws_return,
                  bind (ws_send s start_frame ;; ret s) k w2 =
                  (Raise e, send_failed s start_frame e w2)).
        { intros k. unfold bind at 1 2.
          rewrite (ws_send_fails s start_frame w2 e Hsend). reflexivity. }
        rewrite Hfail. clear Hfail.
        exists ([EvConnect s url headers] ++ said
                ++ [EvSendFailed s start_frame e])%list.
        split.
        { cbn [snd send_failed trace]. rewrite Hsaid. cbn [connected trace].
          rewrite <- !app_assoc. reflexivity. }
        intros Hcount. exfalso.
        rewrite app_assoc in Hcount.
        apply count_if_app_zero in Hcount as [_ Hcount].
        unfold count_if in Hcount. cbn in Hcount.
        rewrite String.eqb_refl in Hcount. discriminate.
      * assert (Hsent : forall k : sock -> M ws_return,
                  bind (ws_send s start_frame ;; ret s) k w2 =
                  k s (sent s start_frame w2)).
        { intros k. unfold bind at 1 2.
          rewrite (ws_send_ok s start_frame w2 Hsend). reflexivity. }
        rewrite Hsent. clear Hsent.
        destruct (receive_loop_one_socket fuel s (sent s start_frame w2))
          as (evs & Ht & Hpeak & Hlive).
        set (pre := (said ++ [EvSend s start_frame])%list).
        exists ([EvConnect s url headers] ++ pre ++ evs)%list.
        split.
        { rewrite Ht. cbn [sent trace]. rewrite Hsaid. cbn [connected trace].
          subst pre. rewrite <- !app_assoc. reflexivity. }
        intros _.
        assert (Hpre : Forall (fun ev => inert ev = true) pre).
        { apply Forall_app. split; [exact Hinert | repeat constructor]. }
        cbn [app peak_open live_after List.length].
        rewrite (peak_open_app [s] pre evs), (live_after_app [s] pre evs),
          (inert_peak_open _ _ Hpre), (inert_live_after _ _ Hpre).
        cbn [List.length]. split; [lia | exact Hlive].
  - unfold open_ws, bind at 1, ret.
    destruct (receive_loop_one_socket fuel (ws_extractor info) w)
      as (evs & Ht & Hpeak & Hlive).
    exists evs. split; [exact Ht|]. intros _. split; assumption.
Qed.

Lemma ws_main_one_socket sessions fuel :
  forall (reconnect : bool) (w : world),
    let live := if reconnect then [] else [Info.ws info] in
    exists evs,
      trace (snd (ws_main info verbose user_agent sessions fuel reconnect w))
        = (trace w ++ evs)%list /\
      (count_if (is_failed_send_of start_frame) evs = 0 ->
       peak_open live evs <= 1).
Proof.
  induction sessions as [|n IH]; intros reconnect w live.
  - exists []. rewrite app_nil_r. split; [reflexivity|]. intros _.
    subst live. destruct reconnect; cbn; lia.
  - cbn [ws_main].
    destruct (communicate_ws_one_socket fuel reconnect w) as (e1 & Ht1 & H1).
    fold live in H1.
    destruct (communicate_ws info verbose user_agent fuel reconnect w)
      as [[r|e| |] w1]; cbn [fst snd finished] in *.
    + destruct (is_True r).
      * exists e1. split; [exact Ht1|]. intros Hc. apply (H1 Hc).
      * destruct (IH true w1) as (e2 & Ht2 & H2). cbn in H2.
        exists (e1 ++ e2)%list. rewrite Ht2, Ht1, app_assoc.
        split; [reflexivity|]. intros Hc.
        apply count_if_app_zero in Hc as [Hc1 Hc2].
        destruct (H1 Hc1) as [Hp Hl].
        rewrite peak_open_app, (Hl eq_refl). specialize (H2 Hc2). lia.
    + unfold bind, to_screen, sleep, log.
      set (said := EvToScreen (connection_error_message info e)).
      destruct (IH true (emit (EvSleep 10) (emit said w1)))
        as (e2 & Ht2 & H2). cbn in H2.
      exists (e1 ++ [said; EvSleep 10] ++ e2)%list.
      rewrite Ht2. cbn [emit trace]. rewrite Ht1, <- !app_assoc.
      split; [reflexivity|]. intros Hc.
      apply count_if_app_zero in Hc as [Hc1 Hc2].
      apply count_if_app_zero in Hc2 as [_ Hc2].
      destruct (H1 Hc1) as [Hp Hl].
      rewrite peak_open_app, (Hl eq_refl), peak_open_app.
      specialize (H2 Hc2). subst said.
      cbn [peak_open live_after List.length]. lia.
    + exists e1. split; [exact Ht1|]. intros Hc. apply (H1 Hc).
    + exists e1. split; [exact Ht1|]. intros Hc. apply (H1 Hc).
Qed.

(** X1.  Where the sockets are released.  Along any run of the thread in which no
    send of the start frame fails, at most one socket is open at any time:
    every way out of the [with] block (a return, a failed [recv] or [send],
    a frame that is no JSON) and a failed connection leave no socket open
    when the next one is opened. *)
Theorem one_socket_unless_start_send_fails sessions fuel w :
  let evs := events_of (thread_target info verbose user_agent sessions fuel) w in
  count_if (is_failed_send_of start_frame) evs = 0 ->
  peak_open [Info.ws info] evs <= 1.
Proof.
  intros evs. subst evs. unfold thread_target.
  destruct (ws_main_one_socket sessions fuel false w) as (evs & Ht & H).
  rewrite (events_of_snoc _ _ _ Ht). exact H.
Qed.

End OpenSockets.

(** ** Enough fuel

    The bounds [sessions] and [fuel] belong to the model, not to the
    program.  A world holds finitely many arrivals and faults; with bounds
    above what it holds, [ws_main] never stops at a bound: it returns, or it
    waits in [recv] for ever. *)

Section EnoughFuel.

Context {J : JsonModule}.
Variable info : info_dict.
Variable verbose : bool.
Variable user_agent : string.

Lemma tl_length_le {A} (l : list A) : List.length (tl l) <= List.length l.
Proof. destruct l; cbn; lia. Qed.

Lemma no_more_refl w : no_more w w.
Proof. unfold no_more. lia. Qed.

Lemma no_more_trans w1 w2 w3 : no_more w1 w2 -> no_more w2 w3 -> no_more w1 w3.
Proof. unfold no_more. lia. Qed.

Lemma tame_ret {A} (a : A) : tame (ret a).
Proof. intros w. split; [apply no_more_refl | discriminate]. Qed.

Lemma tame_eval {A} (r : result A) : tame (eval r).
Proof. intros w. destruct r; (split; [apply no_more_refl | discriminate]). Qed.

Lemma tame_log ev : tame (log ev).
Proof. intros w. split; [unfold no_more; cbn; lia | discriminate]. Qed.

Lemma tame_ws_send ws frame : tame (ws_send ws frame).
Proof.
  intros w. unfold ws_send.
  pose proof (tl_length_le (send_faults w)).
  destruct (next_fault (send_faults w)); (split; [|discriminate]);
    unfold no_more; cbn; lia.
Qed.

Lemma tame_bind {A B} (c : M A) (k : A -> M B) :
  tame c -> (forall a, tame (k a)) -> tame (bind c k).
Proof.
  intros Hc Hk w. unfold bind. destruct (Hc w) as [Hn Hf].
  destruct (c w) as [[a|e| |] w1]; cbn [fst snd] in *.
  - destruct (Hk a w1) as [Hn' Hf']. split; [|exact Hf'].
    eapply no_more_trans; eassumption.
  - split; [exact Hn | discriminate].
  - split; [exact Hn | discriminate].
  - congruence.
Qed.

Lemma tame_dispatch ws recv data : tame (dispatch verbose ws recv data).
Proof.
  unfold dispatch.
  destruct (negb (truthy data) || negb (isinstance_dict data));
    [apply tame_ret|].
  apply tame_bind; [apply tame_eval|]. intros ty.
  destruct (eq_str ty "ping").
  { repeat (apply tame_bind; [apply tame_ws_send | intros _]). apply tame_ret. }
  destruct (eq_str ty "disconnect").
  { apply tame_bind; [apply tame_log | intros _; apply tame_ret]. }
  destruct (eq_str ty "error").
  { apply tame_bind; [apply tame_log | intros _].
    apply tame_bind; [apply tame_eval | intros message; apply tame_ret]. }
  destruct verbose; [|apply tame_ret].
  apply tame_bind; [apply tame_log | intros _; apply tame_ret].
Qed.

(** One pass: it is no loop, and when it goes round again or ends the
    session it has taken an arrival. *)
Lemma on_frame_takes ws w :
  no_more w (snd (on_frame verbose ws w)) /\
  fst (on_frame verbose ws w) <> OutOfFuel /\
  (finished (fst (on_frame verbose ws w)) = true ->
   List.length (inbox (snd (on_frame verbose ws w))) < List.length (inbox w)).
Proof.
  destruct (inbox w) as [|[recv|e] rest] eqn:Hin.
  - assert (Hrun : on_frame verbose ws w = (Blocked, w)).
    { unfold on_frame, bind, ws_recv. rewrite Hin. reflexivity. }
    rewrite Hrun. cbn [fst snd finished].
    split; [apply no_more_refl|]. split; [discriminate | discriminate].
  - set (k := fun recv : string =>
                if recv =? "" then ret None
                else data <- eval (json_loads recv) ;;
                     dispatch verbose ws recv data).
    assert (Hrun : on_frame verbose ws w = k recv (after_recv ws recv rest w)).
    { unfold on_frame.
      apply (bind_ret_l _ _ _ _ _ (ws_recv_frame ws w recv rest Hin)). }
    rewrite Hrun.
    assert (Hk : tame (k recv)).
    { subst k. cbn beta. destruct (recv =? ""); [apply tame_ret|].
      apply tame_bind; [apply tame_eval | intros data; apply tame_dispatch]. }
    destruct (Hk (after_recv ws recv rest w)) as [Hn Hf].
    unfold no_more in *. rewrite Hin. cbn [after_recv inbox send_faults
      connect_faults List.length] in *.
    split; [lia|]. split; [exact Hf | lia].
  - assert (Hrun : on_frame verbose ws w =
                   (Raise e,
                    World rest (send_faults w) (connect_faults w) (next_sock w)
                          (trace w ++ [EvRecvFailed ws e]))).
    { unfold on_frame, bind, ws_recv. rewrite Hin. reflexivity. }
    rewrite Hrun. cbn [fst snd finished].
    unfold no_more. rewrite Hin. cbn [inbox send_faults connect_faults List.length].
    split; [lia|]. split; [discriminate | lia].
Qed.

Lemma while_true_enough fuel ws :
  forall w,
    List.length (inbox w) < fuel ->
    let out := while_true fuel (on_frame verbose ws) w in
    no_more w (snd out) /\
    fst out <> OutOfFuel /\
    (finished (fst out) = true ->
     List.length (inbox (snd out)) < List.length (inbox w)).
Proof.
  induction fuel as [|n IH]; intros w Hlen; [lia|].
  cbn zeta. rewrite while_true_S.
  destruct (on_frame_takes ws w) as (Hn & Hf & Ht).
  destruct (on_frame verbose ws w) as [[[r|]|e| |] w1];
    cbn [fst snd finished] in *.
  - split; [exact Hn|]. split; [discriminate | exact Ht].
  - specialize (Ht eq_refl).
    destruct (IH w1 ltac:(lia)) as (Hn' & Hf' & Ht').
    split; [eapply no_more_trans; eassumption|]. split; [exact Hf'|].
    intros Hfin. specialize (Ht' Hfin). lia.
  - split; [exact Hn|]. split; [discriminate | exact Ht].
  - split; [exact Hn|]. split; [discriminate | discriminate].
  - congruence.
Qed.

Lemma receive_loop_enough fuel ws w :
  List.length (inbox w) < fuel ->
  let out := receive_loop verbose fuel ws w in
  no_more w (snd out) /\
  fst out <> OutOfFuel /\
  (finished (fst out) = true -> pending (snd out) < pending w).
Proof.
  intros Hlen. unfold receive_loop, with_.
  destruct (while_true_enough fuel ws w Hlen) as (Hn & Hf & Ht).
  destruct (while_true fuel (on_frame verbose ws) w) as [[r|e| |] w1];
    cbn [fst snd finished] in *; (split; [exact Hn|]);
    (split; [try discriminate; exact Hf|]); intros Hfin;
    try discriminate; specialize (Ht eq_refl);
    unfold pending, no_more in *; cbn [emit inbox send_faults connect_faults];
    lia.
Qed.

Lemma next_fault_takes (l : list (option exn)) (e : exn) :
  next_fault l = Some e -> List.length (tl l) < List.length l.
Proof. destruct l as [|[x|] l]; cbn; intros H; try discriminate; lia. Qed.

(** One session: it never stops at the bound, and when it ends it has taken
    an arrival or a fault. *)
Lemma communicate_ws_enough fuel reconnect w :
  List.length (inbox w) < fuel ->
  let out := communicate_ws info verbose user_agent fuel reconnect w in
  no_more w (snd out) /\
  fst out <> OutOfFuel /\
  (finished (fst out) = true -> pending (snd out) < pending w).
Proof.
  intros Hlen. cbn zeta. unfold communicate_ws. destruct reconnect.
  - unfold open_ws.
    set (url := ws_url info). set (headers := ws_headers info user_agent).
    destruct (next_fault (connect_faults w)) as [e|] eqn:Hconn.
    + assert (Hrun : forall k : sock -> M ws_return,
                bind (ws <- WebSocket url headers ;;
                      (if verbose
                       then to_screen "[debug] Sending startWatching request"
                       else ret tt) ;;
                      ws_send ws (json_dumps (startWatching info)) ;; ret ws) k w =
                (Raise e,
                 World (inbox w) (send_faults w) (tl (connect_faults w))
                       (next_sock w)
                       (trace w ++ [EvConnectFailed url headers e]))).
      { intros k. unfold bind, WebSocket. rewrite Hconn. reflexivity. }
      rewrite Hrun. pose proof (next_fault_takes _ _ Hconn).
      unfold no_more, pending. cbn. split; [lia|]. split; [discriminate | lia].
    + destruct (announce_step verbose (connected url headers w))
        as (said & w2 & Hann & _ & Hsf & Hin & Hcf & _).
      assert (Hopen : forall k : sock -> M ws_return,
                bind (ws <- WebSocket url headers ;;
                      (if verbose
                       then to_screen "[debug] Sending startWatching request"
                       else ret tt) ;;
                      ws_send ws (json_dumps (startWatching info)) ;; ret ws) k w =
                bind (ws_send (next_sock w) (json_dumps (startWatching info)) ;;
                      ret (next_sock w)) k w2).
      { intros k. unfold bind at 1 2.
        rewrite (WebSocket_ok url headers w Hconn).
        unfold bind at 1 2. rewrite Hann. reflexivity. }
      rewrite Hopen. clear Hopen.
      pose proof (tl_length_le (connect_faults w)) as Hc.
      pose proof (tl_length_le (send_faults w2)) as Hs.
      cbn [connected inbox send_faults connect_faults] in Hsf, Hin, Hcf.
      set (s := next_sock w). set (start := json_dumps (startWatching info)).
      destruct (next_fault (send_faults w2)) as [e|] eqn:Hsend.
      * assert (Hfail : forall k : sock -> M ws_return,
                  bind (ws_send s start ;; ret s) k w2 =
                  (Raise e, send_failed s start e w2)).
        { intros k. unfold bind at 1 2.
          rewrite (ws_send_fails s start w2 e Hsend). reflexivity. }
        rewrite Hfail. pose proof (next_fault_takes _ _ Hsend).
        unfold no_more, pending.
        cbn [fst snd finished send_failed inbox send_faults connect_faults].
        rewrite ?Hsf, ?Hin, ?Hcf in *.
        split; [lia|]. split; [discriminate | lia].
      * assert (Hsent : forall k : sock -> M ws_return,
                  bind (ws_send s start ;; ret s) k w2 = k s (sent s start w2)).
        { intros k. unfold bind at 1 2.
          rewrite (ws_send_ok s start w2 Hsend). reflexivity. }
        rewrite Hsent.
        destruct (receive_loop_enough fuel s (sent s start w2))
          as (Hn & Hf & Ht).
        { cbn [sent inbox]. rewrite Hin. exact Hlen. }
        unfold no_more, pending in *.
        cbn [sent inbox send_faults connect_faults] in *.
        rewrite ?Hsf, ?Hin, ?Hcf in *.
        split; [lia|]. split; [exact Hf|]. intros Hfin. specialize (Ht Hfin). lia.
  - unfold open_ws, bind at 1, ret.
    exact (receive_loop_enough fuel (ws_extractor info) w Hlen).
Qed.

(** X2.  With bounds above what the world holds, [ws_main] returns or waits in
    [recv] for ever: it does not stop at a bound, and it does not raise. *)
Theorem ws_main_returns_or_waits sessions fuel :
  forall (reconnect : bool) (w : world),
    pending w < sessions ->
    List.length (inbox w) < fuel ->
    let out := ws_main info verbose user_agent sessions fuel reconnect w in
    fst out = Ret tt \/ fst out = Blocked.
Proof.
  induction sessions as [|n IH]; intros reconnect w Hp Hlen; [lia|].
  cbn zeta. cbn [ws_main].
  destruct (communicate_ws_enough fuel reconnect w Hlen) as (Hn & Hf & Ht).
  destruct (communicate_ws info verbose user_agent fuel reconnect w)
    as [[r|e| |] w1]; cbn [fst snd finished] in *.
  - destruct (is_True r); [left; reflexivity|].
    specialize (Ht eq_refl). destruct Hn as [Hn _].
    apply IH; lia.
  - unfold bind, to_screen, sleep, log. specialize (Ht eq_refl).
    destruct Hn as [Hn _].
    apply IH; unfold pending in *; cbn [emit inbox send_faults connect_faults];
      lia.
  - right. reflexivity.
  - congruence.
Qed.

End EnoughFuel.

(** * Further properties of the control channel *)

Section ControlChannel.

Context {J : JsonModule}.
Variable info : info_dict.
Variable verbose : bool.
Variable user_agent : string.

(** A pass returns [True] only from the branch of a disconnect frame, whose
    last act is [write_debug]. *)
Lemma on_frame_returns_True ws w w' :
  on_frame verbose ws w = (Ret (Some ReturnTrue), w') ->
  exists t d,
    trace w' = (t ++ [EvWriteDebug (JDict d)])%list /\
    dict_lookup d "type" = Some (JString "disconnect").
Proof.
  unfold on_frame, bind at 1, ws_recv.
  destruct (inbox w) as [|[recv|e] rest]; try discriminate.
  destruct (recv =? ""); [discriminate|].
  unfold bind at 1, eval at 1.
  destruct (json_loads recv) as [data|e]; [|discriminate].
  unfold dispatch.
  destruct (negb (truthy data) || negb (isinstance_dict data)); [discriminate|].
  unfold bind at 1, eval at 1, py_get.
  destruct data as [| | | | | | | |d]; try discriminate.
  destruct (dict_lookup d "type") as [ty|] eqn:Hty.
  - destruct (eq_str ty "ping") eqn:Hping.
    { unfold bind, ws_send.
      repeat match goal with
             | |- context [next_fault ?l] => destruct (next_fault l)
             end; discriminate. }
    destruct (eq_str ty "disconnect") eqn:Hdis.
    + intros H. injection H as <-.
      destruct ty; try discriminate. cbn in Hdis.
      apply String.eqb_eq in Hdis. subst.
      eexists. exists d. split; [reflexivity | exact Hty].
    + destruct (eq_str ty "error").
      { unfold bind, write_debug, log, eval.
        destruct (try_get _ _ _); discriminate. }
      destruct verbose; discriminate.
  - cbn. destruct verbose; discriminate.
Qed.

Lemma while_true_returns_True fuel ws :
  forall w w',
    while_true fuel (on_frame verbose ws) w = (Ret ReturnTrue, w') ->
    exists t d,
      trace w' = (t ++ [EvWriteDebug (JDict d)])%list /\
      dict_lookup d "type" = Some (JString "disconnect").
Proof.
  induction fuel as [|n IH]; intros w w'; [discriminate|].
  rewrite while_true_S.
  destruct (on_frame verbose ws w) as [[[r|]|e| |] w1] eqn:Hpass;
    try discriminate.
  - intros H. injection H as -> <-. exact (on_frame_returns_True ws w w1 Hpass).
  - apply IH.
Qed.

(** X3.  [ws_main] returns only after a disconnect.  When a run of [ws_main]
    returns, the last things done are the [write_debug] of a frame whose
    type is "disconnect" and the closing of the socket it came on. *)
Theorem ws_main_returns_only_on_disconnect sessions fuel :
  forall (reconnect : bool) (w : world),
    fst (ws_main info verbose user_agent sessions fuel reconnect w) = Ret tt ->
    exists t d ws,
      trace (snd (ws_main info verbose user_agent sessions fuel reconnect w)) =
        (t ++ [EvWriteDebug (JDict d); EvClose ws])%list /\
      dict_lookup d "type" = Some (JString "disconnect").
Proof.
  induction sessions as [|n IH]; intros reconnect w; [discriminate|].
  cbn [ws_main].
  destruct (communicate_ws info verbose user_agent fuel reconnect w)
    as [[r|e| |] w1] eqn:Hc; try discriminate.
  - destruct r as [|message]; cbn [is_True]; [|apply IH].
    intros _. cbn [snd].
    unfold communicate_ws, bind in Hc.
    destruct (open_ws info verbose user_agent reconnect w) as [[ws|e| |] w0];
      try discriminate.
    unfold receive_loop, with_ in Hc.
    destruct (while_true fuel (on_frame verbose ws) w0) as [[r|e| |] w2] eqn:Hl;
      try discriminate.
    injection Hc as -> <-.
    destruct (while_true_returns_True fuel ws w0 w2 Hl) as (t & d & Ht & Hd).
    exists t, d, ws. split; [|exact Hd].
    cbn [emit trace]. rewrite Ht, <- app_assoc. reflexivity.
  - unfold bind, to_screen, sleep, log. apply IH.
Qed.

Lemma on_frame_silent ws w recv rest :
  inbox w = Frame recv :: rest ->
  silent recv = true ->
  on_frame verbose ws w = (Ret None, after_recv ws recv rest w).
Proof.
  intros Hin Hs. unfold silent in Hs.
  destruct (String.eqb_spec recv "") as [->|Hne].
  - unfold on_frame.
    rewrite (bind_ret_l _ _ _ _ _ (ws_recv_frame ws w "" rest Hin)).
    reflexivity.
  - cbn [orb] in Hs.
    destruct (json_loads recv) as [data|e] eqn:Hdata; [|discriminate].
    rewrite (on_frame_decoded _ _ _ _ _ _ Hin Hne Hdata).
    unfold dispatch. rewrite Hs. reflexivity.
Qed.

(** X4.  Frames that are passed over leave no mark.  A run of frames that are
    empty or decode to a value that is false or no dict is consumed one
    frame a pass, with nothing sent and nothing printed whatever [verbose]
    is, and the loop then goes on as if it had started after them. *)
Theorem silent_frames_are_passed_over ws (frames : list string) :
  forall (m : nat) (w : world) (rest : list arrival),
    Forall (fun recv => silent recv = true) frames ->
    inbox w = (map Frame frames ++ rest)%list ->
    let w' :=
      World rest (send_faults w) (connect_faults w) (next_sock w)
            (trace w ++ map (EvRecv ws) frames) in
    comes_to (on_frame verbose ws) (List.length frames + m) w m w' /\
    while_true (List.length frames + m) (on_frame verbose ws) w =
      while_true m (on_frame verbose ws) w'.
Proof.
  induction frames as [|recv frames IH]; intros m w rest Hall Hin w'.
  - assert (Hw : w' = w).
    { subst w'. destruct w; cbn in *. subst. rewrite app_nil_r. reflexivity. }
    rewrite Hw. split; [apply comes_here | reflexivity].
  - inversion Hall as [|x l Hs Hrest]; subst.
    cbn [map app] in Hin.
    pose proof (on_frame_silent ws w recv _ Hin Hs) as Hpass.
    destruct (IH m (after_recv ws recv (map Frame frames ++ rest) w) rest
                Hrest eq_refl) as [Hc Hw].
    assert (Heq : w' =
              World rest
                (send_faults (after_recv ws recv (map Frame frames ++ rest) w))
                (connect_faults (after_recv ws recv (map Frame frames ++ rest) w))
                (next_sock (after_recv ws recv (map Frame frames ++ rest) w))
                (trace (after_recv ws recv (map Frame frames ++ rest) w)
                 ++ map (EvRecv ws) frames)).
    { subst w'. cbn [after_recv send_faults connect_faults next_sock trace map].
      rewrite <- app_assoc. reflexivity. }
    rewrite Heq. cbn [List.length Nat.add]. split.
    + eapply comes_later; [exact Hpass | exact Hc].
    + rewrite while_true_S, Hpass. exact Hw.
Qed.

Lemma Forall_connects_app url headers (a b : list event) :
  Forall (connects_to url headers) a -> Forall (connects_to url headers) b ->
  Forall (connects_to url headers) (a ++ b).
Proof. intros Ha Hb. apply Forall_app. split; assumption. Qed.

(** X5.  [ws_main] connects nowhere else.  Every connection made or tried in a
    run of [ws_main] goes to [info_dict['url']], with the four headers made
    from the cookies (the empty string when [info_dict] has none), the
    origin host and the user agent. *)
Theorem connections_go_to_the_given_url sessions fuel reconnect w :
  Forall (connects_to (Info.url info)
            [ ("Cookie", match Info.cookies info with
                         | Some cookies => cookies
                         | None => ""
                         end);
              ("Origin", "https://" ++ Info.origin info);
              ("Accept", "*/*");
              ("User-Agent", user_agent) ])
         (events_of (ws_main info verbose user_agent sessions fuel reconnect) w).
Proof.
  set (url := Info.url info).
  set (headers := [ ("Cookie", _); _; _; _ ]).
  apply (emits_events_of (Forall (connects_to url headers))).
  apply emits_ws_main.
  - constructor.
  - apply Forall_connects_app.
  - intros ws ev H. constructor; [|constructor].
    destruct ev; try discriminate; exact I.
  - intros ws. constructor; [exact I | constructor].
  - intros n. constructor; [exact I | constructor].
  - unfold open_ws.
    apply emits_bind; [apply Forall_connects_app | |].
    + apply emits_WebSocket; intros x; (constructor; [|constructor]);
        split; reflexivity.
    + intros ws.
      apply emits_bind; [apply Forall_connects_app | |].
      * destruct verbose; [apply emits_log | apply emits_ret]; repeat constructor.
      * intros _. apply emits_bind; [apply Forall_connects_app | |].
        -- apply emits_ws_send; [|intros e]; repeat constructor.
        -- intros _. apply emits_ret. constructor.
Qed.

Lemma well_used_app live a b :
  well_used live (a ++ b) <->
  well_used live a /\ well_used (live_after live a) b.
Proof.
  revert live. induction a as [|ev a IH]; intros live.
  - cbn. tauto.
  - cbn [app well_used]. rewrite IH, (live_after_cons live ev a). tauto.
Qed.

(** The events of a loop on [ws] use [ws] only: they are well used as long
    as [ws] is open, and leave the open sockets as they are. *)
Lemma loop_events_well_used ws live evs :
  Forall (fun ev => loop_event ws ev = true) evs ->
  In ws live ->
  well_used live evs /\ live_after live evs = live.
Proof.
  intros Hall Hin. induction Hall as [|ev evs Hev _ IH]; [split; [exact I | reflexivity]|].
  destruct IH as [IHw IHl].
  assert (Hone : live_after live [ev] = live).
  { apply inert_live_after. constructor; [|constructor].
    apply (loop_event_inert ws ev Hev). }
  rewrite (live_after_cons live ev evs), Hone. split; [|exact IHl].
  cbn [well_used]. rewrite Hone. split; [|exact IHw].
  destruct ev; cbn in *; try exact I; try discriminate;
    try (apply Nat.eqb_eq in Hev; subst; exact Hin);
    apply andb_true_iff in Hev as [Hev _]; apply Nat.eqb_eq in Hev; subst;
    exact Hin.
Qed.

Lemma loop_is_on_its_socket fuel ws :
  emits (Forall (fun ev => loop_event ws ev = true))
        (while_true fuel (on_frame verbose ws)).
Proof.
  assert (Happ : forall a b : list event,
            Forall (fun ev => loop_event ws ev = true) a ->
            Forall (fun ev => loop_event ws ev = true) b ->
            Forall (fun ev => loop_event ws ev = true) (a ++ b)).
  { intros a b Ha Hb. apply Forall_app. split; assumption. }
  assert (Hone : forall ev, loop_event ws ev = true ->
                 Forall (fun ev => loop_event ws ev = true) [ev]).
  { intros ev H. constructor; [exact H | constructor]. }
  assert (Hsend : forall f, f = pong_frame \/ f = keepSeat_frame ->
            emits (Forall (fun ev => loop_event ws ev = true)) (ws_send ws f)).
  { intros f Hf. apply emits_ws_send; [|intros e]; apply Hone; cbn;
      rewrite Nat.eqb_refl; destruct Hf as [-> | ->]; reflexivity. }
  apply emits_while_true; [constructor | exact Happ|].
  unfold on_frame. apply emits_bind; [exact Happ | |].
  { apply emits_ws_recv; [constructor | |]; intros x; apply Hone; cbn;
      apply Nat.eqb_refl. }
  intros recv. destruct (recv =? ""); [apply emits_ret; constructor|].
  apply emits_bind; [exact Happ | apply emits_eval; constructor|].
  intros data. unfold dispatch.
  destruct (negb (truthy data) || negb (isinstance_dict data));
    [apply emits_ret; constructor|].
  apply emits_bind; [exact Happ | apply emits_eval; constructor|].
  intros ty.
  destruct (eq_str ty "ping").
  { apply emits_bind; [exact Happ | apply Hsend; now left|]. intros _.
    apply emits_bind; [exact Happ | apply Hsend; now right|]. intros _.
    apply emits_ret; constructor. }
  destruct (eq_str ty "disconnect").
  { apply emits_bind; [exact Happ | apply emits_log, Hone; reflexivity|].
    intros _. apply emits_ret; constructor. }
  destruct (eq_str ty "error").
  { apply emits_bind; [exact Happ | apply emits_log, Hone; reflexivity|].
    intros _.
    apply emits_bind; [exact Happ | apply emits_eval; constructor|].
    intros message. apply emits_ret; constructor. }
  destruct verbose; [|apply emits_ret; constructor].
  apply emits_bind; [exact Happ | apply emits_log, Hone; reflexivity|].
  intros _. apply emits_ret; constructor.
Qed.

Lemma receive_loop_well_used fuel ws w live :
  In ws live ->
  exists evs,
    trace (snd (receive_loop verbose fuel ws w)) = (trace w ++ evs)%list /\
    well_used live evs.
Proof.
  intros Hin. unfold receive_loop, with_.
  destruct (loop_is_on_its_socket fuel ws w) as (evs & Ht & Hall).
  destruct (loop_events_well_used ws live evs Hall Hin) as [Hw Hl].
  destruct (while_true fuel (on_frame verbose ws) w) as [[r|e| |] w'];
    cbn [snd emit trace] in *.
  - exists (evs ++ [EvClose ws])%list. rewrite Ht, app_assoc.
    split; [reflexivity|]. apply well_used_app. split; [exact Hw|].
    cbn. tauto.
  - exists (evs ++ [EvClose ws])%list. rewrite Ht, app_assoc.
    split; [reflexivity|]. apply well_used_app. split; [exact Hw|].
    cbn. tauto.
  - exists evs. split; assumption.
  - exists evs. split; assumption.
Qed.

Lemma announce_uses_no_socket (w : world) :
  exists said w',
    (if verbose then to_screen "[debug] Sending startWatching request"
     else ret tt) w = (Ret tt, w') /\
    trace w' = (trace w ++ said)%list /\
    send_faults w' = send_faults w /\
    forall live, well_used live said /\ live_after live said = live.
Proof.
  destruct verbose.
  - exists [EvToScreen "[debug] Sending startWatching request"]. eexists.
    split; [reflexivity|]. split; [reflexivity|]. split; [reflexivity|].
    intros live. cbn. tauto.
  - exists [], w. split; [reflexivity|]. rewrite app_nil_r.
    split; [reflexivity|]. split; [reflexivity|].
    intros live. cbn. tauto.
Qed.

Lemma communicate_ws_well_used fuel reconnect w live :
  (reconnect = false -> In (Info.ws info) live) ->
  exists evs,
    trace (snd (communicate_ws info verbose user_agent fuel reconnect w))
      = (trace w ++ evs)%list /\
    well_used live evs.
Proof.
  intros Hlive. unfold communicate_ws. destruct reconnect.
  - unfold open_ws.
    set (url := ws_url info). set (headers := ws_headers info user_agent).
    set (start := json_dumps (startWatching info)).
    destruct (next_fault (connect_faults w)) as [e|] eqn:Hconn.
    + exists [EvConnectFailed url headers e]. split; [|cbn; tauto].
      unfold bind, WebSocket. rewrite Hconn. reflexivity.
    + set (s := next_sock w).
      destruct (announce_uses_no_socket (connected url headers w))
        as (said & w2 & Hann & Hsaid & _ & Hquiet).
      assert (Hopen : forall k : sock -> M ws_return,
                bind (ws <- WebSocket url headers ;;
                      (if verbose
                       then to_screen "[debug] Sending startWatching request"
                       else ret tt) ;;
                      ws_send ws start ;; ret ws) k w =
                bind (ws_send s start ;; ret s) k w2).
      { intros k. unfold bind at 1 2.
        rewrite (WebSocket_ok url headers w Hconn).
        unfold bind at 1 2. rewrite Hann. reflexivity. }
      rewrite Hopen. clear Hopen.
      assert (Hs : In s (live ++ [s])) by (apply in_or_app; right; now left).
      pose proof (Hquiet (live ++ [s])%list) as Hsaidw.
      destruct (next_fault (send_faults w2)) as [e|] eqn:Hsend.
      * exists ([EvConnect s url headers] ++ said
                ++ [EvSendFailed s start e])%list.
        split.
        { unfold bind at 1 2.
          rewrite (ws_send_fails s start w2 e Hsend).
          cbn [snd send_failed trace]. rewrite Hsaid. cbn [connected trace].
          rewrite <- !app_assoc. reflexivity. }
        cbn [app well_used live_after]. split; [exact I|].
        apply well_used_app. destruct Hsaidw as [Hw Hl]. split; [exact Hw|].
        rewrite Hl. cbn. tauto.
      * assert (Hsent : forall k : sock -> M ws_return,
                  bind (ws_send s start ;; ret s) k w2 = k s (sent s start w2)).
        { intros k. unfold bind at 1 2.
          rewrite (ws_send_ok s start w2 Hsend). reflexivity. }
        rewrite Hsent.
        destruct (receive_loop_well_used fuel s (sent s start w2) (live ++ [s]) Hs)
          as (evs & Ht & Hw).
        exists ([EvConnect s url headers] ++ said ++ [EvSend s start] ++ evs)%list.
        split.
        { rewrite Ht. cbn [sent trace]. rewrite Hsaid. cbn [connected trace].
          rewrite <- !app_assoc. reflexivity. }
        cbn [app well_used live_after]. split; [exact I|].
        apply well_used_app. destruct Hsaidw as [Hw1 Hl]. split; [exact Hw1|].
        rewrite Hl. cbn [well_used used_socket live_after]. tauto.
  - unfold open_ws, bind at 1, ret.
    exact (receive_loop_well_used fuel (ws_extractor info) w live (Hlive eq_refl)).
Qed.

Lemma ws_main_well_used sessions fuel :
  forall (reconnect : bool) (w : world) (live : list sock),
    (reconnect = false -> In (Info.ws info) live) ->
    exists evs,
      trace (snd (ws_main info verbose user_agent sessions fuel reconnect w))
        = (trace w ++ evs)%list /\
      well_used live evs.
Proof.
  induction sessions as [|n IH]; intros reconnect w live Hlive.
  - exists (@nil event). rewrite app_nil_r. split; [reflexivity | exact I].
  - cbn [ws_main].
    destruct (communicate_ws_well_used fuel reconnect w live Hlive)
      as (e1 & Ht1 & Hw1).
    destruct (communicate_ws info verbose user_agent fuel reconnect w)
      as [[r|e| |] w1]; cbn [snd] in *.
    + destruct (is_True r).
      * exists e1. split; assumption.
      * destruct (IH true w1 (live_after live e1)) as (e2 & Ht2 & Hw2);
          [discriminate|].
        exists (e1 ++ e2)%list. rewrite Ht2, Ht1, app_assoc.
        split; [reflexivity|]. apply well_used_app. split; assumption.
    + unfold bind, to_screen, sleep, log.
      destruct (IH true
                  (emit (EvSleep 10)
                     (emit (EvToScreen (connection_error_message info e)) w1))
                  (live_after live e1)) as (e2 & Ht2 & Hw2); [discriminate|].
      exists (e1 ++ [EvToScreen (connection_error_message info e); EvSleep 10]
              ++ e2)%list.
      rewrite Ht2. cbn [emit trace]. rewrite Ht1, <- !app_assoc.
      split; [reflexivity|]. apply well_used_app. split; [exact Hw1|].
      cbn [app well_used used_socket live_after]. tauto.
    + exists e1. split; assumption.
    + exists e1. split; assumption.
Qed.

(** X6.  No socket is used after it is closed.  Along any run of the thread
    every send and every receive is on a socket that is open at that time:
    the extractor's socket until the first session ends, and afterwards the
    socket the session at hand has just connected. *)
Theorem sockets_are_used_while_open sessions fuel w :
  well_used [Info.ws info]
    (events_of (thread_target info verbose user_agent sessions fuel) w).
Proof.
  unfold thread_target.
  destruct (ws_main_well_used sessions fuel false w [Info.ws info])
    as (evs & Ht & Hw); [intros _; now left|].
  rewrite (events_of_snoc _ _ _ Ht). exact Hw.
Qed.

Lemma substring_length n s :
  String.length (substring 0 n s) = Nat.min n (String.length s).
Proof.
  revert s. induction n as [|n IH]; intros [|c s]; cbn; try reflexivity.
  now rewrite IH.
Qed.

Lemma substring_all s : substring 0 (String.length s) s = s.
Proof. induction s as [|c s IH]; cbn; [reflexivity | now rewrite IH]. Qed.

(** X7.  What is shown of a frame is bounded.  A frame of at most 100 characters
    is shown whole; a longer one is cut to its first 100 characters and
    three dots, 103 characters in all. *)
Theorem preview_is_the_frame_or_its_head (recv : string) :
  (String.length recv <= 100 -> preview recv = recv) /\
  (100 < String.length recv ->
   preview recv = substring 0 100 recv ++ "..." /\
   String.length (preview recv) = 103 /\
   substring 0 100 (preview recv) = substring 0 100 recv).
Proof.
  unfold preview. split; intros H.
  - destruct (Nat.ltb_spec 100 (String.length recv)); [lia | reflexivity].
  - destruct (Nat.ltb_spec 100 (String.length recv)) as [_|]; [|lia].
    split; [reflexivity|]. split.
    + rewrite append_length, substring_length.
      change (String.length "...") with 3. lia.
    + assert (Hl : String.length (substring 0 100 recv) = 100)
        by (rewrite substring_length; lia).
      generalize dependent (substring 0 100 recv). intros h Hl.
      rewrite <- Hl at 1. clear. induction h as [|c h IH]; cbn.
      * reflexivity.
      * now rewrite IH.
Qed.

End ControlChannel.

(** ** Failures and sleeps *)

Section Accounting.

Context {J : JsonModule}.
Variable info : info_dict.
Variable verbose : bool.
Variable user_agent : string.

Lemma settled_ret {A} (a : A) : achieves (ret a) settled.
Proof. intros w. exists []. cbn. rewrite app_nil_r. repeat split. Qed.

Lemma settled_eval {A} (r : result A) :
  (exists a, r = Ok a) -> achieves (eval r) settled.
Proof.
  intros [a ->] w. exists []. cbn. rewrite app_nil_r. repeat split.
Qed.

Lemma settled_log (ev : event) :
  is_sleep ev = false -> failure ev = false -> achieves (log ev) settled.
Proof.
  intros Hs Hf w. exists [ev]. unfold log, emit, settled, count_if. cbn.
  rewrite Hs, Hf. repeat split.
Qed.

Lemma settled_ws_send (ws : sock) (frame : string) :
  achieves (ws_send ws frame) settled.
Proof.
  intros w. unfold ws_send.
  destruct (next_fault (send_faults w)) as [e|]; eexists; cbn;
    (split; [reflexivity | split; reflexivity]).
Qed.

Lemma settled_WebSocket (url : string) (headers : list (string * string)) :
  achieves (WebSocket url headers) settled.
Proof.
  intros w. unfold WebSocket.
  destruct (next_fault (connect_faults w)) as [e|]; eexists; cbn;
    (split; [reflexivity | split; reflexivity]).
Qed.

Lemma settled_bind {A B} (c : M A) (k : A -> M B) :
  achieves c settled -> (forall a, achieves (k a) settled) ->
  achieves (bind c k) settled.
Proof.
  intros Hc Hk w. unfold bind.
  destruct (Hc w) as (evs1 & Ht1 & Hs1 & Hf1).
  destruct (c w) as [[a|e| |] w1]; cbn [fst snd] in *;
    try (exists evs1; repeat split; assumption).
  destruct (Hk a w1) as (evs2 & Ht2 & Hs2 & Hf2).
  exists (evs1 ++ evs2)%list. split; [now rewrite Ht2, Ht1, app_assoc|].
  split; rewrite count_if_app; lia.
Qed.

Lemma try_get_body_code_returns (data : json) :
  exists v, try_get data body_code isinstance_str = Ok v.
Proof.
  unfold try_get. destruct (body_code data) as [v|e] eqn:Hbody.
  - destruct (isinstance_str v); eauto.
  - rewrite (body_code_error_is_caught data e Hbody). eauto.
Qed.

Lemma dispatch_settled (ws : sock) (recv : string) (data : json) :
  achieves (dispatch verbose ws recv data) settled.
Proof.
  unfold dispatch.
  destruct (negb (truthy data) || negb (isinstance_dict data)) eqn:Hskip;
    [apply settled_ret|].
  apply settled_bind.
  { apply settled_eval. destruct data; cbn in Hskip;
      rewrite ?orb_true_r in Hskip; try discriminate. cbn. eauto. }
  intros ty. destruct (eq_str ty "ping").
  { apply settled_bind; [apply settled_ws_send|]. intros _.
    apply settled_bind; [apply settled_ws_send|]. intros _.
    apply settled_ret. }
  destruct (eq_str ty "disconnect").
  { apply settled_bind; [now apply settled_log|]. intros _. apply settled_ret. }
  destruct (eq_str ty "error").
  { apply settled_bind; [now apply settled_log|]. intros _.
    apply settled_bind; [apply settled_eval, try_get_body_code_returns|].
    intros message. apply settled_ret. }
  destruct verbose; [|apply settled_ret].
  apply settled_bind; [now apply settled_log|]. intros _. apply settled_ret.
Qed.

Lemma on_frame_settled (ws : sock) : achieves (on_frame verbose ws) settled.
Proof.
  intros w.
  destruct (inbox w) as [|[text|e] rest] eqn:Hin.
  - assert (Hrun : on_frame verbose ws w = (Blocked, w)).
    { unfold on_frame, bind, ws_recv. now rewrite Hin. }
    rewrite Hrun. exists []. cbn. rewrite app_nil_r. repeat split.
  - destruct (String.eqb_spec text "") as [->|Hne].
    + assert (Hrun : on_frame verbose ws w = (Ret None, after_recv ws "" rest w)).
      { unfold on_frame.
        now rewrite (bind_ret_l _ _ _ _ _ (ws_recv_frame ws w "" rest Hin)). }
      rewrite Hrun. exists [EvRecv ws ""]. cbn. repeat split.
    + assert (Hfail : failure (EvRecv ws text) =
                      match json_loads text with Ok _ => false | Err _ => true end).
      { cbn. apply String.eqb_neq in Hne. now rewrite Hne. }
      destruct (json_loads text) as [data|e] eqn:Hdata.
      * rewrite (on_frame_decoded verbose ws w text rest data Hin Hne Hdata).
        destruct (dispatch_settled ws text data (after_recv ws text rest w))
          as (evs & Ht & Hs & Hf).
        exists (EvRecv ws text :: evs). split.
        { rewrite Ht. cbn [after_recv trace]. now rewrite <- app_assoc. }
        unfold settled, count_if in *. cbn [filter is_sleep]. rewrite Hfail.
        auto.
      * rewrite (on_frame_undecodable verbose ws w text rest e Hin Hne Hdata).
        exists [EvRecv ws text]. split; [reflexivity|].
        unfold settled, count_if. cbn [filter is_sleep fst]. rewrite Hfail.
        split; reflexivity.
  - assert (Hrun : on_frame verbose ws w =
                   (Raise e, World rest (send_faults w) (connect_faults w)
                                   (next_sock w) (trace w ++ [EvRecvFailed ws e]))).
    { unfold on_frame, bind, ws_recv. now rewrite Hin. }
    rewrite Hrun. exists [EvRecvFailed ws e]. cbn. repeat split.
Qed.

Lemma while_true_settled {R} (fuel : nat) (body : M (option R)) :
  achieves body settled -> achieves (while_true fuel body) settled.
Proof.
  intros Hbody. induction fuel as [|fuel IH].
  - intros w. exists []. cbn. rewrite app_nil_r. repeat split.
  - cbn [while_true]. apply settled_bind; [exact Hbody|].
    intros [v|]; [apply settled_ret | exact IH].
Qed.

Lemma with_settled {A} (ws : sock) (body : M A) :
  achieves body settled -> achieves (with_ ws body) settled.
Proof.
  intros Hbody w. unfold with_.
  destruct (Hbody w) as (evs & Ht & Hs & Hf).
  destruct (body w) as [[a|e| |] w1]; cbn [fst snd] in *;
    try (exists evs; repeat split; assumption);
    (exists (evs ++ [EvClose ws])%list;
     unfold emit; cbn [trace];
     split; [now rewrite Ht, app_assoc|];
     split; rewrite count_if_snoc; cbn; lia).
Qed.

Lemma communicate_ws_settled (fuel : nat) (reconnect : bool) :
  achieves (communicate_ws info verbose user_agent fuel reconnect) settled.
Proof.
  unfold communicate_ws. apply settled_bind.
  - unfold open_ws. destruct reconnect; [|apply settled_ret].
    apply settled_bind; [apply settled_WebSocket|]. intros ws.
    apply settled_bind.
    { destruct verbose; [now apply settled_log | apply settled_ret]. }
    intros _. apply settled_bind; [apply settled_ws_send|]. intros _.
    apply settled_ret.
  - intros ws. unfold receive_loop. apply with_settled, while_true_settled,
      on_frame_settled.
Qed.

Lemma no_sleep_all_ten (evs : list event) :
  count_if is_sleep evs = 0 ->
  Forall (fun ev => is_sleep ev = true -> ev = EvSleep 10) evs.
Proof.
  unfold count_if. induction evs as [|ev evs IH]; [constructor|].
  cbn. destruct (is_sleep ev) eqn:Hev; [discriminate|].
  intros H. constructor; [congruence | auto].
Qed.

Lemma ws_main_accounted (sessions fuel : nat) :
  forall reconnect,
    achieves (ws_main info verbose user_agent sessions fuel reconnect) accounted.
Proof.
  induction sessions as [|sessions IH]; intros reconnect w.
  - exists []. cbn. rewrite app_nil_r. repeat split. constructor.
  - cbn [ws_main].
    destruct (communicate_ws_settled fuel reconnect w) as (evs1 & Ht1 & Hs1 & Hf1).
    destruct (communicate_ws info verbose user_agent fuel reconnect w)
      as [[r|e| |] w1]; cbn [fst snd] in *.
    + destruct (is_True r).
      * exists evs1. split; [exact Ht1|]. split; [lia|].
        now apply no_sleep_all_ten.
      * destruct (IH true w1) as (evs2 & Ht2 & Hc2 & Hten2).
        exists (evs1 ++ evs2)%list. split; [now rewrite Ht2, Ht1, app_assoc|].
        split; [rewrite !count_if_app; lia|].
        apply Forall_app. split; [now apply no_sleep_all_ten | exact Hten2].
    + unfold bind, to_screen, sleep, log. cbn [fst snd].
      match goal with
      | |- context [ws_main info verbose user_agent sessions fuel true ?w2] =>
          destruct (IH true w2) as (evs2 & Ht2 & Hc2 & Hten2)
      end.
      exists (evs1 ++ [EvToScreen (connection_error_message info e); EvSleep 10]
              ++ evs2)%list.
      split.
      { rewrite Ht2. unfold emit. cbn [trace]. rewrite Ht1, <- !app_assoc.
        reflexivity. }
      split.
      * rewrite !count_if_app. unfold count_if at 2 5. cbn. lia.
      * apply Forall_app. split; [now apply no_sleep_all_ten|].
        constructor; [discriminate|]. constructor; [reflexivity | exact Hten2].
    + exists evs1. split; [exact Ht1|]. split; [lia|].
      now apply no_sleep_all_ten.
    + exists evs1. split; [exact Ht1|]. split; [lia|].
      now apply no_sleep_all_ten.
Qed.

(** X8.  Every failure costs one sleep, and nothing else does.  Along any run of
    [ws_main] there are as many sleeps as failures (connections, sends and
    receives that failed, and frames that [json.loads] rejected), and every
    sleep is of ten seconds: a session that returns, with [True] or with a
    [DownloadError], is followed by no sleep. *)
Theorem every_failure_costs_one_sleep sessions fuel reconnect w :
  let evs := events_of (ws_main info verbose user_agent sessions fuel reconnect) w in
  count_if is_sleep evs = count_if failure evs /\
  Forall (fun ev => is_sleep ev = true -> ev = EvSleep 10) evs.
Proof.
  destruct (ws_main_accounted sessions fuel reconnect w) as (evs & Ht & H).
  cbv zeta. rewrite (events_of_snoc _ _ _ Ht). exact H.
Qed.

(** X9.  The channel says three things only.  Whatever is received, every frame
    [ws_main] sends or tries to send is the text [{"type":"pong"}], the text
    [{"type":"keepSeat"}], both written out below with 034 for the double
    quote, or the start frame made from [info_dict]: nothing of what the
    server says goes back to it. *)
Theorem only_three_frames_are_sent sessions fuel reconnect w :
  let pong :=
    "{" ++ String "034"%char ("type" ++ String "034"%char (":" ++
           String "034"%char ("pong" ++ String "034"%char "}"))) in
  let keepSeat :=
    "{" ++ String "034"%char ("type" ++ String "034"%char (":" ++
           String "034"%char ("keepSeat" ++ String "034"%char "}"))) in
  Forall (says_only [pong; keepSeat; json_dumps (startWatching info)])
         (events_of (ws_main info verbose user_agent sessions fuel reconnect) w).
Proof.
  intros pong keepSeat.
  assert (Hpong : pong = pong_frame) by reflexivity.
  assert (HkeepSeat : keepSeat = keepSeat_frame) by reflexivity.
  clearbody pong keepSeat. subst pong keepSeat.
  set (allowed := [pong_frame; keepSeat_frame; json_dumps (startWatching info)]).
  apply (emits_events_of (Forall (says_only allowed))).
  apply emits_ws_main.
  - constructor.
  - intros a b Ha Hb. apply Forall_app. split; assumption.
  - intros ws ev H. constructor; [|constructor].
    destruct ev; try discriminate; try exact I; cbn in H |- *;
      apply andb_true_iff in H; destruct H as [_ H];
      apply orb_true_iff in H; destruct H as [H|H];
      apply String.eqb_eq in H; subst; auto.
  - intros ws. constructor; [exact I | constructor].
  - intros n. constructor; [exact I | constructor].
  - unfold open_ws.
    apply emits_bind; [intros a b Ha Hb; apply Forall_app; split; assumption | |].
    + apply emits_WebSocket; intros x; (constructor; [exact I | constructor]).
    + intros ws.
      apply emits_bind; [intros a b Ha Hb; apply Forall_app; split; assumption | |].
      * destruct verbose; [apply emits_log | apply emits_ret]; repeat constructor.
      * intros _.
        apply emits_bind; [intros a b Ha Hb; apply Forall_app; split; assumption | |].
        -- apply emits_ws_send; [|intros e];
             (constructor; [cbn; auto | constructor]).
        -- intros _. apply emits_ret. constructor.
Qed.

End Accounting.

(** * Properties of the updater *)

Lemma string_app_assoc (a b c : string) : (a ++ b) ++ c = a ++ b ++ c.
Proof. induction a as [|x a IH]; cbn; [reflexivity | now rewrite IH]. Qed.

Lemma string_app_nil_r (a : string) : a ++ "" = a.
Proof. induction a as [|x a IH]; cbn; [reflexivity | now rewrite IH]. Qed.

(** ** The comparison of versions *)






Section VersionCheck.

Variable L : Update.library.


End VersionCheck.

(** ** The release to install *)

Section VersionInfo.

Import Update.

Context {J : JsonModule}.
Variable O : outside.


Lemma get_version_info_from_cons (p : nat) (ps : list nat) (st : state) :
  let got := opener_read O (calls st) (JSON_URL p) in
  let st1 := State (S (calls st)) (log st ++ [Fetch (JSON_URL p) got]) in
  get_version_info_from O (p :: ps) st =
  match page_outcome got with
  | Err e => (Err e, st1)
  | Ok (Some release) => (Ok release, st1)
  | Ok None => get_version_info_from O ps st1
  end.
Proof.
  cbn [get_version_info_from].
  unfold page_outcome, releases_of, bind, fetch, call, eval, bind, ret.
  cbn -[JSON_URL].
  destruct (opener_read O (calls st) (JSON_URL p)) as [text|e]; [|reflexivity].
  destruct (json_loads text) as [releases|e]; [|reflexivity].
  destruct (py_iter releases) as [items|e]; [|reflexivity].
  destruct (first_prerelease items) as [[release|]|e]; reflexivity.
Qed.

Lemma get_version_info_from_pages (pages : list nat) (st : state) :
  let out := get_version_info_from O pages st in
  let read i := opener_read O (calls st + i) (JSON_URL (nth i pages 0)) in
  exists k,
    k <= length pages /\
    calls (snd out) = calls st + k /\
    log (snd out) =
      (log st ++ map (fun i => Fetch (JSON_URL (nth i pages 0)) (read i))
                     (seq 0 k))%list /\
    (forall i, S i < k -> page_outcome (read i) = Ok None) /\
    match fst out with
    | Ok release => exists j, k = S j /\ page_outcome (read j) = Ok (Some release)
    | Err e =>
        (k = length pages /\
         (forall i, i < k -> page_outcome (read i) = Ok None) /\
         e = Exn "Exception" "can't find pre-release.")
        \/ (exists j, k = S j /\ page_outcome (read j) = Err e)
    end.
Proof.
  revert st. induction pages as [|p ps IH]; intros st.
  - exists 0. cbn. rewrite app_nil_r.
    repeat split; try lia. left. repeat split; intros; lia.
  - cbv zeta. rewrite get_version_info_from_cons. cbv zeta.
    set (got := opener_read O (calls st) (JSON_URL p)).
    set (st1 := State (S (calls st)) (log st ++ [Fetch (JSON_URL p) got])).
    assert (Hgot : opener_read O (calls st + 0) (JSON_URL (nth 0 (p :: ps) 0)) = got).
    { cbn [nth]. now rewrite Nat.add_0_r. }
    assert (Hone : (log st1 =
              log st ++ map (fun i => Fetch (JSON_URL (nth i (p :: ps) 0))
                       (opener_read O (calls st + i) (JSON_URL (nth i (p :: ps) 0))))
                     (seq 0 1))%list).
    { cbn [seq map]. rewrite Hgot. reflexivity. }
    destruct (page_outcome got) as [[release|]|e] eqn:Hout; cbn [fst snd].
    + exists 1. split; [cbn [length]; lia|]. split; [cbn [calls st1]; lia|].
      split; [exact Hone|]. split; [intros i Hi; lia|].
      exists 0. now rewrite Hgot.
    + destruct (IH st1) as (k & Hk & Hcalls & Hlog & Hnone & Hres).
      cbv zeta in Hcalls, Hlog, Hnone, Hres.
      assert (Hshift : forall i,
                 opener_read O (calls st1 + i) (JSON_URL (nth i ps 0)) =
                 opener_read O (calls st + S i) (JSON_URL (nth (S i) (p :: ps) 0))).
      { intros i. cbn [nth calls st1]. now rewrite Nat.add_succ_r. }
      exists (S k). split; [cbn [length]; lia|].
      split; [rewrite Hcalls; cbn [calls st1]; lia|].
      split.
      { rewrite Hlog. cbn [seq map]. rewrite Hgot. cbn [log st1].
        rewrite <- app_assoc. cbn [app]. do 2 f_equal.
        rewrite <- seq_shift, map_map. apply map_ext. intros i.
        now rewrite Hshift. }
      split.
      { intros [|i] Hi; [now rewrite Hgot|]. rewrite <- Hshift. apply Hnone. lia. }
      destruct (fst (get_version_info_from O ps st1)) as [release|e].
      * destruct Hres as (j & -> & Hj). exists (S j). split; [reflexivity|].
        now rewrite <- Hshift.
      * destruct Hres as [(-> & Hall & ->)|(j & -> & Hj)].
        -- left. split; [reflexivity|]. split; [|reflexivity].
           intros [|i] Hi; [now rewrite Hgot|]. rewrite <- Hshift. apply Hall.
           cbn [length] in Hi. lia.
        -- right. exists (S j). split; [reflexivity|]. now rewrite <- Hshift.
    + exists 1. split; [cbn [length]; lia|]. split; [cbn [calls st1]; lia|].
      split; [exact Hone|]. split; [intros i Hi; lia|].
      right. exists 0. now rewrite Hgot.
Qed.


End VersionInfo.

(** ** What the updater does, block by block *)

Section Updater.

Import Update.

Context {J : JsonModule}.
Variable P : platform.
Variable L : library.
Variable O : outside.

Lemma does_weaken {A} (c : U A) (Q Q' : result A -> list event -> Prop) :
  does c Q -> (forall r evs, Q r evs -> Q' r evs) -> does c Q'.
Proof.
  intros H HQ st. destruct (H st) as (evs & Hlog & HQ1).
  exists evs. auto.
Qed.

Lemma does_ret {A} (a : A) (Q : result A -> list event -> Prop) :
  Q (Ok a) [] -> does (ret a) Q.
Proof. intros H st. exists []. cbn. now rewrite app_nil_r. Qed.

Lemma does_raise {A} (e : exn) (Q : result A -> list event -> Prop) :
  Q (Err e) [] -> does (raise e) Q.
Proof. intros H st. exists []. cbn. now rewrite app_nil_r. Qed.

Lemma does_eval {A} (r : result A) (Q : result A -> list event -> Prop) :
  Q r [] -> does (eval r) Q.
Proof. intros H st. exists []. cbn. now rewrite app_nil_r. Qed.

Lemma does_note (ev : event) (Q : result unit -> list event -> Prop) :
  Q (Ok tt) [ev] -> does (note ev) Q.
Proof. intros H st. exists [ev]. cbn. auto. Qed.

Lemma does_call {A} (r : nat -> A) (ev : A -> event)
    (Q : result A -> list event -> Prop) :
  (forall a, Q (Ok a) [ev a]) -> does (call r ev) Q.
Proof. intros H st. exists [ev (r (calls st))]. cbn. auto. Qed.

Lemma does_fallible (r : nat -> option exn) (ev : bool -> event)
    (Q : result unit -> list event -> Prop) :
  Q (Ok tt) [ev true] -> (forall e, Q (Err e) [ev false]) ->
  does (fallible r ev) Q.
Proof.
  intros H1 H2 st. unfold fallible.
  destruct (r (calls st)) as [e|]; eexists; cbn; split; try reflexivity; auto.
Qed.

Lemma does_bind {A B} (c : U A) (k : A -> U B)
    (Q1 : result A -> list event -> Prop)
    (Q2 : A -> result B -> list event -> Prop)
    (Q : result B -> list event -> Prop) :
  does c Q1 ->
  (forall a, does (k a) (Q2 a)) ->
  (forall a evs1 r evs2, Q1 (Ok a) evs1 -> Q2 a r evs2 ->
                         Q r (evs1 ++ evs2)%list) ->
  (forall e evs, Q1 (Err e) evs -> Q (Err e) evs) ->
  does (bind c k) Q.
Proof.
  intros Hc Hk Hok Herr st. unfold bind.
  destruct (Hc st) as (evs1 & Hlog1 & HQ1).
  destruct (c st) as [[a|e] st1]; cbn in *.
  - destruct (Hk a st1) as (evs2 & Hlog2 & HQ2).
    exists (evs1 ++ evs2)%list. split.
    + now rewrite Hlog2, Hlog1, app_assoc.
    + eauto.
  - exists evs1. auto.
Qed.

Lemma does_try {A} (c : U A) (handler : exn -> U A)
    (Q1 : result A -> list event -> Prop)
    (Q2 : exn -> result A -> list event -> Prop)
    (Q : result A -> list event -> Prop) :
  does c Q1 ->
  (forall e, does (handler e) (Q2 e)) ->
  (forall a evs, Q1 (Ok a) evs -> Q (Ok a) evs) ->
  (forall e evs1 r evs2, Q1 (Err e) evs1 -> Q2 e r evs2 ->
                         Q r (evs1 ++ evs2)%list) ->
  does (try_ c handler) Q.
Proof.
  intros Hc Hh Hok Herr st. unfold try_.
  destruct (Hc st) as (evs1 & Hlog1 & HQ1).
  destruct (c st) as [[a|e] st1]; cbn in *.
  - exists evs1. auto.
  - destruct (Hh e st1) as (evs2 & Hlog2 & HQ2).
    exists (evs1 ++ evs2)%list. split.
    + now rewrite Hlog2, Hlog1, app_assoc.
    + eauto.
Qed.

Lemma does_and_then {A B} (c : U (flow A)) (k : A -> U (flow B))
    (Q1 : result (flow A) -> list event -> Prop)
    (Q2 : A -> result (flow B) -> list event -> Prop)
    (Q : result (flow B) -> list event -> Prop) :
  does c Q1 ->
  (forall a, does (k a) (Q2 a)) ->
  (forall a evs1 r evs2, Q1 (Ok (Go a)) evs1 -> Q2 a r evs2 ->
                         Q r (evs1 ++ evs2)%list) ->
  (forall r evs, Q1 (Ok (Return r)) evs -> Q (Ok (Return r)) evs) ->
  (forall e evs, Q1 (Err e) evs -> Q (Err e) evs) ->
  does (and_then c k) Q.
Proof.
  intros Hc Hk Hgo Hret Herr. unfold and_then.
  apply does_bind with
    (Q1 := Q1)
    (Q2 := fun x r evs2 =>
             match x with
             | Go a => Q2 a r evs2
             | Return r' => r = Ok (Return r') /\ evs2 = []
             end); auto.
  - intros [a|r']; [apply Hk|]. apply does_ret. auto.
  - intros [a|r'] evs1 r evs2 H1 H2.
    + eauto.
    + destruct H2 as [-> ->]. rewrite app_nil_r. auto.
Qed.


Lemma does_bind_eval {A B} (r : result A) (k : A -> U B)
    (Q : result B -> list event -> Prop) :
  (forall a, r = Ok a -> does (k a) Q) ->
  (forall e, r = Err e -> Q (Err e) []) ->
  does (bind (eval r) k) Q.
Proof.
  intros Hok Herr. destruct r as [a|e]; intros st; unfold bind, eval.
  - now apply Hok.
  - exists []. cbn. rewrite app_nil_r. auto.
Qed.

Lemma does_except_OSError {A} (c handler : U (flow A))
    (Q1 Q2 Q : result (flow A) -> list event -> Prop) :
  does c Q1 ->
  does handler Q2 ->
  (forall a evs, Q1 (Ok a) evs -> Q (Ok a) evs) ->
  (forall e evs, Q1 (Err e) evs -> Q (Err e) evs) ->
  (forall e evs1 r evs2, Q1 (Err e) evs1 -> Q2 r evs2 ->
                         Q r (evs1 ++ evs2)%list) ->
  does (except_OSError L c handler) Q.
Proof.
  intros Hc Hh Hok Hraise Hcaught. unfold except_OSError.
  apply does_try with
    (Q1 := Q1)
    (Q2 := fun e r evs2 => Q2 r evs2 \/ (r = Err e /\ evs2 = [])); auto.
  - intros e. destruct (isinstance_exn L e "OSError").
    + eapply does_weaken; [exact Hh | auto].
    + apply does_raise. auto.
  - intros e evs1 r evs2 H1 [H2|[-> ->]]; [eauto|].
    rewrite app_nil_r. auto.
Qed.

Lemma does_except_OSError_StopIteration {A} (c handler : U (flow A))
    (Q1 Q2 Q : result (flow A) -> list event -> Prop) :
  does c Q1 ->
  does handler Q2 ->
  (forall a evs, Q1 (Ok a) evs -> Q (Ok a) evs) ->
  (forall e evs, Q1 (Err e) evs -> Q (Err e) evs) ->
  (forall e evs1 r evs2, Q1 (Err e) evs1 -> Q2 r evs2 ->
                         Q r (evs1 ++ evs2)%list) ->
  does (except_OSError_StopIteration L c handler) Q.
Proof.
  intros Hc Hh Hok Hraise Hcaught. unfold except_OSError_StopIteration.
  apply does_try with
    (Q1 := Q1)
    (Q2 := fun e r evs2 => Q2 r evs2 \/ (r = Err e /\ evs2 = [])); auto.
  - intros e.
    destruct (isinstance_exn L e "OSError" || isinstance_exn L e "StopIteration").
    + eapply does_weaken; [exact Hh | auto].
    + apply does_raise. auto.
  - intros e evs1 r evs2 H1 [H2|[-> ->]]; [eauto|].
    rewrite app_nil_r. auto.
Qed.

Lemma does_fetch (url : string) (Q : result string -> list event -> Prop) :
  (forall got, Q got [Fetch url got]) -> does (fetch O url) Q.
Proof.
  intros H st. exists [Fetch url (opener_read O (calls st) url)].
  unfold fetch, bind, call, eval. cbn. split; [reflexivity | apply H].
Qed.

Lemma does_calc_sha256sum (path : string)
    (Q : result string -> list event -> Prop) :
  (forall got, Q got [HashFile path got]) -> does (calc_sha256sum O path) Q.
Proof.
  intros H st. exists [HashFile path (file_sha256 O (calls st) path)].
  unfold calc_sha256sum, bind, call, eval. cbn. split; [reflexivity | apply H].
Qed.

Lemma does_open_url (url : json) (Q : result string -> list event -> Prop) :
  (forall s got, url = JString s -> Q got [Fetch s got]) ->
  (forall e, Q (Err e) []) ->
  does (open_url O url) Q.
Proof.
  intros H1 H2. destruct url; try (apply does_raise; apply H2).
  apply does_fetch. intros got. now apply H1.
Qed.

Lemma does_report_error (msg : string) (network expected : bool)
    (delim : string) (Q : result unit -> list event -> Prop) :
  (forall m tb, Q (Ok tt) [ReportError m tb]) ->
  does (report_error msg network expected delim) Q.
Proof. intros H. apply does_note. apply H. Qed.

Lemma does_return_error {A} (msg : string) (network expected : bool)
    (delim : string) (Q : result (flow A) -> list event -> Prop) :
  (forall m tb, Q (Ok (Return ReturnedNone)) [ReportError m tb]) ->
  does (return_error msg network expected delim) Q.
Proof.
  intros H st. eexists.
  unfold return_error, report_error, ydl_report_error, bind, note, ret. cbn.
  split; [reflexivity | apply H].
Qed.

Lemma does_get_sha256sum (info : json) (bin_or_exe version : string)
    (Q : result (option string) -> list event -> Prop) :
  Q (Ok None) [] ->
  (forall e, Q (Err e) []) ->
  (forall label url got,
     labels_lookup version_labels (bin_or_exe ++ "_" ++ version) = Ok label ->
     Q (match got with
        | Ok hash_data =>
            sums_lookup (splitlines hash_data) ("youtube-dl" ++ label)
        | Err e => Err e
        end) [Fetch url got]) ->
  does (get_sha256sum O info bin_or_exe version) Q.
Proof.
  intros Hnone Herr Hfetch. unfold get_sha256sum.
  apply does_bind_eval; [intros label Hlabel | auto].
  apply does_bind_eval; [intros items _ | auto].
  apply does_bind_eval; [intros found _ | auto].
  apply does_bind_eval; [intros urlh _ | auto].
  destruct (negb (truthy urlh)); [now apply does_ret|].
  destruct urlh;
    try solve [intros st; exists []; unfold bind, open_url, raise; cbn;
               rewrite app_nil_r; auto].
  intros st. exists [Fetch s (opener_read O (calls st) s)].
  unfold bind, open_url, fetch, call, eval. cbn.
  specialize (Hfetch label s (opener_read O (calls st) s) Hlabel).
  destruct (opener_read O (calls st) s); cbn; auto.
Qed.

Lemma does_download (c : context) (bin_or_exe version : string)
    (Q : result (flow string) -> list event -> Prop) :
  (forall e, Q (Err e) []) ->
  (forall m tb, Q (Ok (Return ReturnedNone)) [ReportError m tb]) ->
  (forall url newcontent, Q (Ok (Go newcontent)) [Fetch url (Ok newcontent)]) ->
  (forall url e, Q (Err e) [Fetch url (Err e)]) ->
  does (download O c bin_or_exe version) Q.
Proof.
  intros Herr Hnone Hgot Hfail. unfold download.
  apply does_bind_eval; [intros asset _ | auto].
  apply does_bind_eval; [intros url _ | auto].
  destruct (negb (truthy url)); [now apply does_return_error|].
  destruct url;
    try solve [intros st; exists []; unfold bind, open_url, raise; cbn;
               rewrite app_nil_r; auto].
  intros st. exists [Fetch s (opener_read O (calls st) s)].
  unfold bind, open_url, fetch, call, eval, ret. cbn.
  destruct (opener_read O (calls st) s); cbn; auto.
Qed.

(** The download with its [except] clause. *)
Lemma does_guarded_download (c : context) (bin_or_exe version : string)
    (Q : result (flow string) -> list event -> Prop) :
  (forall e, Q (Err e) []) ->
  (forall m tb, Q (Ok (Return ReturnedNone)) [ReportError m tb]) ->
  (forall url newcontent, Q (Ok (Go newcontent)) [Fetch url (Ok newcontent)]) ->
  (forall url e, Q (Err e) [Fetch url (Err e)]) ->
  (forall url e m tb,
     Q (Ok (Return ReturnedNone)) [Fetch url (Err e); ReportError m tb]) ->
  does (except_OSError_StopIteration L
          (download O c bin_or_exe version)
          (return_error "unable to download latest version" true false ";")) Q.
Proof.
  intros Herr Hnone Hgot Hfail Hcaught.
  apply does_except_OSError_StopIteration with
    (Q1 := fun r evs =>
             (evs = [] /\ exists e, r = Err e) \/
             (r = Ok (Return ReturnedNone) /\ exists m tb, evs = [ReportError m tb]) \/
             (exists url newcontent,
                r = Ok (Go newcontent) /\ evs = [Fetch url (Ok newcontent)]) \/
             (exists url e, r = Err e /\ evs = [Fetch url (Err e)]))
    (Q2 := fun r evs =>
             r = Ok (Return ReturnedNone) /\ exists m tb, evs = [ReportError m tb]).
  - apply does_download; eauto 10.
  - apply does_return_error. eauto.
  - intros a evs [(-> & e & H)|[(H & m & tb & ->)|[(url & nc & H & ->)|(url & e & H & ->)]]];
      try discriminate.
    + injection H as ->. auto.
    + injection H as ->. auto.
  - intros e evs [(-> & e' & H)|[(H & m & tb & ->)|[(url & nc & H & ->)|(url & e' & H & ->)]]];
      try discriminate; injection H as ->; auto.
  - intros e evs1 r evs2
      [(-> & e' & H)|[(H & m & tb & ->)|[(url & nc & H & ->)|(url & e' & H & ->)]]]
      (-> & m' & tb' & ->); try discriminate; injection H as ->; cbn; auto.
Qed.

(** A guarded call that may fail, after which the block goes on. *)
Lemma does_guarded_step (r : nat -> option exn) (ev : bool -> event)
    (msg : string) (Q : result (flow unit) -> list event -> Prop) :
  Q (Ok (Go tt)) [ev true] ->
  (forall e, Q (Err e) [ev false]) ->
  (forall m tb, Q (Ok (Return ReturnedNone)) [ev false; ReportError m tb]) ->
  does (except_OSError L (bind (fallible r ev) (fun _ => ret (Go tt)))
                         (return_error msg false false ";")) Q.
Proof.
  intros Hok Hraise Hcaught.
  apply does_except_OSError with
    (Q1 := fun r evs => (r = Ok (Go tt) /\ evs = [ev true]) \/
                        (exists e, r = Err e /\ evs = [ev false]))
    (Q2 := fun r evs =>
             r = Ok (Return ReturnedNone) /\ exists m tb, evs = [ReportError m tb]).
  - apply does_bind with
      (Q1 := fun r evs => (r = Ok tt /\ evs = [ev true]) \/
                          (exists e, r = Err e /\ evs = [ev false]))
      (Q2 := fun _ r evs => r = Ok (Go tt) /\ evs = []).
    + apply does_fallible; eauto.
    + intros _. apply does_ret. auto.
    + intros [] evs1 r' evs2 [[_ ->]|(e & H & _)] [-> ->]; [auto | discriminate].
    + intros e evs [[H _]|(e' & H & ->)]; [discriminate|]. eauto.
  - apply does_return_error. eauto.
  - intros a evs [[H ->]|(e & H & _)]; [|discriminate]. now injection H as ->.
  - intros e evs [[H _]|(e' & H & ->)]; [discriminate|]. injection H as ->. auto.
  - intros e evs1 r' evs2 [[H _]|(e' & H & ->)] (-> & m & tb & ->);
      [discriminate|]. cbn. auto.
Qed.

Lemma option_string_eqb_eq (a b : option string) :
  (a =? b)%option_string = true -> a = b.
Proof.
  destruct a as [x|], b as [y|]; cbn; try discriminate; [|reflexivity].
  intros H. apply String.eqb_eq in H. now subst.
Qed.

Lemma install_zip_does (c : context) :
  does (install_zip P L O c)
    (fun r evs =>
       not_True r /\
       (Forall (fun ev => ~ modifies ev) evs \/
        exists url content sums done rest,
          evs = (Fetch url (Ok content) :: sums
                 ++ Write (filename P L) content done :: rest)%list /\
          allowed_by (sha256_hexdigest L) "youtube-dl" content sums /\
          Forall (fun ev => ~ modifies ev) rest)).
Proof.
  unfold install_zip.
  apply does_and_then with
    (Q1 := fun r evs =>
             match r with
             | Ok (Go content) => exists url, evs = [Fetch url (Ok content)]
             | Ok (Return x) => x = ReturnedNone /\ Forall (fun ev => ~ modifies ev) evs
             | Err _ => Forall (fun ev => ~ modifies ev) evs
             end)
    (Q2 := fun content r evs =>
             not_True r /\
             (Forall (fun ev => ~ modifies ev) evs \/
              exists sums done rest,
                evs = (sums ++ Write (filename P L) content done :: rest)%list /\
                allowed_by (sha256_hexdigest L) "youtube-dl" content sums /\
                Forall (fun ev => ~ modifies ev) rest)).
  - apply does_guarded_download; cbn; eauto;
      repeat split; repeat constructor; auto.
  - intros content.
    apply does_bind with
      (Q1 := fun r evs =>
               match r with
               | Ok s =>
                   (evs = [] /\ s = None) \/
                   (exists url hash_data,
                      evs = [Fetch url (Ok hash_data)] /\
                      sums_lookup (splitlines hash_data) "youtube-dl" = Ok s)
               | Err _ => Forall (fun ev => ~ modifies ev) evs
               end)
      (Q2 := fun s r evs =>
               not_True r /\
               (Forall (fun ev => ~ modifies ev) evs \/
                ((some_text s = true -> s = Some (sha256_hexdigest L content)) /\
                 exists done rest,
                   evs = Write (filename P L) content done :: rest /\
                   Forall (fun ev => ~ modifies ev) rest))).
    + apply does_get_sha256sum; [auto | constructor |].
      intros label url got Hlabel. vm_compute in Hlabel. injection Hlabel as <-.
      destruct got as [hash_data|e].
      * destruct (sums_lookup (splitlines hash_data) ("youtube-dl" ++ ""))
          as [s|e] eqn:Hs; [right; eauto | repeat constructor; auto].
      * repeat constructor; auto.
    + intros s.
      destruct (some_text s
                && negb (Some (sha256_hexdigest L content) =? s)%option_string)
        eqn:Hcheck.
      * apply does_return_error. intros m tb. split; [discriminate|].
        left. repeat constructor; auto.
      * assert (Hs : some_text s = true -> s = Some (sha256_hexdigest L content)).
        { intros Htext. rewrite Htext in Hcheck. cbn in Hcheck.
          apply negb_false_iff in Hcheck. symmetry.
          now apply option_string_eqb_eq. }
        apply does_guarded_step.
        -- split; [discriminate|]. right. split; [exact Hs|].
           exists true, []. auto.
        -- intros e. split; [discriminate|]. right. split; [exact Hs|].
           exists false, []. auto.
        -- intros m tb. split; [discriminate|]. right. split; [exact Hs|].
           exists false, [ReportError m tb]. split; [reflexivity|].
           repeat constructor; auto.
    + intros s evs1 r evs2 H1 [Hr [H2|(Hs & done & rest & -> & Hrest)]].
      * split; [exact Hr|]. left. apply Forall_app. split; [|exact H2].
        destruct H1 as [[-> _]|(url & hash_data & -> & _)];
          repeat constructor; auto.
      * split; [exact Hr|]. right. exists evs1, done, rest.
        split; [reflexivity|]. split; [|exact Hrest].
        destruct H1 as [[-> _]|(url & hash_data & -> & Hlook)]; [exact I|].
        cbn. eauto.
    + intros e evs H. split; [discriminate|]. auto.
  - intros content evs1 r evs2 [url ->] [Hr [H2|(sums & done & rest & -> & Hallowed & Hrest)]].
    + split; [exact Hr|]. left. constructor; [auto | exact H2].
    + split; [exact Hr|]. right. exists url, content, sums, done, rest. auto.
  - intros r evs [-> H]. split; [discriminate | auto].
  - intros e evs H. split; [discriminate | auto].
Qed.

Lemma append_inj_l (a b c : string) : a ++ b = a ++ c -> b = c.
Proof.
  induction a as [|x a IH]; cbn; [auto|]. intros H. injection H as H. auto.
Qed.

Lemma new_is_not_old (exe : string) : exe ++ ".old" <> exe ++ ".new".
Proof. intros H. apply append_inj_l in H. discriminate. Qed.

Lemma new_is_not_exe (exe : string) : exe <> exe ++ ".new".
Proof.
  intros H. rewrite <- (string_app_nil_r exe) in H at 1.
  apply append_inj_l in H. discriminate.
Qed.

Lemma backed_up_after_calm (exe : string) (evs1 evs2 : list event) :
  Forall calm evs1 ->
  (forall prev, backed_up exe prev evs2) ->
  forall prev, backed_up exe prev (evs1 ++ evs2).
Proof.
  intros H1 H2. induction H1 as [|ev evs1 Hev _ IH]; [exact H2|].
  intros prev. cbn. split; [|apply IH].
  intros done ->. destruct Hev.
Qed.

Lemma backed_up_calm (exe : string) (evs : list event) :
  Forall calm evs -> forall prev, backed_up exe prev evs.
Proof.
  intros H prev. rewrite <- (app_nil_r evs).
  apply backed_up_after_calm; [exact H | intros p; exact I].
Qed.

Lemma swaps_well_calm (c : context) (r : result (flow unit))
    (evs : list event) :
  Forall calm evs -> not_True r -> swaps_well P L c r evs.
Proof.
  intros H Hr. split; [now apply backed_up_calm|]. intros ->. now destruct Hr.
Qed.

Lemma swaps_well_after_calm (c : context) (r : result (flow unit))
    (evs1 evs2 : list event) :
  Forall calm evs1 -> swaps_well P L c r evs2 -> swaps_well P L c r (evs1 ++ evs2).
Proof.
  intros H1 [H2 H3]. split; [now apply backed_up_after_calm|].
  intros Hr. destruct (H3 Hr) as [pre ->]. exists (evs1 ++ pre)%list.
  now rewrite app_assoc.
Qed.

Lemma does_early_then {A} (c : context) (b : U (flow A))
    (k : A -> U (flow unit)) :
  does b (fun r evs => Forall calm evs /\ not_True r) ->
  (forall a, does (k a) (swaps_well P L c)) ->
  does (and_then b k) (swaps_well P L c).
Proof.
  intros Hb Hk.
  apply does_and_then with
    (Q1 := fun r evs => Forall calm evs /\ not_True r)
    (Q2 := fun _ => swaps_well P L c); auto.
  - intros a evs1 r evs2 [H1 _] H2. now apply swaps_well_after_calm.
  - intros r evs [H Hr]. apply swaps_well_calm; [exact H|].
    intros Heq. apply Hr. congruence.
  - intros e evs [H _]. apply swaps_well_calm; [exact H | discriminate].
Qed.

Lemma does_calm_then {A} (c : context) (b : U A) (k : A -> U (flow unit)) :
  does b (fun _ evs => Forall calm evs) ->
  (forall a, does (k a) (swaps_well P L c)) ->
  does (bind b k) (swaps_well P L c).
Proof.
  intros Hb Hk.
  apply does_bind with
    (Q1 := fun _ evs => Forall calm evs)
    (Q2 := fun _ => swaps_well P L c); auto.
  - intros a evs1 r evs2 H1 H2. now apply swaps_well_after_calm.
  - intros e evs H. apply swaps_well_calm; [exact H | discriminate].
Qed.

Ltac run_step :=
  cbv beta iota zeta delta
    [except_OSError try_ and_then bind call fallible note ret raise eval
     return_error report_error ydl_report_error report_warning to_screen
     calc_sha256sum fst snd calls log orb negb andb].

Ltac run_block :=
  intros st; run_step;
  repeat (match goal with
          | |- context [match ?x with _ => _ end] =>
              lazymatch x with
              | context [match _ with _ => _ end] => fail
              | _ => destruct x eqn:?
              end
          end; run_step);
  rewrite <- ?app_assoc; cbn [app];
  eexists; (split; [reflexivity|]).

Ltac calm_events := repeat constructor; try exact I.

Lemma install_exe_does (c : context) :
  does (install_exe P L O c) (swaps_well P L c).
Proof.
  unfold install_exe. cbv zeta.
  apply does_calm_then; [apply does_call; intros a; calm_events|].
  intros allowed. destruct (negb allowed).
  { apply does_return_error. intros m tb.
    apply swaps_well_calm; [calm_events | discriminate]. }
  apply does_early_then.
  { run_block; (split; [calm_events | discriminate]). }
  intros _. apply does_early_then.
  { apply does_guarded_download; intros; (split; [calm_events | discriminate]). }
  intros newcontent. apply does_early_then.
  { apply does_guarded_step; intros; (split; [calm_events | discriminate]). }
  intros _. apply does_calm_then.
  { apply does_get_sha256sum; intros; calm_events. }
  intros expected_sum. apply does_early_then.
  { destruct (negb (some_text expected_sum)).
    - run_block; (split; [calm_events | discriminate]).
    - run_block; (split; [calm_events | discriminate]). }
  intros _.
  run_block.
  all: split;
    [ intros prev; cbn [backed_up]; repeat split; intros done H;
      first [ discriminate H
            | reflexivity
            | exfalso;
              match type of H with
              | Rename ?a _ _ = Rename ?b _ _ =>
                  assert (Hab : a = b) by congruence;
                  first [ exact (new_is_not_exe _ Hab)
                        | exact (new_is_not_old _ Hab) ]
              end ]
    | intros H; try discriminate H; exists []; reflexivity ].
Qed.

(** *** The lines up to the announcement *)

Lemma quiet_is_calm (evs : list event) : Forall quiet evs -> Forall calm evs.
Proof.
  apply Forall_impl. intros [] H; try exact I; apply H; exact I.
Qed.

Lemma begins_well_quiet (r : result (flow context)) (evs : list event) :
  Forall quiet evs -> not_True r -> (forall c, r <> Ok (Go c)) ->
  begins_well r evs.
Proof.
  intros H Hr Hgo. split; [exact H|]. split; [exact Hr|].
  intros c Hc. now destruct (Hgo c).
Qed.

Lemma begins_well_after_quiet (r : result (flow context))
    (evs1 evs2 : list event) :
  Forall quiet evs1 -> begins_well r evs2 -> begins_well r (evs1 ++ evs2).
Proof.
  intros H1 (H2 & Hr & Hgo). split; [apply Forall_app; auto|].
  split; [exact Hr|]. intros c Hc. destruct (Hgo c Hc) as [evs' ->].
  exists (evs1 ++ evs')%list. now rewrite app_assoc.
Qed.

Lemma does_quiet_then {A} (b : U A) (k : A -> U (flow context)) :
  does b (fun _ evs => Forall quiet evs) ->
  (forall a, does (k a) begins_well) ->
  does (bind b k) begins_well.
Proof.
  intros Hb Hk.
  apply does_bind with
    (Q1 := fun _ evs => Forall quiet evs)
    (Q2 := fun _ => begins_well); auto.
  - intros a evs1 r evs2 H1 H2. now apply begins_well_after_quiet.
  - intros e evs H. apply begins_well_quiet; [exact H | discriminate..].
Qed.

Ltac quiet_events :=
  repeat constructor; try (intros Hmod; exact Hmod).

Lemma install_error_is_quiet :
  does (install_error P) (fun _ evs => Forall quiet evs).
Proof.
  unfold install_error.
  destruct (loader_is_zipimporter P).
  - destruct (python_version P) as [major minor].
    destruct ((major <? 3)%nat || ((major =? 3)%nat && (minor <? 6)%nat));
      apply does_ret; constructor.
  - destruct (frozen P); [|apply does_ret; constructor].
    apply does_bind_eval; [|constructor].
    intros major _. destruct (major <? 6)%nat; apply does_ret; constructor.
Qed.

Lemma get_version_info_is_quiet :
  does (get_version_info O) (fun _ evs => Forall quiet evs).
Proof.
  intros st. unfold get_version_info.
  destruct (get_version_info_from_pages O [1; 2; 3] st)
    as (k & _ & _ & Hlog & _).
  eexists. split; [exact Hlog|].
  apply Forall_forall. intros ev Hin. apply in_map_iff in Hin.
  destruct Hin as (i & <- & _). intros Hmod. exact Hmod.
Qed.

Lemma preamble_does : does (preamble P L O) begins_well.
Proof.
  unfold preamble.
  apply does_quiet_then; [apply install_error_is_quiet|].
  intros [msg|].
  { apply does_return_error. intros m tb.
    apply begins_well_quiet; [quiet_events | discriminate..]. }
  apply does_quiet_then; [apply does_calc_sha256sum; intros; quiet_events|].
  intros current.
  apply does_quiet_then; [apply does_note; quiet_events|].
  intros _.
  apply does_quiet_then.
  { apply does_try with
      (Q1 := fun _ evs => Forall quiet evs)
      (Q2 := fun _ _ evs => Forall quiet evs); auto.
    - apply does_bind with
        (Q1 := fun _ evs => Forall quiet evs)
        (Q2 := fun _ _ evs => Forall quiet evs); auto.
      + apply get_version_info_is_quiet.
      + intros info. apply does_ret. constructor.
      + intros. apply Forall_app. auto.
    - intros e. destruct (isinstance_exn L e "Exception");
        [apply does_ret | apply does_raise]; constructor.
    - intros. apply Forall_app. auto. }
  intros [info|].
  2:{ apply does_return_error. intros m tb.
      apply begins_well_quiet; [quiet_events | discriminate..]. }
  apply does_bind_eval;
    [|intros; apply begins_well_quiet; [constructor | discriminate..]].
  intros name _.
  apply does_bind_eval;
    [|intros; apply begins_well_quiet; [constructor | discriminate..]].
  intros mine _.
  apply does_bind_eval;
    [|intros; apply begins_well_quiet; [constructor | discriminate..]].
  intros theirs _.
  destruct (tuple_ge mine theirs).
  { run_block. apply begins_well_quiet; [quiet_events | discriminate..]. }
  destruct name;
    try (apply does_raise; apply begins_well_quiet;
         [constructor | discriminate..]).
  run_block. split; [quiet_events|]. split; [discriminate|].
  intros c Hc. injection Hc as <-. exists []. reflexivity.
Qed.

(** *** The installation and the whole update *)

Lemma backed_up_before_calm (exe : string) (evs1 evs2 : list event)
    (prev : option event) :
  backed_up exe prev evs1 ->
  Forall calm evs2 ->
  backed_up exe prev (evs1 ++ evs2).
Proof.
  intros H1 H2. revert prev H1.
  induction evs1 as [|ev evs1 IH]; intros prev H1.
  - now apply backed_up_calm.
  - cbn. destruct H1 as [Hev Hrest]. split; [exact Hev | now apply IH].
Qed.

Lemma allowed_sums_are_calm (sha256 : string -> string)
    (name content : string) (sums : list event) :
  allowed_by sha256 name content sums -> Forall calm sums.
Proof.
  destruct sums as [|[] [|]]; cbn; try contradiction;
    try match goal with
        | |- match ?g with _ => _ end -> _ => destruct g; try contradiction
        end;
    repeat constructor.
Qed.

Lemma install_zip_is_calm (c : context) :
  does (install_zip P L O c) (fun r evs => Forall calm evs /\ not_True r).
Proof.
  eapply does_weaken; [apply install_zip_does|].
  intros r evs [Hr [H|(url & content & sums & done & rest & -> & Hsums & Hrest)]].
  - split; [now apply quiet_is_calm | exact Hr].
  - split; [|exact Hr]. constructor; [exact I|].
    apply Forall_app. split; [eapply allowed_sums_are_calm; eauto|].
    constructor; [exact I | now apply quiet_is_calm].
Qed.

Lemma install_does (c : context) :
  does (install P L O c)
    (fun r evs =>
       swaps_well P L c r evs /\
       (r = Ok (Return ReturnedTrue) -> frozen P = true)).
Proof.
  unfold install. destruct (frozen P) eqn:Hfrozen.
  - eapply does_weaken with (Q := swaps_well P L c); [|auto].
    apply does_calm_then; [apply does_call; intros a; calm_events|].
    intros allowed. destruct (negb allowed).
    { apply does_return_error. intros m tb.
      apply swaps_well_calm; [calm_events | discriminate]. }
    apply does_and_then with
      (Q1 := swaps_well P L c)
      (Q2 := fun _ r evs => exists m, r = Ok (Go tt) /\ evs = [ToScreen m]).
    + apply install_exe_does.
    + intros _. run_block. eauto.
    + intros a evs1 r evs2 [H1 _] (m & -> & ->). split; [|discriminate].
      intros prev. apply backed_up_before_calm; [apply H1 | calm_events].
    + intros r evs H. exact H.
    + intros e evs H. exact H.
  - eapply does_weaken with
      (Q := fun r evs => Forall calm evs /\ not_True r).
    2:{ intros r evs [H Hr]. split; [now apply swaps_well_calm|].
        intros ->. now destruct Hr. }
    apply does_bind with
      (Q1 := fun _ evs => Forall calm evs)
      (Q2 := fun _ r evs => Forall calm evs /\ not_True r).
    + apply does_call. intros a. calm_events.
    + intros allowed. destruct (negb allowed).
      { apply does_return_error. intros m tb. split; [calm_events | discriminate]. }
      apply does_and_then with
        (Q1 := fun r evs => Forall calm evs /\ not_True r)
        (Q2 := fun _ r evs => Forall calm evs /\ not_True r).
      * destruct (loader_is_zipimporter P); [apply install_zip_is_calm|].
        apply does_ret. split; [constructor | discriminate].
      * intros _. run_block. split; [calm_events | discriminate].
      * intros a evs1 r evs2 [H1 _] [H2 Hr]. split; [|exact Hr].
        apply Forall_app. auto.
      * intros r evs H. exact H.
      * intros e evs H. exact H.
    + intros a evs1 r evs2 H1 [H2 Hr]. split; [|exact Hr].
      apply Forall_app. auto.
    + intros e evs H. split; [exact H | discriminate].
Qed.

Lemma run_update_does :
  does (run_update P L O) (updates_well P L ReturnedTrue).
Proof.
  unfold run_update, finish.
  apply does_bind with
    (Q1 := updates_well P L (Return ReturnedTrue))
    (Q2 := fun x r evs =>
             evs = [] /\
             r = Ok (match x with Go _ => ReturnedNone | Return r' => r' end)).
  - apply does_and_then with
      (Q1 := begins_well)
      (Q2 := fun c r evs =>
               swaps_well P L c r evs /\
               (r = Ok (Return ReturnedTrue) -> frozen P = true)).
    + apply preamble_does.
    + apply install_does.
    + intros c evs1 r evs2 (Hquiet & _ & Hgo) [[Hbacked Hswap] Hfrozen].
      destruct (Hgo c eq_refl) as [evs' ->].
      split.
      { apply backed_up_after_calm; [now apply quiet_is_calm | exact Hbacked]. }
      right. exists (version_id c), evs', evs2.
      split; [now rewrite <- app_assoc|].
      apply Forall_app in Hquiet. split; [apply Hquiet|].
      intros Hr. split; [now apply Hfrozen|].
      destruct (Hswap Hr) as [mid ->]. now exists mid.
    + intros r evs (Hquiet & Hr & _). split.
      { apply backed_up_calm. now apply quiet_is_calm. }
      left. split; [exact Hquiet|]. intros Heq. apply Hr. congruence.
    + intros e evs (Hquiet & _ & _). split.
      { apply backed_up_calm. now apply quiet_is_calm. }
      left. split; [exact Hquiet | discriminate].
  - intros [a|r']; apply does_ret; auto.
  - intros x evs1 r evs2 [Hbacked Hcases] [-> ->]. rewrite app_nil_r.
    split; [exact Hbacked|].
    destruct Hcases as [[Hquiet Hr]|(id & pre & post & -> & Hpre & Hswap)].
    + left. split; [exact Hquiet|]. intros Heq. apply Hr.
      destruct x as [a|r']; [discriminate|]. congruence.
    + right. exists id, pre, post. split; [reflexivity|]. split; [exact Hpre|].
      intros Heq. apply Hswap. destruct x as [a|r']; [discriminate|]. congruence.
  - intros e evs [Hbacked Hcases]. split; [exact Hbacked|].
    destruct Hcases as [[Hquiet Hr]|(id & pre & post & -> & Hpre & Hswap)].
    + left. split; [exact Hquiet | discriminate].
    + right. exists id, pre, post. split; [reflexivity|]. split; [exact Hpre|].
      discriminate.
Qed.


Lemma backed_up_at (exe : string) (pre post : list event) (done : bool)
    (prev : option event) :
  backed_up exe prev (pre ++ Rename (exe ++ ".new") exe done :: post) ->
  (pre = [] /\ prev = Some (Rename exe (exe ++ ".old") true)) \/
  exists pre', pre = (pre' ++ [Rename exe (exe ++ ".old") true])%list.
Proof.
  revert prev. induction pre as [|ev pre IH]; intros prev H.
  - left. destruct H as [H _]. split; [reflexivity | now apply (H done)].
  - right. destruct H as [_ H].
    destruct (IH _ H) as [[-> Hev]|[pre' ->]].
    + injection Hev as ->. now exists [].
    + now exists (ev :: pre').
Qed.

(** *** After a download that could not be verified *)

Lemma goes_on_after (exe : string) (evs1 evs2 : list event) :
  Forall (no_removal exe) evs1 -> goes_on exe evs2 ->
  goes_on exe (evs1 ++ evs2).
Proof.
  intros H1 H2. induction H1 as [|ev evs1 Hev _ IH]; [exact H2|].
  cbn. split; [|exact IH]. intros ->. now destruct Hev.
Qed.

Lemma goes_on_without (exe : string) (evs : list event) :
  Forall (no_removal exe) evs -> goes_on exe evs.
Proof.
  intros H. rewrite <- (app_nil_r evs). apply goes_on_after; [exact H | exact I].
Qed.

Lemma does_unremoved_then {A B} (b : U A) (k : A -> U B) :
  does b (fun _ evs => Forall (no_removal (filename P L)) evs) ->
  (forall a, does (k a) (fun _ evs => goes_on (filename P L) evs)) ->
  does (bind b k) (fun _ evs => goes_on (filename P L) evs).
Proof.
  intros Hb Hk.
  apply does_bind with
    (Q1 := fun _ evs => Forall (no_removal (filename P L)) evs)
    (Q2 := fun _ _ evs => goes_on (filename P L) evs); auto.
  - intros a evs1 r evs2 H1 H2. now apply goes_on_after.
  - intros e evs H. now apply goes_on_without.
Qed.

Lemma does_unremoved_and_then {A B} (b : U (flow A)) (k : A -> U (flow B)) :
  does b (fun _ evs => Forall (no_removal (filename P L)) evs) ->
  (forall a, does (k a) (fun _ evs => goes_on (filename P L) evs)) ->
  does (and_then b k) (fun _ evs => goes_on (filename P L) evs).
Proof.
  intros Hb Hk.
  apply does_and_then with
    (Q1 := fun _ evs => Forall (no_removal (filename P L)) evs)
    (Q2 := fun _ _ evs => goes_on (filename P L) evs); auto.
  - intros a evs1 r evs2 H1 H2. now apply goes_on_after.
  - intros r evs H. now apply goes_on_without.
  - intros e evs H. now apply goes_on_without.
Qed.

Ltac unremoved_events :=
  repeat constructor;
  try (intros Heq; first [ discriminate Heq
                         | apply (new_is_not_old (filename P L)); congruence ]).

Lemma install_exe_goes_on (c : context) :
  does (install_exe P L O c) (fun _ evs => goes_on (filename P L) evs).
Proof.
  unfold install_exe. cbv zeta.
  apply does_unremoved_then; [apply does_call; intros a; unremoved_events|].
  intros allowed. destruct (negb allowed).
  { apply does_return_error. intros m tb.
    apply goes_on_without. unremoved_events. }
  apply does_unremoved_and_then.
  { run_block; unremoved_events. }
  intros _. apply does_unremoved_and_then.
  { apply does_guarded_download; intros; unremoved_events. }
  intros newcontent. apply does_unremoved_and_then.
  { apply does_guarded_step; intros; unremoved_events. }
  intros _. apply does_unremoved_then.
  { apply does_get_sha256sum; intros; unremoved_events. }
  intros expected_sum.
  apply does_and_then with
    (Q1 := fun r evs =>
             Forall (no_removal (filename P L)) evs \/
             (r = Ok (Go tt) /\
              exists evs',
                evs = (evs' ++ [Remove (filename P L ++ ".new") true])%list /\
                Forall (no_removal (filename P L)) evs'))
    (Q2 := fun _ _ evs =>
             Forall (no_removal (filename P L)) evs /\
             exists done rest,
               evs = Rename (filename P L) (filename P L ++ ".old") done :: rest).
  - destruct (negb (some_text expected_sum)).
    + run_block. left. unremoved_events.
    + run_block;
        first [ left; solve [unremoved_events]
              | right; split; [reflexivity|];
                eexists [_; _]; split; [reflexivity | unremoved_events] ].
  - intros _. run_block; (split; [unremoved_events | eauto]).
  - intros a evs1 r evs2 [H1|(_ & evs' & -> & H1)] (H2 & done & rest & ->).
    + apply goes_on_after; [exact H1 | now apply goes_on_without].
    + rewrite <- app_assoc. apply goes_on_after; [exact H1|].
      cbn [app goes_on]. split; [eauto|].
      now apply (goes_on_without _ (_ :: _)).
  - intros r evs [H|[H _]]; [now apply goes_on_without | discriminate].
  - intros e evs [H|[H _]]; [now apply goes_on_without | discriminate].
Qed.

(** *** The files the updater touches *)

Section Everywhere.

Variable holds : event -> Prop.

Local Abbreviation everywhere c := (does c (fun _ evs => Forall holds evs)).

Lemma everywhere_ret {A} (a : A) : everywhere (ret a).
Proof. apply does_ret. constructor. Qed.

Lemma everywhere_raise {A} (e : exn) : everywhere (@raise A e).
Proof. apply does_raise. constructor. Qed.

Lemma everywhere_eval {A} (r : result A) : everywhere (eval r).
Proof. apply does_eval. constructor. Qed.

Lemma everywhere_note (ev : event) : holds ev -> everywhere (note ev).
Proof. intros H. apply does_note. now repeat constructor. Qed.

Lemma everywhere_call {A} (r : nat -> A) (ev : A -> event) :
  (forall a, holds (ev a)) -> everywhere (call r ev).
Proof. intros H. apply does_call. intros a. now repeat constructor. Qed.

Lemma everywhere_fallible (r : nat -> option exn) (ev : bool -> event) :
  (forall done, holds (ev done)) -> everywhere (fallible r ev).
Proof. intros H. apply does_fallible; intros; now repeat constructor. Qed.

Lemma everywhere_bind {A B} (c : U A) (k : A -> U B) :
  everywhere c -> (forall a, everywhere (k a)) -> everywhere (bind c k).
Proof.
  intros Hc Hk.
  apply does_bind with
    (Q1 := fun _ evs => Forall holds evs)
    (Q2 := fun _ _ evs => Forall holds evs); auto.
  intros. apply Forall_app. auto.
Qed.

Lemma everywhere_try {A} (c : U A) (handler : exn -> U A) :
  everywhere c -> (forall e, everywhere (handler e)) ->
  everywhere (try_ c handler).
Proof.
  intros Hc Hh.
  apply does_try with
    (Q1 := fun _ evs => Forall holds evs)
    (Q2 := fun _ _ evs => Forall holds evs); auto.
  intros. apply Forall_app. auto.
Qed.

Lemma everywhere_get_version_info_from (pages : list nat) :
  (forall url got, holds (Fetch url got)) ->
  everywhere (get_version_info_from O pages).
Proof.
  intros Hfetch. induction pages as [|page pages IH]; cbn [get_version_info_from].
  - apply everywhere_raise.
  - apply everywhere_bind.
    { unfold fetch. apply everywhere_bind; [now apply everywhere_call|].
      intros r. apply everywhere_eval. }
    intros text. apply everywhere_bind; [apply everywhere_eval|].
    intros releases. apply everywhere_bind; [apply everywhere_eval|].
    intros items. apply everywhere_bind; [apply everywhere_eval|].
    intros [release|]; [apply everywhere_ret | exact IH].
Qed.

End Everywhere.

Ltac everywhere_step :=
  first
    [ apply everywhere_ret
    | apply everywhere_raise
    | apply everywhere_eval
    | apply everywhere_bind; [|intros ?]
    | apply everywhere_try; [|intros ?]
    | apply everywhere_note
    | apply everywhere_call; intros ?
    | apply everywhere_fallible; intros ?
    | apply everywhere_get_version_info_from; intros ? ?
    | match goal with
      | |- does (if ?b then _ else _) _ => destruct b
      | |- does (match ?x with _ => _ end) _ => destruct x
      | |- does (let (_, _) := ?x in _) _ => destruct x
      end ].

(** *** The update from end to end *)


(** X13.  [run_update] changes nothing before it has announced the version:
    either no event of a run removes, renames or writes a file or starts a
    process, or the events before the first such event contain the message
    that the update to a version begins. *)
Theorem nothing_is_changed_before_the_announcement (st : state) :
  exists evs,
    log (snd (run_update P L O st)) = (log st ++ evs)%list /\
    (Forall quiet evs \/
     exists id pre post,
       evs = (pre ++ announces id :: post)%list /\ Forall quiet pre).
Proof.
  destruct (run_update_does st) as (evs & Hlog & _ & Hcases).
  exists evs. split; [exact Hlog|].
  destruct Hcases as [[H _]|(id & pre & post & H & Hpre & _)];
    [left; exact H | right; eauto].
Qed.

(** X14.  Whenever [run_update] renames the new executable onto the program,
    done or not, the event just before is the renaming of the program to
    its [.old] name, and that went through. *)
Theorem executable_is_backed_up_before_it_is_replaced (st : state) :
  exists evs,
    log (snd (run_update P L O st)) = (log st ++ evs)%list /\
    forall pre done post,
      evs = (pre ++ Rename (filename P L ++ ".new") (filename P L) done
                 :: post)%list ->
      exists pre',
        pre = (pre' ++ [Rename (filename P L) (filename P L ++ ".old") true])%list.
Proof.
  destruct (run_update_does st) as (evs & Hlog & Hbacked & _).
  exists evs. split; [exact Hlog|].
  intros pre done post ->.
  destruct (backed_up_at _ _ _ _ _ (Hbacked None)) as [[_ H]|H];
    [discriminate | exact H].
Qed.

(** X15.  [run_update] returns [True], which ends the program, only when the
    program is an executable and the run ends with the swap: the program
    renamed to its [.old] name, the new file renamed onto the program, the
    process started that deletes the old file, and the message that names
    the version, all done, and the version is the one announced before. *)
Theorem True_is_returned_only_after_the_swap (st : state) :
  fst (run_update P L O st) = Ok ReturnedTrue ->
  frozen P = true /\
  exists id pre mid,
    log (snd (run_update P L O st)) =
    (log st ++ pre ++ announces id :: mid ++ swap (filename P L) id)%list.
Proof.
  intros Hr.
  destruct (run_update_does st) as (evs & Hlog & _ & Hcases).
  destruct Hcases as [[_ H]|(id & pre & post & -> & _ & Hswap)];
    [now destruct H|].
  destruct (Hswap Hr) as (Hfrozen & mid & ->).
  split; [exact Hfrozen|]. exists id, pre, mid. exact Hlog.
Qed.

(** X16.  The installation of a zip file changes one thing at most: it writes
    the program file once, and what it writes is what it has just fetched.
    Between the two it has fetched the sums or not; if it has, they give no
    hash for [youtube-dl], or the hash of what is written.  It never
    returns [True]. *)
Theorem zip_is_written_as_fetched_and_checked (c : context) (st : state) :
  exists evs,
    log (snd (install_zip P L O c st)) = (log st ++ evs)%list /\
    fst (install_zip P L O c st) <> Ok (Return ReturnedTrue) /\
    (Forall quiet evs \/
     exists url content sums done rest,
       evs = (Fetch url (Ok content) :: sums
              ++ Write (filename P L) content done :: rest)%list /\
       allowed_by (sha256_hexdigest L) "youtube-dl" content sums /\
       Forall quiet rest).
Proof.
  destruct (install_zip_does c st) as (evs & Hlog & Hr & Hcases).
  exists evs. auto.
Qed.

(** X17.  A download that could not be verified does not end the installation of
    an executable.  When the new file does not have the sum the release
    gives, [install_exe] reports it and removes the file, and if the
    removal goes through it goes on as after a good download: in every run
    the removal of the new file is directly followed by the renaming of the
    program to its [.old] name. *)
Theorem swap_goes_on_after_a_corrupt_download (c : context) (st : state) :
  exists evs,
    log (snd (install_exe P L O c st)) = (log st ++ evs)%list /\
    forall pre post,
      evs = (pre ++ Remove (filename P L ++ ".new") true :: post)%list ->
      exists done post',
        post = Rename (filename P L) (filename P L ++ ".old") done :: post'.
Proof.
  destruct (install_exe_goes_on c st) as (evs & Hlog & Hgoes).
  exists evs. split; [exact Hlog|].
  intros pre post ->. clear Hlog.
  induction pre as [|ev pre IH]; cbn in Hgoes.
  - destruct Hgoes as [H _]. now apply H.
  - apply IH. apply Hgoes.
Qed.

(** X18.  The updater touches its own files only.  Whatever the platform and
    whatever the outside answers, the files [run_update] asks about,
    hashes, removes, renames or writes are the program file and its [.old]
    and [.new] names (and, for the question whether it can be written, the
    directory of the program); the only process it starts is the one that
    deletes the [.old] file. *)
Theorem updater_touches_only_its_own_files (st : state) :
  exists evs,
    log (snd (run_update P L O st)) = (log st ++ evs)%list /\
    Forall (touches_only (filename P L) (dirname L (filename P L))) evs.
Proof.
  revert st.
  change (does (run_update P L O)
            (fun _ evs =>
               Forall (touches_only (filename P L) (dirname L (filename P L)))
                      evs)).
  unfold run_update, finish, and_then, preamble, install, install_exe,
    install_zip, install_error, download, get_sha256sum, get_version_info,
    open_url, fetch, calc_sha256sum, except_OSError,
    except_OSError_StopIteration, return_error, report_error,
    ydl_report_error, report_warning, to_screen.
  cbv zeta.
  repeat everywhere_step; cbn; auto.
Qed.

End Updater.



(** ** The sums of a release *)

Lemma starts_with_spec (p s : string) :
  starts_with p s = true <-> exists post, s = p ++ post.
Proof.
  revert s. induction p as [|a p IH]; intros s; cbn.
  - split; [intros _; now exists s | reflexivity].
  - destruct s as [|b s].
    + split; [discriminate | intros [post H]; discriminate].
    + rewrite andb_true_iff, Ascii.eqb_eq, IH. split.
      * intros [-> [post ->]]. now exists post.
      * intros [post H]. injection H as -> ->. split; [reflexivity | now exists post].
Qed.

Lemma contains_spec (needle hay : string) :
  contains needle hay = true <-> exists pre post, hay = pre ++ needle ++ post.
Proof.
  induction hay as [|c hay IH].
  - cbn. rewrite orb_false_r, starts_with_spec. split.
    + intros [post H]. now exists "", post.
    + intros (pre & post & H). destruct pre; [|discriminate]. now exists post.
  - cbn [contains]. rewrite orb_true_iff, starts_with_spec, IH. split.
    + intros [[post H]|(pre & post & H)].
      * now exists "", post.
      * exists (String c pre), post. cbn. now rewrite H.
    + intros (pre & post & H). destruct pre as [|c' pre].
      * left. now exists post.
      * right. injection H as _ H. now exists pre, post.
Qed.

Section Sums.

Context {J : JsonModule}.

(** X19.  The asset taken as the sums file is looked for with [in] against a
    string: an asset is accepted exactly when its name is a string that
    occurs somewhere inside [SHA2-256SUMS], the empty name included. *)
Theorem sums_asset_is_any_substring (i : json) :
  Update.name_in_sums i = Ok true <->
  exists s pre post,
    py_getitem i "name" = Ok (JString s) /\
    "SHA2-256SUMS" = pre ++ s ++ post.
Proof.
  unfold Update.name_in_sums.
  destruct (py_getitem i "name") as [v|e]; [|split; [discriminate|]].
  - destruct v as [ |b|n|m e| |b|s|l|d];
      try (split; [discriminate | intros (s' & pre & post & H & _); discriminate]).
    split.
    + intros H.
      assert (Hc : contains s "SHA2-256SUMS" = true) by congruence.
      apply contains_spec in Hc.
      destruct Hc as (pre & post & Hc). exists s, pre, post. auto.
    + intros (s' & pre & post & H & Hsub). injection H as <-.
      f_equal. apply contains_spec. eauto.
  - intros (s' & pre & post & H & _). discriminate.
Qed.

End Sums.

Lemma plain_cons (c : ascii) (s : string) :
  plain (String c s) = true ->
  is_line_break c = false /\ Ascii.eqb c ":" = false /\ plain s = true.
Proof.
  unfold plain. cbn. rewrite !andb_true_iff, !negb_true_iff. tauto.
Qed.

Lemma split_on_colon_plain (s : string) :
  plain s = true -> split_on ":" s = [s].
Proof.
  induction s as [|c s IH]; [reflexivity|].
  intros H. apply plain_cons in H. destruct H as (_ & Hc & Hs).
  cbn. rewrite Hc, (IH Hs). reflexivity.
Qed.

Lemma split_on_colon_pair (name hash : string) :
  plain name = true -> plain hash = true ->
  split_on ":" (name ++ ":" ++ hash) = [name; hash].
Proof.
  intros Hn Hh. induction name as [|c name IH].
  - cbn. now rewrite (split_on_colon_plain hash Hh).
  - apply plain_cons in Hn. destruct Hn as (_ & Hc & Hn).
    cbn. rewrite Hc. cbn in IH. rewrite (IH Hn). reflexivity.
Qed.

Lemma splitlines_from_line (line s rest : string) :
  forallb (fun c => negb (is_line_break c)) (list_ascii_of_string s) = true ->
  splitlines_from line (s ++ newline ++ rest) =
  (line ++ s) :: splitlines_from "" rest.
Proof.
  revert line. induction s as [|c s IH]; intros line Hs.
  - rewrite string_app_nil_r. destruct rest; reflexivity.
  - cbn in Hs. apply andb_true_iff in Hs. destruct Hs as [Hc Hs].
    apply negb_true_iff in Hc. cbn [append splitlines_from]. rewrite Hc.
    rewrite (IH _ Hs), string_app_assoc. reflexivity.
Qed.

Lemma plain_no_line_break (s : string) :
  plain s = true ->
  forallb (fun c => negb (is_line_break c)) (list_ascii_of_string s) = true.
Proof.
  induction s as [|c s IH]; [reflexivity|].
  intros H. apply plain_cons in H. destruct H as (Hc & _ & Hs).
  cbn. now rewrite Hc, (IH Hs).
Qed.

Lemma no_line_break_app (a b : string) :
  forallb (fun c => negb (is_line_break c)) (list_ascii_of_string a) = true ->
  forallb (fun c => negb (is_line_break c)) (list_ascii_of_string b) = true ->
  forallb (fun c => negb (is_line_break c)) (list_ascii_of_string (a ++ b)) = true.
Proof.
  intros Ha Hb. induction a as [|c a IH]; [exact Hb|].
  cbn in *. apply andb_true_iff in Ha. destruct Ha as [Hc Ha].
  now rewrite Hc, (IH Ha).
Qed.

Lemma splitlines_sums_text (entries : list (string * string)) :
  Forall (fun e => plain (fst e) = true /\ plain (snd e) = true) entries ->
  splitlines (sums_text entries) =
  map (fun e => fst e ++ ":" ++ snd e) entries.
Proof.
  unfold splitlines. induction 1 as [|[name hash] entries [Hn Hh] _ IH];
    [reflexivity|].
  cbn [sums_text map fst snd] in *.
  rewrite <- 2 string_app_assoc, (string_app_assoc name).
  rewrite splitlines_from_line, IH; [reflexivity|].
  apply no_line_break_app; [now apply plain_no_line_break|].
  apply (no_line_break_app ":"); [reflexivity | now apply plain_no_line_break].
Qed.

(** X20.  A sums file written as one line [name:hash] for each entry, names and
    hashes without colons and line breaks, is read back: looked up in its
    lines, a name gives the hash of the first entry with this name, and
    [None] when there is none. *)
Theorem sums_are_read_back (entries : list (string * string)) (name : string) :
  Forall (fun e => plain (fst e) = true /\ plain (snd e) = true) entries ->
  Update.sums_lookup (splitlines (sums_text entries)) name =
  Ok (first_entry entries name).
Proof.
  intros H. rewrite (splitlines_sums_text entries H).
  induction H as [|[n h] entries [Hn Hh] _ IH]; [reflexivity|].
  cbn [map fst snd Update.sums_lookup first_entry] in *.
  rewrite (split_on_colon_pair n h Hn Hh).
  destruct (n =? name); [reflexivity | exact IH].
Qed.

(** * Properties of the FC2 extractors *)

Section FC2Properties.

Import FC2.

Variable login_info : option string * option string.
Variable pages_of_the_site : nat -> request -> result string.
Variable member_name : string -> option string.
Variable video_urls : string -> list string.
Variable entry : Type.
Variable playlist : Type.
Variable url_result : string -> entry.
Variable playlist_result : list entry -> string -> option string -> playlist.

(** X21.  [_login] asks for nothing without a user name and a password.  With
    both it posts the form once; it asks for the redirect page exactly when
    the answer contains [login=done], and returns [True] only when that page
    has come; an answer without [login=done] gives a warning and [False];
    a download that fails is raised, with nothing asked after it. *)
Theorem login_redirects_only_after_login_done (st : state) :
  let out := _login login_info pages_of_the_site st in
  let form username password :=
    Request "https://secure.id.fc2.com/index.php?mode=login&switch_language=en"
            (Some [ ("email", username); ("password", password);
                    ("done", "video"); ("Submit", " Login ") ]) in
  let redirect := Request "http://secure.id.fc2.com/?login=done" None in
  match fst out with
  | Ok true =>
      exists username password results redirected,
        login_info = (Some username, Some password) /\
        (exists pre post, results = pre ++ "login=done" ++ post) /\
        log (snd out) =
          (log st ++
           [ Download (form username password) "Logging in" (Ok results);
             Download redirect "Login redirect" (Ok redirected) ])%list
  | Ok false =>
      ((fst login_info = None \/ snd login_info = None) /\
       snd out = st) \/
      exists username password results,
        login_info = (Some username, Some password) /\
        ~ (exists pre post, results = pre ++ "login=done" ++ post) /\
        log (snd out) =
          (log st ++
           [ Download (form username password) "Logging in" (Ok results);
             ReportWarning "unable to log in: bad username or password" ])%list
  | Err e =>
      exists username password,
        login_info = (Some username, Some password) /\
        (log (snd out) =
           (log st ++
            [ Download (form username password) "Logging in" (Err e) ])%list
         \/
         exists results,
           (exists pre post, results = pre ++ "login=done" ++ post) /\
           log (snd out) =
             (log st ++
              [ Download (form username password) "Logging in" (Ok results);
                Download redirect "Login redirect" (Err e) ])%list)
  end.
Proof.
  cbv zeta. unfold _login.
  destruct login_info as [[username|] [password|]] eqn:Hinfo; cbn [fst snd];
    try (unfold ret; cbn [fst snd]; left; split; [auto | reflexivity]).
  unfold bind, _download_webpage, report_warning, ret. cbn [fst snd calls log].
  destruct (pages_of_the_site (calls st) (login_request username password))
    as [results|e] eqn:Hfirst; cbn [fst snd log calls].
  - destruct (contains "login=done" results) eqn:Hdone;
      cbn [negb fst snd log calls].
    + apply contains_spec in Hdone.
      destruct (pages_of_the_site (S (calls st)) login_redir)
        as [redirected|e] eqn:Hsecond; cbn [fst snd log calls];
        rewrite <- app_assoc; cbn [app].
      * exists username, password, results, redirected. auto.
      * exists username, password. split; [reflexivity|]. right.
        exists results. auto.
    + right. exists username, password, results. split; [reflexivity|].
      split.
      * intros H. apply contains_spec in H. congruence.
      * rewrite <- app_assoc. reflexivity.
  - exists username, password. auto.
Qed.

Section UserPages.

Variable extra : string.
Variable user_id : string.

Lemma pages_from_S (fuel page : nat) (results : list entry)
    (uploader_name : option string) (st : state) :
  pages_from pages_of_the_site member_name video_urls
    entry playlist url_result playlist_result extra user_id
    (S fuel) page results uploader_name st =
  let got := pages_of_the_site (calls st) (page_request extra user_id page) in
  let st1 :=
    State (S (calls st))
          (log st ++ [Download (page_request extra user_id page)
                               (page_note page) got]) in
  match got with
  | Err e => (Err e, st1)
  | Ok webpage =>
      match video_urls webpage with
      | [] =>
          (Ok (Some (playlist_result results user_id
                       (name_or uploader_name (member_name webpage)))), st1)
      | _ :: _ =>
          pages_from pages_of_the_site member_name video_urls
            entry playlist url_result playlist_result extra user_id
            fuel (S page)
            (results ++ map url_result (video_urls webpage))%list
            (name_or uploader_name (member_name webpage)) st1
      end
  end.
Proof.
  cbn [pages_from]. unfold bind, _download_webpage, ret. cbv zeta.
  destruct (pages_of_the_site (calls st) (page_request extra user_id page))
    as [webpage|e]; [|reflexivity].
  destruct (video_urls webpage); reflexivity.
Qed.

Lemma pages_from_reads (fuel : nat) :
  forall (page : nat) (results : list entry) (uploader_name : option string)
         (st : state),
    let out := pages_from pages_of_the_site member_name video_urls
                 entry playlist url_result playlist_result extra user_id
                 fuel page results uploader_name st in
    exists full,
      Forall (fun webpage => video_urls webpage <> []) full /\
      List.length full <= fuel /\
      match fst out with
      | Ok (Some found) =>
          exists last,
            video_urls last = [] /\
            log (snd out) =
              (log st ++ downloads extra user_id page (map Ok full ++ [Ok last]))%list /\
            found =
              playlist_result
                (results ++ map url_result (concat (map video_urls full)))%list
                user_id
                (name_after member_name uploader_name (full ++ [last]))
      | Ok None =>
          List.length full = fuel /\
          log (snd out) =
            (log st ++ downloads extra user_id page (map Ok full))%list
      | Err e =>
          log (snd out) =
            (log st ++ downloads extra user_id page (map Ok full ++ [Err e]))%list
      end.
Proof.
  induction fuel as [|fuel IH]; intros page results uploader_name st.
  - exists []. cbn. rewrite app_nil_r. auto.
  - cbv zeta. rewrite pages_from_S. cbv zeta.
    destruct (pages_of_the_site (calls st) (page_request extra user_id page))
      as [webpage|e] eqn:Hgot.
    + destruct (video_urls webpage) as [|u us] eqn:Hvideos; cbn [map].
      * exists []. split; [constructor|]. split; [cbn; lia|].
        cbn [fst snd log]. exists webpage.
        split; [exact Hvideos|]. split; [reflexivity|].
        cbn. now rewrite app_nil_r.
      * specialize (IH (S page)
                      (results ++ url_result u :: map url_result us)%list
                      (name_or uploader_name (member_name webpage))
                      (State (S (calls st))
                             (log st ++ [Download (page_request extra user_id page)
                                                  (page_note page) (Ok webpage)]))).
        cbv zeta in IH. destruct IH as (full & Hfull & Hlen & Hout).
        exists (webpage :: full).
        split; [constructor; [congruence | exact Hfull]|].
        split; [cbn; lia|].
        match type of Hout with
        | match fst ?o with _ => _ end =>
            destruct (fst o) as [[found|]|e]; cbn [log] in Hout
        end.
        -- destruct Hout as (last & Hlast & Hlog & Hfound).
           exists last. split; [exact Hlast|]. split.
           ++ rewrite Hlog, <- app_assoc. reflexivity.
           ++ rewrite Hfound. cbn [map concat]. rewrite Hvideos.
              rewrite map_app, app_assoc. reflexivity.
        -- destruct Hout as [Hfuel Hlog]. split; [cbn; lia|].
           rewrite Hlog, <- app_assoc. reflexivity.
        -- rewrite Hout, <- app_assoc. reflexivity.
    + exists []. split; [constructor|]. split; [cbn; lia|].
      cbn [fst snd log]. reflexivity.
Qed.

(** X22.  The pages of a user are read until one has no video.  After [_login],
    [FC2UserIE._real_extract] asks for the pages 1, 2, 3, ... of the account
    in this order, each once, and stops at the first page that fails, which
    it raises, or holds no video.  Its result lists the videos of the pages
    before that one, page by page, under the id of the user, and is titled
    with the first uploader name found on the pages read, the last one
    included.  The loop has no other end: a run stopped by the bound has
    read that many pages and found videos on each. *)
Theorem user_pages_are_read_until_one_is_empty (fuel : nat) (st : state) :
  let logged := _login login_info pages_of_the_site st in
  let out := _real_extract login_info pages_of_the_site member_name video_urls
               entry playlist url_result playlist_result extra user_id
               fuel st in
  match fst logged with
  | Err e => out = (Err e, snd logged)
  | Ok _ =>
      exists full,
        Forall (fun webpage => video_urls webpage <> []) full /\
        match fst out with
        | Ok (Some found) =>
            exists last,
              video_urls last = [] /\
              log (snd out) =
                (log (snd logged)
                 ++ downloads extra user_id 1 (map Ok full ++ [Ok last]))%list /\
              found =
                playlist_result
                  (map url_result (concat (map video_urls full)))
                  user_id
                  (name_after member_name None (full ++ [last]))
        | Ok None =>
            List.length full = fuel /\
            log (snd out) =
              (log (snd logged) ++ downloads extra user_id 1 (map Ok full))%list
        | Err e =>
            log (snd out) =
              (log (snd logged)
               ++ downloads extra user_id 1 (map Ok full ++ [Err e]))%list
        end
  end.
Proof.
  cbv zeta.
  assert (Hrun :
    _real_extract login_info pages_of_the_site member_name video_urls
      entry playlist url_result playlist_result extra user_id fuel st =
    match _login login_info pages_of_the_site st with
    | (Ok _, st1) =>
        pages_from pages_of_the_site member_name video_urls
          entry playlist url_result playlist_result extra user_id
          fuel 1 [] None st1
    | (Err e, st1) => (Err e, st1)
    end) by reflexivity.
  rewrite Hrun. clear Hrun.
  destruct (_login login_info pages_of_the_site st) as [[logged|e] st1];
    cbn [fst snd]; [|reflexivity].
  destruct (pages_from_reads fuel 1 [] None st1) as (full & Hfull & _ & Hout).
  exists full. split; [exact Hfull | exact Hout].
Qed.

End UserPages.

End FC2Properties.

(** * The properties at work *)

Import PyJson.

Lemma first_pass (info : info_dict) (verbose : bool) (fuel : nat)
    (w : world) (recv : string) (rest : list arrival) (data : json) :
  inbox w = Frame recv :: rest ->
  recv <> "" ->
  json_loads recv = Ok data ->
  receives info verbose agent (S fuel) false w (Info.ws info) fuel w recv rest data.
Proof.
  intros Hin Hne Hdata. exists w. split; [reflexivity|].
  split; [apply comes_here|]. repeat split; assumption.
Qed.

Lemma disconnect_stops_supervisor_witness :
  ws_main sample_info false agent 1 2 false ping_then_disconnect =
    (Ret tt,
     emit (EvClose 0)
       (emit (EvWriteDebug (JDict [("type", JString "disconnect")]))
          (after_recv 0 disconnect_text [] after_ping))).
Proof.
  apply (disconnect_stops_supervisor sample_info false agent 0 2 false
           ping_then_disconnect 0 0 after_ping disconnect_text []
           [("type", JString "disconnect")]).
  - exists ping_then_disconnect. split; [reflexivity|]. split.
    + eapply comes_later; [reflexivity | apply comes_here].
    + split; [reflexivity|]. split; [discriminate | reflexivity].
  - reflexivity.
Defined.

Lemma first_pass_undecodable (info : info_dict) (verbose : bool) (fuel : nat)
    (w : world) (recv : string) (rest : list arrival) (e : exn) :
  inbox w = Frame recv :: rest ->
  recv <> "" ->
  json_loads recv = Err e ->
  receives_undecodable info verbose agent (S fuel) false w (Info.ws info)
    fuel w recv rest e.
Proof.
  intros Hin Hne Hdata. exists w. split; [reflexivity|].
  split; [apply comes_here|]. repeat split; assumption.
Qed.

(** C1, where it fails: the frame "{" is no JSON.  [json.loads] raises, the
    pass is not a pass that goes round again, and the session ends by the
    exception with the frame after it still unread. *)
Lemma undecodable_frame_ends_session :
  json_loads "{" = Err decode_failure /\
  on_frame false 0 garbage_then_disconnect <>
    (Ret None, after_recv 0 "{" [Frame disconnect_text] garbage_then_disconnect) /\
  communicate_ws sample_info false agent 2 false garbage_then_disconnect =
    (Raise decode_failure,
     World [Frame disconnect_text] [] [] 1 [EvRecv 0 "{"; EvClose 0]).
Proof.
  split; [reflexivity|]. split; [discriminate | reflexivity].
Qed.

Lemma frames_skipped_or_session_ended_witness :
  (on_frame false 0 number_then_disconnect =
     (Ret None, after_recv 0 "0" [Frame disconnect_text] number_then_disconnect) /\
   communicate_ws sample_info false agent 2 false number_then_disconnect =
     receive_loop false 1 0
       (after_recv 0 "0" [Frame disconnect_text] number_then_disconnect)) /\
  (json_loads "" = Err (PyJson.decode_error "Expecting value") /\
   on_frame false 0 (sample_world [Frame ""; Frame disconnect_text]) =
     (Ret None,
      after_recv 0 "" [Frame disconnect_text]
        (sample_world [Frame ""; Frame disconnect_text])) /\
   fst (communicate_ws sample_info false agent 2 false
          (sample_world [Frame ""; Frame disconnect_text])) = Ret ReturnTrue) /\
  ("{" <> "" /\
   communicate_ws sample_info false agent 2 false garbage_then_disconnect =
     (Raise decode_failure,
      emit (EvClose 0)
        (after_recv 0 "{" [Frame disconnect_text] garbage_then_disconnect)) /\
   ws_main sample_info false agent 1 2 false garbage_then_disconnect =
     ws_main sample_info false agent 0 2 true
       (after_handler sample_info decode_failure
          (emit (EvClose 0)
             (after_recv 0 "{" [Frame disconnect_text] garbage_then_disconnect)))).
Proof.
  split; [|split].
  - apply (proj1 (frames_skipped_or_session_ended sample_info false agent
                    0 2 false number_then_disconnect 0 1
                    number_then_disconnect "0" [Frame disconnect_text])
             (JInt 0)).
    + apply (first_pass sample_info false 1); [reflexivity | discriminate | reflexivity].
    + left. reflexivity.
  - split; [reflexivity|].
    destruct (proj1 (proj2 (frames_skipped_or_session_ended sample_info false
                              agent 0 2 false
                              (sample_world [Frame ""; Frame disconnect_text])
                              0 1
                              (sample_world [Frame ""; Frame disconnect_text])
                              "" [Frame disconnect_text]))
                (sample_world [Frame ""; Frame disconnect_text])
                eq_refl (comes_here _ _ _) eq_refl) as [Hpass Hsession].
    split; [exact Hpass|]. rewrite Hsession. reflexivity.
  - apply (proj1 (proj2 (proj2 (frames_skipped_or_session_ended sample_info
                           false agent
                           0 2 false garbage_then_disconnect 0 1
                           garbage_then_disconnect "{" [Frame disconnect_text])))
             decode_failure).
    apply (first_pass_undecodable sample_info false 1);
      [reflexivity | discriminate | reflexivity].
Defined.

(** C5, where it fails: an error frame whose [body.code] is the empty
    string.  The code is a string, yet the message is not that string but
    the frame as received. *)
Lemma empty_error_code_falls_back :
  json_loads (error_text (quoted "")) = Ok (error_data (JString "")) /\
  body_code (error_data (JString "")) = Ok (JString "") /\
  fst (communicate_ws sample_info false agent 1 false
         (sample_world [Frame (error_text (quoted ""))])) =
    Ret (ReturnDownloadError (JString (error_text (quoted "")))) /\
  JString (error_text (quoted "")) <> JString "".
Proof.
  split; [reflexivity|]. split; [reflexivity|].
  split; [reflexivity | discriminate].
Qed.

Lemma error_frame_detail_witness :
  (let recv := error_text (quoted "CONNECT_ERROR") in
   let w := sample_world [Frame recv] in
   communicate_ws sample_info false agent 1 false w =
     (Ret (ReturnDownloadError (JString "CONNECT_ERROR")),
      emit (EvClose 0)
        (emit (EvWriteDebug (error_data (JString "CONNECT_ERROR")))
           (after_recv 0 recv [] w)))) /\
  (let recv := error_without_code_text in
   let w := sample_world [Frame recv] in
   communicate_ws sample_info false agent 1 false w =
     (Ret (ReturnDownloadError (JString recv)),
      emit (EvClose 0)
        (emit (EvWriteDebug error_without_code_data) (after_recv 0 recv [] w)))).
Proof.
  split; intros recv w.
  - apply (proj1 (error_frame_detail sample_info false agent 1 false w 0 0 w
                    recv [] _
                    (first_pass sample_info false 0 w recv []
                       (error_data (JString "CONNECT_ERROR"))
                       eq_refl ltac:(discriminate) eq_refl)
                    eq_refl)
             "CONNECT_ERROR").
    + reflexivity.
    + discriminate.
  - apply (proj2 (proj2 (error_frame_detail sample_info false agent 1 false
                           w 0 0 w recv [] _
                           (first_pass sample_info false 0 w recv []
                              error_without_code_data
                              eq_refl ltac:(discriminate) eq_refl)
                           eq_refl))
             (Exn "KeyError" "code")).
    reflexivity.
Defined.

Lemma error_code_not_a_string_falls_back_witness :
  let w := sample_world [Frame long_error_text] in
  (100 < String.length long_error_text) /\
  exists detail,
    communicate_ws sample_info false agent 1 false w =
      (Ret (ReturnDownloadError (JString detail)),
       emit (EvClose 0)
         (emit (EvWriteDebug long_error_data)
            (after_recv 0 long_error_text [] w))) /\
    detail = long_error_text /\
    String.length detail = String.length long_error_text.
Proof.
  intros w. split; [vm_compute; lia|].
  apply (error_code_not_a_string_falls_back sample_info false agent 1 false
           w 0 0 w long_error_text [] _ (JInt 404)).
  - apply (first_pass sample_info false 0 w long_error_text [] long_error_data);
      [reflexivity | discriminate | reflexivity].
  - reflexivity.
  - reflexivity.
  - reflexivity.
Defined.

Lemma ping_is_answered_witness :
  let pong :=
    "{" ++ String "034"%char ("type" ++ String "034"%char (":" ++
           String "034"%char ("pong" ++ String "034"%char "}"))) in
  let keepSeat :=
    "{" ++ String "034"%char ("type" ++ String "034"%char (":" ++
           String "034"%char ("keepSeat" ++ String "034"%char "}"))) in
  (let w' :=
     sent 0 keepSeat
       (sent 0 pong
          (after_recv 0 ping_text [Frame disconnect_text] ping_then_disconnect)) in
   on_frame false 0 ping_then_disconnect = (Ret None, w') /\
   trace w' =
     (trace ping_then_disconnect ++
      [EvRecv 0 ping_text; EvSend 0 pong; EvSend 0 keepSeat])%list /\
   communicate_ws sample_info false agent 2 false ping_then_disconnect =
     receive_loop false 1 0 w') /\
  (let w' :=
     send_failed 0 pong connection_reset
       (after_recv 0 ping_text [] ping_unanswerable) in
   trace w' =
     (trace ping_unanswerable ++
      [EvRecv 0 ping_text; EvSendFailed 0 pong connection_reset])%list /\
   communicate_ws sample_info false agent 2 false ping_unanswerable =
     (Raise connection_reset, emit (EvClose 0) w') /\
   ws_main sample_info false agent 1 2 false ping_unanswerable =
     ws_main sample_info false agent 0 2 true
       (after_handler sample_info connection_reset (emit (EvClose 0) w'))).
Proof.
  intros pong keepSeat. split.
  - apply (proj1 (ping_is_answered sample_info false agent 0 2 false
                    ping_then_disconnect 0 1 ping_then_disconnect ping_text
                    [Frame disconnect_text] [("type", JString "ping")]
                    (first_pass sample_info false 1 ping_then_disconnect
                       ping_text [Frame disconnect_text] ping_data
                       eq_refl ltac:(discriminate) eq_refl)
                    eq_refl));
      reflexivity.
  - apply (proj1 (proj2 (ping_is_answered sample_info false agent 0 2 false
                    ping_unanswerable 0 1 ping_unanswerable ping_text
                    [] [("type", JString "ping")]
                    (first_pass sample_info false 1 ping_unanswerable
                       ping_text [] ping_data
                       eq_refl ltac:(discriminate) eq_refl)
                    eq_refl)) connection_reset).
    reflexivity.
Defined.

Lemma only_other_objects_are_shown_witness :
  on_frame true 0 number_then_disconnect =
    (Ret None, after_recv 0 "0" [Frame disconnect_text] number_then_disconnect) /\
  on_frame true 0 (sample_world [Frame "{}"]) =
    (Ret None, after_recv 0 "{}" [] (sample_world [Frame "{}"])) /\
  exists recv rest,
    inbox (sample_world [Frame stream_text]) = Frame recv :: rest /\
    on_frame true 0 (sample_world [Frame stream_text]) =
      (Ret None,
       emit (EvToScreen ("[debug] Server said: " ++ preview recv))
            (after_recv 0 recv rest (sample_world [Frame stream_text]))) /\
    String.length (preview recv) <= 103.
Proof.
  split; [|split].
  - apply (proj1 (only_other_objects_are_shown true 0 number_then_disconnect)
             "0" [Frame disconnect_text] (JInt 0));
      [reflexivity | discriminate | reflexivity | left; reflexivity].
  - apply (proj1 (only_other_objects_are_shown true 0 (sample_world [Frame "{}"]))
             "{}" [] (JDict []));
      [reflexivity | discriminate | reflexivity | left; reflexivity].
  - apply (proj2 (proj2 (only_other_objects_are_shown true 0
                           (sample_world [Frame stream_text])))).
    reflexivity.
Defined.

Lemma session_start_once_per_fresh_open_witness :
  let start := json_dumps (startWatching sample_info) in
  let evs :=
    events_of (thread_target sample_info true agent 2 2) error_then_disconnect in
  start <> pong_frame /\ start <> keepSeat_frame /\
  count_if (is_send_of start) evs = count_if is_connect evs /\
  count_if is_connect evs = 1 /\
  Info.live_quality sample_info = None /\
  Info.live_latency sample_info = Some "low" /\
  startWatching sample_info =
    JDict [
      ("type", JString "startWatching");
      ("data", JDict [
         ("stream", JDict [
            ("quality", JString "high");
            ("protocol", JString "hls+fmp4");
            ("latency", JString "low");
            ("chasePlay", JBool false) ]);
         ("room", JDict [
            ("protocol", JString "webSocket");
            ("commentable", JBool true) ]);
         ("reconnect", JBool true) ]) ].
Proof.
  intros start evs.
  assert (Hp : start <> pong_frame) by discriminate.
  assert (Hk : start <> keepSeat_frame) by discriminate.
  split; [exact Hp|]. split; [exact Hk|].
  split; [|split; [reflexivity|split; [reflexivity|split; [reflexivity|]]]].
  - apply (proj1 (proj2 (proj2 (proj2
             (session_start_once_per_fresh_open sample_info true agent Hp Hk))))
             2 2 error_then_disconnect).
  - exact (proj2 (proj2 (proj2 (proj2
             (session_start_once_per_fresh_open sample_info true agent Hp Hk))))).
Defined.

Lemma interleave_last {A} (b : A) (r : list A) : interleave [b] r (r ++ [b]).
Proof.
  induction r as [|a r IH]; cbn.
  - apply interleave_left, interleave_nil.
  - apply interleave_right, IH.
Qed.

Lemma media_download_called_once_witness :
  let ffmpeg := fun (_ : string) (_ : info_dict) => Ok true in
  let bg :=
    events_of (thread_target sample_info false agent 2 2) broken_then_disconnect in
  count_if is_connect bg = 1 /\
  count_if is_download
    (EvThreadStart :: bg ++ [EvDownload "out.mp4" (new_info_dict sample_info)]) = 1 /\
  count_if is_download bg = 0.
Proof.
  intros ffmpeg bg. split; [reflexivity|].
  apply (proj1 (media_download_called_once sample_info false agent ffmpeg "out.mp4")
           true (sample_world []) broken_then_disconnect 2 2
           (EvThreadStart :: bg ++ [EvDownload "out.mp4" (new_info_dict sample_info)])
           eq_refl).
  rewrite real_download_events.
  apply interleave_left, interleave_last.
Defined.

(** C2, where it fails.  An error frame ends the first session by
    [return DownloadError(...)]; [ws_main] drops the value and opens the next
    socket at once: no message and no sleep stand between the closing of the
    first socket and the new connection.  A broken transport ends it by an
    exception, and there the message and [time.sleep(10)] come first. *)
Theorem error_return_is_retried_without_delay :
  let headers := ws_headers sample_info agent in
  let start := json_dumps (startWatching sample_info) in
  let error := error_text (quoted "CONNECT_ERROR") in
  trace (snd (ws_main sample_info false agent 2 2 false error_then_disconnect)) =
    [ EvRecv 0 error;
      EvWriteDebug (error_data (JString "CONNECT_ERROR"));
      EvClose 0;
      EvConnect 1 (ws_url sample_info) headers;
      EvSend 1 start;
      EvRecv 1 disconnect_text;
      EvWriteDebug disconnect_data;
      EvClose 1 ] /\
  trace (snd (ws_main sample_info false agent 2 2 false broken_then_disconnect)) =
    [ EvRecvFailed 0 connection_reset;
      EvClose 0;
      EvToScreen (connection_error_message sample_info connection_reset);
      EvSleep 10;
      EvConnect 1 (ws_url sample_info) headers;
      EvSend 1 start;
      EvRecv 1 disconnect_text;
      EvWriteDebug disconnect_data;
      EvClose 1 ] /\
  count_if is_sleep
    (trace (snd (ws_main sample_info false agent 2 2 false error_then_disconnect)))
    = 0 /\
  count_if is_sleep
    (trace (snd (ws_main sample_info false agent 2 2 false broken_then_disconnect)))
    = 1.
Proof. repeat split. Qed.

(** C8, where it fails.  The start frame is sent before the [with] block is
    entered: when that send fails, the socket just opened is left open, and
    the next session opens another.  Here sockets 1 and 2 are open
    together. *)
Theorem failed_start_send_leaves_socket_open :
  let t := trace (snd (ws_main sample_info false agent 3 2 false start_send_fails)) in
  let headers := ws_headers sample_info agent in
  let start := json_dumps (startWatching sample_info) in
  t = [ EvRecvFailed 0 connection_reset;
        EvClose 0;
        EvToScreen (connection_error_message sample_info connection_reset);
        EvSleep 10;
        EvConnect 1 (ws_url sample_info) headers;
        EvSendFailed 1 start connection_reset;
        EvToScreen (connection_error_message sample_info connection_reset);
        EvSleep 10;
        EvConnect 2 (ws_url sample_info) headers;
        EvSend 2 start ] /\
  live_after [Info.ws sample_info] t = [1; 2] /\
  peak_open [Info.ws sample_info] t = 2.
Proof. repeat split. Qed.

(** With [PyJson] the start frame is neither of the two answers to a ping,
    whatever [info_dict] holds. *)
Lemma start_frame_is_no_ping_answer (info : info_dict) :
  json_dumps (startWatching info) <> pong_frame /\
  json_dumps (startWatching info) <> keepSeat_frame.
Proof. split; discriminate. Qed.

Lemma one_socket_unless_start_send_fails_witness :
  let evs :=
    events_of (thread_target sample_info false agent 2 2) broken_then_disconnect in
  count_if is_connect evs = 1 /\
  peak_open [Info.ws sample_info] evs <= 1.
Proof.
  intros evs. split; [reflexivity|].
  apply (one_socket_unless_start_send_fails sample_info false agent 2 2
           broken_then_disconnect).
  reflexivity.
Defined.

Lemma ws_main_returns_or_waits_witness :
  fst (ws_main sample_info false agent 3 3 false ping_then_disconnect) = Ret tt \/
  fst (ws_main sample_info false agent 3 3 false ping_then_disconnect) = Blocked.
Proof.
  apply (ws_main_returns_or_waits sample_info false agent 3 3 false
           ping_then_disconnect); cbn; lia.
Defined.

(** * The further properties at work *)

Lemma ws_main_returns_only_on_disconnect_witness :
  exists t d ws,
    trace (snd (ws_main sample_info false agent 2 2 false ping_then_disconnect)) =
      (t ++ [EvWriteDebug (JDict d); EvClose ws])%list /\
    dict_lookup d "type" = Some (JString "disconnect").
Proof.
  apply (ws_main_returns_only_on_disconnect sample_info false agent 2 2 false
           ping_then_disconnect).
  reflexivity.
Defined.

Lemma silent_frames_are_passed_over_witness :
  let w := sample_world [Frame ""; Frame "null"; Frame "[1]"; Frame disconnect_text] in
  let w' :=
    World [Frame disconnect_text] (send_faults w) (connect_faults w) (next_sock w)
          (trace w ++ map (EvRecv 1) [""; "null"; "[1]"]) in
  comes_to (on_frame true 1) (3 + 1) w 1 w' /\
  while_true (3 + 1) (on_frame true 1) w = while_true 1 (on_frame true 1) w'.
Proof.
  apply (silent_frames_are_passed_over true 1 [""; "null"; "[1]"] 1
           (sample_world [Frame ""; Frame "null"; Frame "[1]"; Frame disconnect_text])
           [Frame disconnect_text]).
  - repeat constructor.
  - reflexivity.
Defined.

Lemma preview_is_the_frame_or_its_head_witness :
  preview ping_text = ping_text /\
  String.length (preview long_error_text) = 103.
Proof.
  split.
  - apply (proj1 (preview_is_the_frame_or_its_head ping_text)).
    vm_compute. lia.
  - destruct (proj2 (preview_is_the_frame_or_its_head long_error_text))
      as (_ & H & _); [vm_compute; lia | exact H].
Defined.

(** ** The updater at work *)


Lemma sums_are_read_back_witness :
  Update.sums_lookup (splitlines (sums_text sample_sums)) "youtube-dl-red.exe" =
  Ok (Some (marked "new exe")).
Proof.
  apply (sums_are_read_back sample_sums "youtube-dl-red.exe").
  repeat constructor.
Defined.


Lemma True_is_returned_only_after_the_swap_witness :
  Update.frozen exe_platform = true /\
  exists id pre mid,
    Update.log (snd (Update.run_update exe_platform sample_library kind_outside
                       at_start)) =
    (Update.log at_start ++ pre ++ announces id
       :: mid ++ swap (Update.filename exe_platform sample_library) id)%list.
Proof.
  apply (True_is_returned_only_after_the_swap
           exe_platform sample_library kind_outside at_start).
  vm_compute. reflexivity.
Defined.

Lemma swap_goes_on_after_a_corrupt_download_witness :
  exists pre done post,
    Update.log (snd (Update.install_exe exe_platform sample_library
                       corrupting_outside new_context at_start)) =
    (pre ++ Update.Remove "C:/tools/ytdl-patched.exe.new" true
         :: Update.Rename "C:/tools/ytdl-patched.exe"
                          "C:/tools/ytdl-patched.exe.old" done
         :: post)%list.
Proof.
  destruct (swap_goes_on_after_a_corrupt_download
              exe_platform sample_library corrupting_outside new_context at_start)
    as (evs & Hlog & Hnext).
  cbn [Update.log at_start app] in Hlog.
  assert (Hevs : exists pre post,
             evs = (pre ++ Update.Remove "C:/tools/ytdl-patched.exe.new" true
                        :: post)%list).
  { rewrite <- Hlog. eexists [_; _; _; _; _; _; _], _.
    vm_compute. reflexivity. }
  destruct Hevs as (pre & post & Hevs).
  destruct (Hnext pre post Hevs) as (done & post' & ->).
  exists pre, done, post'. rewrite Hlog. exact Hevs.
Defined.
